(** * github-config-manager: status tracker, log collector, repository task
      runner and sequential scheduler, embedded in Rocq.

    The module-level globals of the Python program ([_repo_statuses],
    [_initial_total_repos_count], [_all_group_logs]), the console and the
    cancellation event are the fields of one record, [Globals]; a function
    of the program that reads or writes them is a function on [Globals].
    A call ends in one of three ways, [outcome]: it returns, it raises an
    exception of class [Exception], or [sys.exit] raised [SystemExit].

    What lies outside the interpreter is an abstract [World] driven by
    oracles: the [gh] tool run by [subprocess.run], [json.loads], the
    interactive listener thread (seen only through the event it sets; its
    own console lines are not recorded), the clock, the iteration order of
    a set. The pooled branch of [process_repositories], whose workers run
    on the threads of a [ThreadPoolExecutor], and the steps of [main] that
    read the command line and the configuration files are parameters. *)

From Stdlib Require Import ZArith String List Bool Lia.
From stdpp Require Import gmap strings list fin_maps sorting pretty.

Local Open Scope string_scope.

(** ** Data model *)

(** The four values of [_repo_statuses[repo]["status"]]. *)
Inductive Lifecycle := Pending | InProgress | Completed | Failed.

#[global] Instance Lifecycle_eq_dec : EqDecision Lifecycle.
Proof. solve_decision. Defined.

(** The text the source stores for each lifecycle value. *)
Definition status_text (l : Lifecycle) : string :=
  match l with
  | Pending => "pending"
  | InProgress => "in_progress"
  | Completed => "completed"
  | Failed => "failed"
  end.

(** One entry of [_repo_statuses]: [{"success": bool, "status": str}]. *)
Record RepoStatus := mkRepoStatus { success : bool; status : Lifecycle }.

#[global] Instance RepoStatus_eq_dec : EqDecision RepoStatus.
Proof. solve_decision. Defined.

(** One entry of [_all_group_logs]: [{"logs": list}]. *)
Record LogGroup := mkLogGroup { logs : list string }.

Definition terminal (l : Lifecycle) : Prop := l = Completed \/ l = Failed.

(** The line feed written after console messages. *)
Definition NL : string := String (Ascii.ascii_of_nat 10) EmptyString.

(** The exceptions of class [Exception] the program meets. [text] is what
    [str(e)] renders; [stderr] of a [CalledProcessError] is its captured
    standard error, decoded and stripped (empty when there was none). *)
Inductive PyException :=
| CalledProcessError (text : string) (stderr : string)
| FileNotFoundError (text : string)
| ValueError (text : string)
| TypeError (text : string)
| OtherException (text : string).

Definition exception_text (e : PyException) : string :=
  match e with
  | CalledProcessError t _ | FileNotFoundError t | ValueError t
  | TypeError t | OtherException t => t
  end.

(** How a call ends: it returns, it raises an [Exception], or [sys.exit]
    raised [SystemExit], which no [except Exception] clause catches. *)
Inductive outcome (A : Type) :=
| Returned (a : A)
| Raised (e : PyException)
| SystemExit (code : Z).
Arguments Returned {A} a.
Arguments Raised {A} e.
Arguments SystemExit {A} code.

Section Program.

Context {World : Type}.

(** The state of the running interpreter. [stdout] lists the arguments of
    the [sys.stdout.write] calls made so far, oldest first;
    [subprocess_calls] lists the commands handed to [subprocess.run] so
    far, oldest first; [stop_event] is the flag of [config.stop_event]. *)
Record Globals := mkGlobals {
  _repo_statuses : gmap string RepoStatus;
  _initial_total_repos_count : nat;
  _all_group_logs : gmap string LogGroup;
  stdout : list string;
  stop_event : bool;
  subprocess_calls : list (list string);
  world : World
}.

Definition with_repo_statuses (m : gmap string RepoStatus) (g : Globals) : Globals :=
  mkGlobals m (_initial_total_repos_count g) (_all_group_logs g) (stdout g)
            (stop_event g) (subprocess_calls g) (world g).

Definition with_initial_total (n : nat) (g : Globals) : Globals :=
  mkGlobals (_repo_statuses g) n (_all_group_logs g) (stdout g)
            (stop_event g) (subprocess_calls g) (world g).

Definition with_group_logs (m : gmap string LogGroup) (g : Globals) : Globals :=
  mkGlobals (_repo_statuses g) (_initial_total_repos_count g) m (stdout g)
            (stop_event g) (subprocess_calls g) (world g).

Definition with_stop_event (b : bool) (g : Globals) : Globals :=
  mkGlobals (_repo_statuses g) (_initial_total_repos_count g) (_all_group_logs g)
            (stdout g) b (subprocess_calls g) (world g).

Definition with_world (w : World) (g : Globals) : Globals :=
  mkGlobals (_repo_statuses g) (_initial_total_repos_count g) (_all_group_logs g)
            (stdout g) (stop_event g) (subprocess_calls g) w.

(** [sys.stdout.write(s)] (the flush that follows changes nothing here). *)
Definition stdout_write (s : string) (g : Globals) : Globals :=
  mkGlobals (_repo_statuses g) (_initial_total_repos_count g) (_all_group_logs g)
            (stdout g ++ [s]) (stop_event g) (subprocess_calls g) (world g).

Definition record_call (cmd : list string) (g : Globals) : Globals :=
  mkGlobals (_repo_statuses g) (_initial_total_repos_count g) (_all_group_logs g)
            (stdout g) (stop_event g) (subprocess_calls g ++ [cmd]) (world g).

(** The globals as the modules' top-level assignments leave them. *)
Definition initial_globals (w : World) : Globals :=
  mkGlobals ∅ 0 ∅ [] false [] w.

(** ** core/main_processor.py: the status tracker *)

(** [initialize_repository_statuses]: the dict comprehension gives every
    name its own fresh record; a name listed twice keeps one entry. *)
Definition initialize_repository_statuses (repositories : list string)
    (g : Globals) : Globals :=
  with_initial_total (length repositories)
    (with_repo_statuses
       (list_to_map ((fun repo => (repo, mkRepoStatus false Pending)) <$> repositories))
       g).

Definition set_repository_status (repo_name : string) (success : bool)
    (g : Globals) : Globals :=
  match _repo_statuses g !! repo_name with
  | Some _ =>
      with_repo_statuses
        (<[repo_name := mkRepoStatus success (if success then Completed else Failed)]>
           (_repo_statuses g)) g
  | None =>
      stdout_write ("[WARN: Status Update] Repo '" +:+ repo_name +:+
                    "' not found in status tracker." +:+ NL) g
  end.

Definition set_repository_in_progress (repo_name : string) (g : Globals) : Globals :=
  match _repo_statuses g !! repo_name with
  | Some rs =>
      if decide (status rs = Pending)
      then with_repo_statuses
             (<[repo_name := mkRepoStatus (success rs) InProgress]> (_repo_statuses g)) g
      else g
  | None => g
  end.

(** [_repo_statuses.get(repo_name, {}).get("success", False)] *)
Definition get_repository_overall_status (repo_name : string) (g : Globals) : bool :=
  match _repo_statuses g !! repo_name with
  | Some rs => success rs
  | None => false
  end.

Definition is_completed_or_failed (rs : RepoStatus) : bool :=
  bool_decide (status rs = Completed) || bool_decide (status rs = Failed).

Definition is_in_progress (rs : RepoStatus) : bool :=
  bool_decide (status rs = InProgress).

(** [get_current_progress_summary]: one scan of [_repo_statuses.values()];
    the [elif] is reached only by a value that is neither completed nor
    failed. *)
Definition get_current_progress_summary (g : Globals) : nat * nat * nat :=
  let values := (map_to_list (_repo_statuses g)).*2 in
  (_initial_total_repos_count g,
   length (filter (fun rs => is_completed_or_failed rs = true) values),
   length (filter (fun rs => is_completed_or_failed rs = false
                             /\ is_in_progress rs = true) values)).

(** The lifecycle the tracker holds for a repository, if it tracks it. *)
Definition lifecycle_of (repo_name : string) (g : Globals) : option Lifecycle :=
  status <$> _repo_statuses g !! repo_name.

(** ** utils/logs.py: the log collector *)

Definition initialize_log_collector (group_names : list string) (g : Globals) : Globals :=
  with_group_logs (list_to_map ((fun name => (name, mkLogGroup [])) <$> group_names)) g.

(** [add_log_entry(group_name, message, store, is_prompt)]; [group_name]
    is [None] for a global message. *)
Definition add_log_entry (group_name : option string) (message : string)
    (store is_prompt : bool) (g : Globals) : Globals :=
  match store, group_name with
  | true, Some name =>
      match _all_group_logs g !! name with
      | None =>
          stdout_write ("[WARN: Missing Log Group - '" +:+ name +:+
                        "'] Message not stored: " +:+ message +:+ NL) g
      | Some grp =>
          with_group_logs (<[name := mkLogGroup (logs grp ++ [message])]> (_all_group_logs g)) g
      end
  | _, _ =>
      if is_prompt then stdout_write message g
      else stdout_write (message +:+ NL) g
  end.

(** [_all_group_logs.get(group_name, {}).get("logs", [])] *)
Definition get_group_log_entries (group_name : string) (g : Globals) : list string :=
  match _all_group_logs g !! group_name with
  | Some grp => logs grp
  | None => []
  end.

Definition clear_group_log_entries (group_name : string) (g : Globals) : Globals :=
  match _all_group_logs g !! group_name with
  | Some _ => with_group_logs (<[group_name := mkLogGroup []]> (_all_group_logs g)) g
  | None =>
      stdout_write ("[WARN: Clear Logs] Group '" +:+ group_name +:+
                    "' not found in collector." +:+ NL) g
  end.

(** ** Control flow: returns, exceptions and interpreter exit *)

Definition M (A : Type) : Type := Globals -> outcome A * Globals.

Definition ret {A} (a : A) : M A := fun g => (Returned a, g).

Definition bind {A B} (m : M A) (k : A -> M B) : M B :=
  fun g =>
    match m g with
    | (Returned a, g') => k a g'
    | (Raised e, g') => (Raised e, g')
    | (SystemExit c, g') => (SystemExit c, g')
    end.

Definition raise {A} (e : PyException) : M A := fun g => (Raised e, g).

Definition sys_exit {A} (code : Z) : M A := fun g => (SystemExit code, g).

(** A statement that only updates the globals. *)
Definition exec (f : Globals -> Globals) : M unit := fun g => (Returned tt, f g).

(** An expression that only reads the globals. *)
Definition read {A} (f : Globals -> A) : M A := fun g => (Returned (f g), g).

(** [try: body / except Exception as e: handler e] *)
Definition try_except {A} (body : M A) (handler : PyException -> M A) : M A :=
  fun g =>
    match body g with
    | (Raised e, g') => handler e g'
    | r => r
    end.

(** [try: body / finally: fin]: [fin] runs however [body] ends, and the
    way [body] ended stands unless [fin] itself raises or exits. *)
Definition try_finally {A} (body : M A) (fin : M unit) : M A :=
  fun g =>
    let '(r, g') := body g in
    match fin g' with
    | (Returned _, g'') => (r, g'')
    | (Raised e, g'') => (Raised e, g'')
    | (SystemExit c, g'') => (SystemExit c, g'')
    end.

End Program.

Declare Scope py_scope.
Delimit Scope py_scope with py.
Notation "x <- c1 ;; c2" := (bind c1 (fun x => c2))
  (at level 100, c1 at next level, right associativity) : py_scope.
Notation "c1 ;; c2" := (bind c1 (fun _ => c2))
  (at level 100, right associativity) : py_scope.

Arguments Globals : clear implicits.
Arguments M : clear implicits.

Local Open Scope py_scope.

(** ** Values decoded from the [gh] tool's JSON output *)

(** What [json.loads] can return. [JNull] is Python's [None]; [JObj] is a
    dict (its keys are distinct). A JSON real number behaves below as an
    integer does: it is not a [str]. *)
Unset Elimination Schemes.
Inductive json :=
| JNull
| JBool (b : bool)
| JNum (n : Z)
| JStr (s : string)
| JArr (items : list json)
| JObj (fields : list (string * json)).
Set Elimination Schemes.

Inductive JsonResult :=
| JsonValue (j : json)
| JSONDecodeError (text : string)
| JsonOtherError (text : string).

(** The hashable values that can enter the set built by
    [_get_existing_items_from_repo]; [True] and [False] hash and compare
    as [1] and [0]. *)
Inductive pykey := KStr (s : string) | KNum (n : Z) | KNone.

#[global] Instance pykey_eq_dec : EqDecision pykey.
Proof. solve_decision. Defined.

#[global] Instance pykey_countable : Countable pykey.
Proof.
  refine (inj_countable'
    (fun k => match k with
              | KStr s => inl s
              | KNum n => inr (inl n)
              | KNone => inr (inr tt)
              end)
    (fun x => match x with
              | inl s => KStr s
              | inr (inl n) => KNum n
              | inr (inr _) => KNone
              end) _).
  intros []; reflexivity.
Defined.

(** [needle in hay] on two [str]. *)
Fixpoint contains (needle hay : string) : bool :=
  String.prefix needle hay ||
  match hay with
  | EmptyString => false
  | String _ rest => contains needle rest
  end.

(** A [str] is true when it is not empty. *)
Definition truthy (s : string) : bool := negb (bool_decide (s = "")).

(** [for item in data]: the items a decoded value yields. *)
Definition iter_items (data : json) : PyException + list json :=
  match data with
  | JArr items => inr items
  | JObj fields => inr (JStr <$> fields.*1)
  | JStr s => inr ((fun c => JStr (String c EmptyString)) <$> list_ascii_of_string s)
  | JNull => inl (TypeError "'NoneType' object is not iterable")
  | JBool _ => inl (TypeError "'bool' object is not iterable")
  | JNum _ => inl (TypeError "'int' object is not iterable")
  end.

(** ['name' in item] *)
Definition name_in (item : json) : PyException + bool :=
  match item with
  | JObj fields => inr (bool_decide ("name" ∈ fields.*1))
  | JStr s => inr (contains "name" s)
  | JArr items =>
      inr (existsb (fun x => match x with
                             | JStr s => bool_decide (s = "name")
                             | _ => false
                             end) items)
  | JNull => inl (TypeError "argument of type 'NoneType' is not iterable")
  | JBool _ => inl (TypeError "argument of type 'bool' is not iterable")
  | JNum _ => inl (TypeError "argument of type 'int' is not iterable")
  end.

(** [item['name']], hashed as it enters the set. *)
Definition name_key (item : json) : PyException + pykey :=
  match item with
  | JObj fields =>
      match snd <$> List.find (fun kv => bool_decide (fst kv = "name")) fields with
      | Some (JStr s) => inr (KStr s)
      | Some (JNum n) => inr (KNum n)
      | Some (JBool b) => inr (KNum (if b then 1 else 0))
      | Some JNull => inr KNone
      | Some (JArr _) => inl (TypeError "unhashable type: 'list'")
      | Some (JObj _) => inl (TypeError "unhashable type: 'dict'")
      | None => inl (OtherException "'name'")
      end
  | JStr _ => inl (TypeError "string indices must be integers, not 'str'")
  | JArr _ => inl (TypeError "list indices must be integers or slices, not str")
  | JNull => inl (TypeError "'NoneType' object is not subscriptable")
  | JBool _ => inl (TypeError "'bool' object is not subscriptable")
  | JNum _ => inl (TypeError "'int' object is not subscriptable")
  end.

(** [{item['name'] for item in data if 'name' in item}], item by item. *)
Fixpoint collect_names (items : list json) (acc : gset pykey)
    : PyException + gset pykey :=
  match items with
  | [] => inr acc
  | item :: rest =>
      match name_in item with
      | inl e => inl e
      | inr false => collect_names rest acc
      | inr true =>
          match name_key item with
          | inl e => inl e
          | inr k => collect_names rest ({[k]} ∪ acc)
          end
      end
  end.

Definition existing_names (data : json) : PyException + gset pykey :=
  match iter_items data with
  | inl e => inl e
  | inr items => collect_names items ∅
  end.

Definition key_str (k : pykey) : option string :=
  match k with KStr s => Some s | _ => None end.

(** The members of a fetched set that are [str]. *)
Definition str_keys (E : gset pykey) : gset string :=
  list_to_set (omap key_str (elements E)).

(** The members of a fetched set when every one of them is a [str]. *)
Definition all_str (E : gset pykey) : option (list string) :=
  mapM key_str (elements E).

(** [sorted] on a list of [str]: by code point, which on UTF-8 text is
    the order of the bytes. *)
Definition str_le (a b : string) : Prop := Is_true (String.leb a b).

#[global] Instance str_le_dec : RelDecision str_le.
Proof. intros a b. unfold str_le. apply _. Defined.

Definition py_sorted (l : list string) : list string := merge_sort str_le l.

(** ** Two sample environments *)

(** A machine on which [gh] answers: the repository holds the secrets [X]
    and [Y] and no variable, and every delete and set succeeds. The world
    is the number of times the scheduler has looked at the listener. *)
Definition sample_subprocess_run (command : list string) (shell : bool) (w : nat)
    : (PyException + string * string) * nat :=
  match command with
  | _ :: kind :: verb :: _ =>
      if bool_decide (verb = "list") && bool_decide (kind = "secret")
      then (inr ("SECRETS", ""), w)
      else (inr ("", ""), w)
  | _ => (inr ("", ""), w)
  end.

Definition sample_json_loads (text : string) : JsonResult :=
  if bool_decide (text = "SECRETS")
  then JsonValue (JArr [JObj [("name", JStr "X")]; JObj [("name", JStr "Y")]])
  else JSONDecodeError "Expecting value: line 1 column 1 (char 0)".

Definition sample_repr_list (l : list string) : string :=
  "[" +:+ String.concat ", " ((fun x => "'" +:+ x +:+ "'") <$> l) +:+ "]".

(** The listener sets the event between the first and the second look. *)
Definition sample_listener (w : nat) : bool * nat := (Nat.leb 1 w, Datatypes.S w).

(** A clock that stands still. *)
Definition sample_sleep (seconds : Z) (w : nat) : nat := w.
Definition sample_time (w : nat) : nat := 0.
Definition sample_elapsed (t0 t1 : nat) : string := "0.00".

(** A machine on which the [gh] executable is not installed. *)
Definition missing_gh (command : list string) (shell : bool) (w : nat)
    : (PyException + string * string) * nat :=
  (inl (FileNotFoundError "[Errno 2] No such file or directory: 'gh'"), w).

(** ** The program against its environment *)

Section Operations.

Context {World : Type}.

(** [subprocess.run(command, shell=shell, capture_output=True, check=True)]
    together with the decoding of what it captured: the call either
    returns the decoded, stripped standard output and standard error, or
    raises. *)
Variable subprocess_run :
  list string -> bool -> World -> (PyException + string * string) * World.

(** [json.loads] *)
Variable json_loads : string -> JsonResult.

(** The order in which a [for] loop visits a set of [str]. *)
Variable set_order : gset string -> list string.

(** [str] of a list of [str], as an f-string renders it. *)
Variable repr_list : list string -> string.

Abbreviation Globals := (Globals World).
Abbreviation M := (M World).

(** [add_log_entry(group_name, message)] with [store] and [is_prompt] at
    their defaults. *)
Definition add_log (group_name : option string) (message : string) : M unit :=
  exec (add_log_entry group_name message true false).

(** *** utils/utils.py *)

Definition run_subprocess (command : list string) (shell : bool)
    : M (string * string) :=
  fun g =>
    let g1 := record_call command g in
    match subprocess_run command shell (world g1) with
    | (inr out, w) => (Returned out, with_world w g1)
    | (inl e, w) => (Raised e, with_world w g1)
    end.

Definition execute_subprocess_command (command : list string) (shell : bool)
    : M (string * string) :=
  let cmd_str := String.concat " " command in
  try_except
    (run_subprocess command shell)
    (fun e =>
       match e with
       | CalledProcessError _ error_stderr =>
           add_log None ("❌ Command execution error: " +:+ cmd_str);;
           add_log None ("❌ Stderr: " +:+ error_stderr);;
           raise e
       | FileNotFoundError _ =>
           add_log None ("❌ Command failed: '" +:+ hd "" command +:+
                         "' not found. Check your PATH.");;
           sys_exit 1
       | _ =>
           add_log None ("❌ An unexpected error occurred during command execution ('" +:+
                         cmd_str +:+ "'): " +:+ exception_text e);;
           raise e
       end).

Definition parse_json_string (json_string error_context : string)
    (repo_name : option string) : M json :=
  match json_loads json_string with
  | JsonValue j => ret j
  | JSONDecodeError t =>
      add_log repo_name ("🚨 DEBUG: JSON parsing error! Context: " +:+ error_context +:+
                         ". Error: " +:+ t);;
      add_log repo_name ("🚨 DEBUG: problematic_json_string: '''" +:+ json_string +:+ "'''");;
      ret JNull
  | JsonOtherError t =>
      add_log repo_name ("Warning: An unexpected error occurred during " +:+
                         error_context +:+ ": " +:+ t);;
      ret JNull
  end.

(** *** core/github_operations.py *)

Definition run_gh_command (command : list string) (repo_name : option string)
    : M string :=
  let log_prefix :=
    match repo_name with
    | Some r => if truthy r then "[" +:+ r +:+ "] " else ""
    | None => ""
    end in
  try_except
    (out <- execute_subprocess_command command false;;
     let '(stdout_decoded, stderr_decoded) := out in
     (if truthy stderr_decoded
      then add_log repo_name (log_prefix +:+ "DEBUG: STDERR: '" +:+ stderr_decoded +:+ "'")
      else ret tt);;
     ret stdout_decoded)
    (fun e =>
       match e with
       | CalledProcessError _ error_stderr =>
           if contains "HTTP 404" error_stderr &&
              (contains "secret delete" (String.concat " " command) ||
               contains "variable delete" (String.concat " " command))
           then
             add_log repo_name (log_prefix +:+
               "Warning: HTTP 404 - Item does not exist, cannot delete. Proceeding to next step.");;
             ret ""
           else if contains "flag needs an argument: --body" error_stderr
           then
             add_log repo_name (log_prefix +:+
               "❌ Error: '--body' argument missing value. Value might be empty.");;
             raise (ValueError "Secret/Variable value missing error")
           else
             add_log repo_name (log_prefix +:+
               "Fatal error occurred (GH CLI command execution): " +:+ exception_text e +:+
               ". Stderr: " +:+ error_stderr);;
             raise e
       | FileNotFoundError _ =>
           add_log repo_name (log_prefix +:+
             "❌ GitHub CLI (gh) not found. Please ensure it is installed and in your PATH.");;
           raise (FileNotFoundError "GitHub CLI (gh) not found")
       | _ =>
           add_log repo_name (log_prefix +:+
             "❌ An unexpected error occurred during gh command execution: " +:+
             exception_text e);;
           raise e
       end).

Definition _get_existing_items_from_repo (repo_name item_type : string)
    : M (gset pykey) :=
  let fetch (command : list string) (context_label : string) : M (gset pykey) :=
    try_except
      (stdout_str <- run_gh_command command (Some repo_name);;
       if negb (truthy stdout_str)
       then
         add_log (Some repo_name) ("[" +:+ repo_name +:+ "] Warning: " +:+ context_label +:+
           " list for repository '" +:+ repo_name +:+ "' is empty or could not be retrieved.");;
         ret ∅
       else
         data <- parse_json_string stdout_str
                   (context_label +:+ " list for repository '" +:+ repo_name +:+ "'") None;;
         match data with
         | JNull =>
             add_log (Some repo_name) ("[" +:+ repo_name +:+ "] Warning: Failed to parse " +:+
               context_label +:+ " JSON for repository '" +:+ repo_name +:+ "'.");;
             ret ∅
         | _ =>
             match existing_names data with
             | inl e => raise e
             | inr names => ret names
             end
         end)
      (fun e =>
         add_log (Some repo_name) ("[" +:+ repo_name +:+ "] Warning: Failed to retrieve " +:+
           context_label +:+ " list for repository '" +:+ repo_name +:+ "': " +:+
           exception_text e);;
         ret ∅) in
  if bool_decide (item_type = "secret")
  then fetch ["gh"; "secret"; "list"; "--repo"; repo_name; "--json"; "name"] "Secret"
  else if bool_decide (item_type = "variable")
  then fetch ["gh"; "variable"; "list"; "--repo"; repo_name; "--json"; "name"] "Variable"
  else
    add_log (Some repo_name) ("❌ Error: Unknown item type '" +:+ item_type +:+
                              "'. Must be 'secret' or 'variable'.");;
    ret ∅.

Definition list_repository_secrets (repo_name : string) : M (gset pykey) :=
  _get_existing_items_from_repo repo_name "secret".

Definition list_repository_variables (repo_name : string) : M (gset pykey) :=
  _get_existing_items_from_repo repo_name "variable".

(** [', '.join(sorted(list(existing)))] raises [TypeError] as soon as one
    member of the set is not a [str]. *)
Definition log_existing (repo_name what icon : string) (existing : gset pykey)
    : M unit :=
  let log_prefix := "[" +:+ repo_name +:+ "]" in
  if bool_decide (existing ≠ ∅)
  then
    match all_str existing with
    | Some names =>
        add_log (Some repo_name) (log_prefix +:+ " " +:+ icon +:+ " Existing " +:+ what +:+
                                  ": " +:+ String.concat ", " (py_sorted names))
    | None => raise (TypeError "sequence item: expected str instance")
    end
  else
    add_log (Some repo_name) (log_prefix +:+ " " +:+ icon +:+ " No existing " +:+ what +:+
                              " found.").

Definition _log_and_fetch_existing_repo_items (repo_name : string)
    : M (gset pykey * gset pykey) :=
  existing_secrets <- list_repository_secrets repo_name;;
  log_existing repo_name "Secrets" "🔑" existing_secrets;;
  existing_variables <- list_repository_variables repo_name;;
  log_existing repo_name "Variables" "⚙️" existing_variables;;
  ret (existing_secrets, existing_variables).

Definition delete_secret_command (repo_name secret_name : string) : list string :=
  ["gh"; "secret"; "delete"; secret_name; "--repo"; repo_name].

Definition delete_variable_command (repo_name var_name : string) : list string :=
  ["gh"; "variable"; "delete"; var_name; "--repo"; repo_name].

Definition set_secret_command (repo_name secret_name secret_value : string) : list string :=
  ["gh"; "secret"; "set"; secret_name; "--repo"; repo_name; "--body"; secret_value].

Definition set_variable_command (repo_name var_name var_value : string) : list string :=
  ["gh"; "variable"; "set"; var_name; "--repo"; repo_name; "--body"; var_value].

Definition delete_github_secret (repo_name secret_name : string) : M bool :=
  try_except
    (add_log (Some repo_name) ("[" +:+ repo_name +:+ "] Deleting Secret '" +:+
                               secret_name +:+ "'...");;
     _ <- run_gh_command (delete_secret_command repo_name secret_name) (Some repo_name);;
     add_log (Some repo_name) ("[" +:+ repo_name +:+ "] ✅ Successfully deleted Secret '" +:+
                               secret_name +:+ "'.");;
     ret true)
    (fun e =>
       add_log (Some repo_name) ("[" +:+ repo_name +:+ "] ❌ Failed to delete Secret '" +:+
                                 secret_name +:+ "': " +:+ exception_text e);;
       ret false).

Definition delete_github_variable (repo_name var_name : string) : M bool :=
  try_except
    (add_log (Some repo_name) ("[" +:+ repo_name +:+ "] Deleting Variable '" +:+
                               var_name +:+ "'...");;
     _ <- run_gh_command (delete_variable_command repo_name var_name) (Some repo_name);;
     add_log (Some repo_name) ("[" +:+ repo_name +:+ "] ✅ Successfully deleted Variable '" +:+
                               var_name +:+ "'.");;
     ret true)
    (fun e =>
       add_log (Some repo_name) ("[" +:+ repo_name +:+ "] ❌ Failed to delete Variable '" +:+
                                 var_name +:+ "': " +:+ exception_text e);;
       ret false).

Definition set_github_secret (repo_name secret_name secret_value : string)
    (force : bool) (existing_secrets : gset pykey) : M bool :=
  try_except
    (if negb force && bool_decide (KStr secret_name ∈ existing_secrets)
     then
       add_log (Some repo_name) ("[" +:+ repo_name +:+ "] Warning: Secret '" +:+ secret_name +:+
         "' already exists. Skipping (no update) as '--force' option is not enabled.");;
       ret true
     else
       add_log (Some repo_name) ("[" +:+ repo_name +:+ "] Setting/updating Secret '" +:+
                                 secret_name +:+ "'...");;
       _ <- run_gh_command (set_secret_command repo_name secret_name secret_value)
              (Some repo_name);;
       add_log (Some repo_name) ("[" +:+ repo_name +:+
                                 "] ✅ Successfully set/updated Secret '" +:+ secret_name +:+ "'.");;
       ret true)
    (fun e =>
       add_log (Some repo_name) ("[" +:+ repo_name +:+ "] ❌ Failed to set/update Secret '" +:+
                                 secret_name +:+ "': " +:+ exception_text e);;
       ret false).

Definition set_github_variable (repo_name var_name var_value : string)
    (force : bool) (existing_variables : gset pykey) : M bool :=
  try_except
    (if negb force && bool_decide (KStr var_name ∈ existing_variables)
     then
       add_log (Some repo_name) ("[" +:+ repo_name +:+ "] Warning: Variable '" +:+ var_name +:+
         "' already exists. Skipping (no update) as '--force' option is not enabled.");;
       ret true
     else
       add_log (Some repo_name) ("[" +:+ repo_name +:+ "] Setting/updating Variable '" +:+
                                 var_name +:+ "'...");;
       _ <- run_gh_command (set_variable_command repo_name var_name var_value)
              (Some repo_name);;
       add_log (Some repo_name) ("[" +:+ repo_name +:+
                                 "] ✅ Successfully set/updated Variable '" +:+ var_name +:+ "'.");;
       ret true)
    (fun e =>
       add_log (Some repo_name) ("[" +:+ repo_name +:+ "] ❌ Failed to set/update Variable '" +:+
                                 var_name +:+ "': " +:+ exception_text e);;
       ret false).

(** [for x in items: if not f(x): overall_success = False] *)
Fixpoint for_each {A} (f : A -> M bool) (items : list A) (overall_success : bool)
    : M bool :=
  match items with
  | [] => ret overall_success
  | x :: rest =>
      ok <- f x;;
      for_each f rest (if ok then overall_success else false)
  end.

(** [set(delete_list).intersection(existing)]: its members are members of
    [delete_list], hence [str]. *)
Definition to_actually_delete (delete_list : list string) (existing : gset pykey)
    : gset string :=
  list_to_set delete_list ∩ str_keys existing.

Definition process_single_repository (repo_name : string)
    (delete_secrets_list delete_variables_list : list string)
    (secrets_to_set_dict variables_to_set_dict : list (string * string))
    (force : bool) : M bool :=
  let log_prefix := "[" +:+ repo_name +:+ "]" in
  let overall_success := true in
  try_except
    (existing <- _log_and_fetch_existing_repo_items repo_name;;
     let '(existing_secrets, existing_variables) := existing in
     overall_success <-
       match delete_secrets_list with
       | [] => ret overall_success
       | _ =>
           let secrets_to_actually_delete :=
             to_actually_delete delete_secrets_list existing_secrets in
           if bool_decide (secrets_to_actually_delete ≠ ∅)
           then
             add_log (Some repo_name) (log_prefix +:+
               "    Secrets to delete (existing and requested): " +:+
               repr_list (set_order secrets_to_actually_delete));;
             for_each (delete_github_secret repo_name)
               (set_order secrets_to_actually_delete) overall_success
           else
             add_log (Some repo_name) (log_prefix +:+
               "    No secrets found to delete from the repository (intersection with requested list is empty).");;
             ret overall_success
       end;;
     overall_success <-
       match delete_variables_list with
       | [] => ret overall_success
       | _ =>
           let variables_to_actually_delete :=
             to_actually_delete delete_variables_list existing_variables in
           if bool_decide (variables_to_actually_delete ≠ ∅)
           then
             add_log (Some repo_name) (log_prefix +:+
               "    Variables to delete (existing and requested): " +:+
               repr_list (set_order variables_to_actually_delete));;
             for_each (delete_github_variable repo_name)
               (set_order variables_to_actually_delete) overall_success
           else
             add_log (Some repo_name) (log_prefix +:+
               "    No variables found to delete from the repository (intersection with requested list is empty).");;
             ret overall_success
       end;;
     existing <- _log_and_fetch_existing_repo_items repo_name;;
     let '(existing_secrets, existing_variables) := existing in
     overall_success <-
       match secrets_to_set_dict with
       | [] => ret overall_success
       | _ =>
           add_log (Some repo_name) (log_prefix +:+ "    Secrets to set/update: " +:+
                                     repr_list (secrets_to_set_dict.*1));;
           for_each (fun kv => set_github_secret repo_name (fst kv) (snd kv) force
                                 existing_secrets)
             secrets_to_set_dict overall_success
       end;;
     overall_success <-
       match variables_to_set_dict with
       | [] => ret overall_success
       | _ =>
           add_log (Some repo_name) (log_prefix +:+ "    Variables to set/update: " +:+
                                     repr_list (variables_to_set_dict.*1));;
           for_each (fun kv => set_github_variable repo_name (fst kv) (snd kv) force
                                 existing_variables)
             variables_to_set_dict overall_success
       end;;
     (if overall_success
      then add_log (Some repo_name) (log_prefix +:+ " ✅ Successfully processed repository '" +:+
                                     repo_name +:+ "'.")
      else add_log (Some repo_name) (log_prefix +:+ " ❌ Some operations failed for repository '" +:+
                                     repo_name +:+ "'."));;
     ret overall_success)
    (fun e =>
       add_log (Some repo_name) (log_prefix +:+
         " ❌ A fatal error occurred while processing repository '" +:+ repo_name +:+ "': " +:+
         exception_text e);;
       add_log (Some repo_name) (log_prefix +:+ " 💀 Repository '" +:+ repo_name +:+
                                 "' operation failed.");;
       ret false).

(** *** core/configs.py *)

(** The fields of [GitHubOperationConfig] the scheduler reads; a dict is
    the list of its items in insertion order. [stop_event] is the event
    object whose flag is the [stop_event] field of the globals. *)
Record GitHubOperationConfig := mkConfig {
  organization : string;
  secrets_to_set : list (string * string);
  variables_to_set : list (string * string);
  delete_secrets : list string;
  delete_variables : list string;
  repositories : list string;
  max_workers : Z;
  sleep_after_repo : Z;
  force : bool
}.

(** [__post_init__] *)
Definition GitHubOperationConfig_post_init (config : GitHubOperationConfig) : M unit :=
  if (max_workers config <? 1)%Z
  then raise (ValueError "max_workers must be 1 or greater.")
  else if (sleep_after_repo config <? 0)%Z
  then raise (ValueError "sleep_after_repo must be 0 or greater.")
  else ret tt.

(** *** core/main_processor.py: the scheduler *)

(** The listener thread: whether it has set the event by the time the
    scheduler looks. *)
Variable listener_has_set : World -> bool * World.

(** [time.sleep], [time.time] and the rendering of a difference of two
    readings with [:.2f]. *)
Variable time_sleep : Z -> World -> World.
Variable Time : Type.
Variable time_time : World -> Time.
Variable format_elapsed : Time -> Time -> string.

(** [config.stop_event.is_set()]: an event once set stays set. *)
Definition stop_event_is_set : M bool :=
  fun g =>
    if stop_event g then (Returned true, g)
    else
      let '(b, w) := listener_has_set (world g) in
      (Returned b, with_stop_event b (with_world w g)).

Definition sleep (seconds : Z) : M unit :=
  exec (fun g => with_world (time_sleep seconds (world g)) g).

(** The type of [single_repo_processor_func]. *)
Definition Processor : Type :=
  string -> list string -> list string ->
  list (string * string) -> list (string * string) -> bool -> M bool.

(** [_process_single_repository_worker], one call of it run on its own.
    The [AtomicInteger] is the number it holds: [completed_repos_count]
    when the call starts, the second component of the result when it
    returns. *)
Definition _process_single_repository_worker (repo_name : string)
    (config : GitHubOperationConfig) (single_repo_processor_func : Processor)
    (completed_repos_count : nat) (total_repos_count : nat) : M (bool * nat) :=
  try_finally
    (try_except
       (stopped <- stop_event_is_set;;
        if stopped
        then ret (false, completed_repos_count)
        else
          exec (set_repository_in_progress repo_name);;
          success <- single_repo_processor_func repo_name
                       (delete_secrets config) (delete_variables config)
                       (secrets_to_set config) (variables_to_set config) (force config);;
          add_log (Some repo_name) ("✅ Repository processing " +:+
            (if success then "completed" else "failed") +:+ " (Success: " +:+
            (if success then "True" else "False") +:+ ").");;
          ret (success, Datatypes.S completed_repos_count))
       (fun exc =>
          add_log (Some repo_name) ("❌ Error processing repository '" +:+ repo_name +:+
                                    "': " +:+ exception_text exc);;
          ret (false, completed_repos_count)))
    (stopped <- stop_event_is_set;;
     if negb stopped
     then add_log None ("Completed Repo: " +:+ repo_name)
     else ret tt).

(** The pooled branch runs its workers on the threads of a
    [ThreadPoolExecutor]; it is left to the environment. *)
Variable pooled_processing : GitHubOperationConfig -> Processor -> Time -> M unit.

(** How one turn of the sequential [for] loop ends. *)
Inductive loop_ctl := Continue | Break.

(** [for msg in get_group_log_entries(repo): add_log_entry(None, msg)] *)
Definition flush_group (repo : string) : M unit :=
  fun g =>
    (Returned tt,
     foldl (fun g' msg => add_log_entry None msg true false g') g
           (get_group_log_entries repo g)).

(** The body of the sequential loop for the repository at index [i]. *)
Definition sequential_iteration (config : GitHubOperationConfig)
    (single_repo_processor_func : Processor) (i : nat) (repo : string)
    : M loop_ctl :=
  stopped <- stop_event_is_set;;
  if stopped
  then
    add_log None (NL +:+ "⚠️ Abort command detected. Stopping sequential processing.");;
    ret Break
  else
    add_log (Some repo) (NL +:+
      "[INFO] To abort, type 'q' and press Enter: Currently processing " +:+ repo +:+ "...");;
    try_finally
      (try_except
         (success <- single_repo_processor_func repo
                       (delete_secrets config) (delete_variables config)
                       (secrets_to_set config) (variables_to_set config) (force config);;
          exec (set_repository_status repo success))
         (fun exc =>
            add_log (Some repo) ("❌ Error processing repository '" +:+ repo +:+ "': " +:+
                                 exception_text exc);;
            exec (set_repository_status repo false)))
      (_ <- read (get_repository_overall_status repo);;
       flush_group repo;;
       exec (clear_group_log_entries repo));;
    (if (Z.of_nat i <? Z.of_nat (length (repositories config)) - 1)%Z
     then
       stopped <- stop_event_is_set;;
       if negb stopped
       then
         add_log None "[INFO] To abort, type 'q' and press Enter.";;
         sleep (sleep_after_repo config)
       else ret tt
     else ret tt);;
    ret Continue.

(** [for i, repo in enumerate(config.repositories)], from index [i] on. *)
Fixpoint sequential_loop (config : GitHubOperationConfig)
    (single_repo_processor_func : Processor) (i : nat) (repos : list string)
    : M unit :=
  match repos with
  | [] => ret tt
  | repo :: rest =>
      ctl <- sequential_iteration config single_repo_processor_func i repo;;
      match ctl with
      | Break => ret tt
      | Continue => sequential_loop config single_repo_processor_func (S i) rest
      end
  end.

(** The statements of [process_repositories] before the mode is chosen. *)
Definition process_repositories_setup (config : GitHubOperationConfig) : M Time :=
  start_time <- read (fun g => time_time (world g));;
  exec (initialize_repository_statuses (repositories config));;
  exec (initialize_log_collector (repositories config));;
  add_log None (NL +:+
    "[INFO] You can abort the operation at any time by typing 'q' and pressing Enter.");;
  ret start_time.

Definition process_repositories (config : GitHubOperationConfig)
    (single_repo_processor_func : Processor) : M unit :=
  start_time <- process_repositories_setup config;;
  (if bool_decide (max_workers config = 1%Z)
   then
     add_log None (NL +:+
       "--- Starting GitHub Repository Variable/Secret Automation (Sequential Processing) ---");;
     sequential_loop config single_repo_processor_func 0 (repositories config)
   else pooled_processing config single_repo_processor_func start_time);;
  add_log None (NL +:+ "--- All repository processing completed ---");;
  end_time <- read (fun g => time_time (world g));;
  add_log None (NL +:+ "✨ Overall operation completed! Total time taken: " +:+
                format_elapsed start_time end_time +:+ " seconds ✨").

(** [start_abort_listener_thread]: a fresh, clear event; the thread it
    starts is the [listener_has_set] oracle. *)
Definition start_abort_listener_thread : M unit := exec (with_stop_event false).

(** *** main.py *)

(** The namespace [parse_arguments] returns; a path is its text. *)
Record Args := mkArgs {
  args_organization : string;
  args_workers : Z;
  args_sleep : Z;
  args_force : bool;
  args_secrets_file : option string;
  args_values_file : option string;
  args_ds : option string;
  args_dv : option string;
  args_tr : option string
}.

(** Argument parsing, the readers of the configuration files, the fetch of
    an organization's repositories and the interactive confirmation work
    on the command line, the file system, the [gh] tool and the keyboard:
    they are left to the environment. [read_lines] opens a file and yields
    its lines; [str_strip] is [str.strip]. *)
Variable parse_arguments : M Args.
Variable validate_file_path : string -> string -> M (option string).
Variable read_key_value_pairs : string -> string -> M (list (string * string)).
Variable read_list_from_file : string -> string -> M (list string).
Variable read_lines : string -> M (list string).
Variable str_strip : string -> string.
Variable get_repositories_from_github : string -> M (list string).
Variable display_and_confirm_actions :
  list string -> list string -> list (string * string) -> list (string * string) ->
  list string -> Z -> Z -> bool -> M unit.

(** [main] up to the point where [config.repositories] is known. *)
Definition main_configure : M GitHubOperationConfig :=
  args <- parse_arguments;;
  let config := mkConfig (args_organization args) [] [] [] [] []
                  (args_workers args) (args_sleep args) (args_force args) in
  GitHubOperationConfig_post_init config;;
  add_log None ("Configured GitHub Organization/User: " +:+ organization config);;
  secrets <-
    match args_secrets_file args with
    | Some p =>
        checked <- validate_file_path p "secret configuration file";;
        match checked with
        | Some secrets_file_path => read_key_value_pairs secrets_file_path "secrets"
        | None => ret (secrets_to_set config)
        end
    | None => ret (secrets_to_set config)
    end;;
  variables <-
    match args_values_file args with
    | Some p =>
        checked <- validate_file_path p "variable configuration file";;
        match checked with
        | Some values_file_path => read_key_value_pairs values_file_path "variables"
        | None => ret (variables_to_set config)
        end
    | None => ret (variables_to_set config)
    end;;
  del_secrets <-
    match args_ds args with
    | Some p =>
        checked <- validate_file_path p "secret deletion list file";;
        match checked with
        | Some ds_file => read_list_from_file ds_file "secret deletion list"
        | None => ret (delete_secrets config)
        end
    | None => ret (delete_secrets config)
    end;;
  del_variables <-
    match args_dv args with
    | Some p =>
        checked <- validate_file_path p "variable deletion list file";;
        match checked with
        | Some dv_file => read_list_from_file dv_file "variable deletion list"
        | None => ret (delete_variables config)
        end
    | None => ret (delete_variables config)
    end;;
  repos <-
    match args_tr args with
    | Some p =>
        try_except
          (lines <- read_lines p;;
           let target_repo_names :=
             str_strip <$>
               List.filter (fun line => truthy (str_strip line) &&
                                        negb (String.prefix "#" line)) lines in
           let repos :=
             (fun r => if negb (contains "/" r)
                       then organization config +:+ "/" +:+ r else r)
               <$> target_repo_names in
           add_log None ("📌 '--tr' option used: " +:+ pretty (length repos) +:+
                         " specific repositories designated.");;
           ret repos)
          (fun e =>
             add_log None ("❌ Error processing '--tr' file: " +:+ exception_text e);;
             sys_exit 1)
    | None => get_repositories_from_github (organization config)
    end;;
  ret (mkConfig (organization config) secrets variables del_secrets del_variables repos
                (max_workers config) (sleep_after_repo config) (force config)).

Definition main : M unit :=
  config <- main_configure;;
  match repositories config with
  | [] =>
      add_log None "No repositories to process. Exiting script.";;
      sys_exit 0
  | _ =>
      display_and_confirm_actions
        (delete_secrets config) (delete_variables config)
        (secrets_to_set config) (variables_to_set config)
        (repositories config) (sleep_after_repo config) (max_workers config)
        (force config);;
      start_abort_listener_thread;;
      process_repositories config process_single_repository
  end.

(** * Notions used in the statements and their proofs *)

Local Open Scope list_scope.

(** A relation between the globals before and after a computation that
    every step of the computation keeps. *)
Definition respects (R : Globals -> Globals -> Prop) {A} (m : M A) : Prop :=
  forall g, R g (snd (m g)).

(** No command was handed to the tool between the two states. *)
Definition same_calls (g g' : Globals) : Prop := subprocess_calls g' = subprocess_calls g.

(** The shape shared by the two delete functions and by the non-skipping
    path of the two set functions: log, run one command, log, return
    [True]; on an exception log and return [False]. *)
Definition logged_call (repo pre post : string) (failure : PyException -> string)
    (command : list string) : M bool :=
  try_except
    (add_log (Some repo) pre;;
     _ <- run_gh_command command (Some repo);;
     add_log (Some repo) post;;
     ret true)
    (fun e => add_log (Some repo) (failure e);; ret false).

(** A command whose verb is [delete]. *)
Definition is_delete_command (command : list string) : bool :=
  match command with
  | _ :: _ :: verb :: _ => bool_decide (verb = "delete")
  | _ => false
  end.

(** The delete commands among those handed to the tool between two states. *)
Definition deletions_between (g g' : Globals) : list (list string) :=
  List.filter is_delete_command (drop (length (subprocess_calls g)) (subprocess_calls g')).

(** Some commands were handed to the tool, none of them a delete. *)
Definition no_deletion (g g' : Globals) : Prop :=
  exists cs, subprocess_calls g' = subprocess_calls g ++ cs /\
             List.filter is_delete_command cs = [].

(** The parts of [process_single_repository], named. *)
Definition delete_phase (repo : string) (found nothing : string)
    (delete_one : string -> M bool) (delete_list : list string)
    (to_delete : gset string) (overall_success : bool) : M bool :=
  match delete_list with
  | [] => ret overall_success
  | _ =>
      if bool_decide (to_delete ≠ ∅)
      then
        add_log (Some repo) (("[" +:+ repo +:+ "]") +:+ found +:+
                             repr_list (set_order to_delete));;
        for_each delete_one (set_order to_delete) overall_success
      else
        add_log (Some repo) (("[" +:+ repo +:+ "]") +:+ nothing);;
        ret overall_success
  end.

Definition set_phase (repo : string) (header : string)
    (set_one : string * string -> M bool) (to_set : list (string * string))
    (overall_success : bool) : M bool :=
  match to_set with
  | [] => ret overall_success
  | _ =>
      add_log (Some repo) (("[" +:+ repo +:+ "]") +:+ header +:+ repr_list (to_set.*1));;
      for_each set_one to_set overall_success
  end.

Definition closing_log (repo : string) (overall_success : bool) : M unit :=
  if overall_success
  then add_log (Some repo) (("[" +:+ repo +:+ "]") +:+
                            " ✅ Successfully processed repository '" +:+ repo +:+ "'.")
  else add_log (Some repo) (("[" +:+ repo +:+ "]") +:+
                            " ❌ Some operations failed for repository '" +:+ repo +:+ "'.").

Definition set_phases (repo : string) (secrets_to_set_dict variables_to_set_dict :
    list (string * string)) (force : bool) (overall_success : bool) : M bool :=
  existing <- _log_and_fetch_existing_repo_items repo;;
  let '(existing_secrets, existing_variables) := existing in
  overall_success <-
    set_phase repo "    Secrets to set/update: "
      (fun kv => set_github_secret repo (fst kv) (snd kv) force existing_secrets)
      secrets_to_set_dict overall_success;;
  overall_success <-
    set_phase repo "    Variables to set/update: "
      (fun kv => set_github_variable repo (fst kv) (snd kv) force existing_variables)
      variables_to_set_dict overall_success;;
  closing_log repo overall_success;;
  ret overall_success.

Definition delete_secrets_phase (repo : string) (delete_secrets_list : list string)
    (existing_secrets : gset pykey) : bool -> M bool :=
  delete_phase repo "    Secrets to delete (existing and requested): "
    "    No secrets found to delete from the repository (intersection with requested list is empty)."
    (delete_github_secret repo) delete_secrets_list
    (to_actually_delete delete_secrets_list existing_secrets).

Definition delete_variables_phase (repo : string) (delete_variables_list : list string)
    (existing_variables : gset pykey) : bool -> M bool :=
  delete_phase repo "    Variables to delete (existing and requested): "
    "    No variables found to delete from the repository (intersection with requested list is empty)."
    (delete_github_variable repo) delete_variables_list
    (to_actually_delete delete_variables_list existing_variables).

Definition fatal_handler (repo : string) (e : PyException) : M bool :=
  add_log (Some repo) (("[" +:+ repo +:+ "]") +:+
    " ❌ A fatal error occurred while processing repository '" +:+ repo +:+ "': " +:+
    exception_text e);;
  add_log (Some repo) (("[" +:+ repo +:+ "]") +:+ " 💀 Repository '" +:+ repo +:+
                       "' operation failed.");;
  ret false.

(** The order of iteration lists every member of the set once. *)
Definition set_order_spec : Prop := forall X : gset string, set_order X ≡ₚ elements X.

(** The delete commands for the members of both intersections. *)
Definition expected_deletions (repo : string) (Ds Dv : list string)
    (Es Ev : gset pykey) : list (list string) :=
  (delete_secret_command repo <$> set_order (to_actually_delete Ds Es)) ++
  (delete_variable_command repo <$> set_order (to_actually_delete Dv Ev)).







(** The computation never ends in [SystemExit]. *)
Definition no_exit {A} (m : M A) : Prop := forall g c, fst (m g) <> SystemExit c.

(** The executable is found whenever a command is run. *)
Definition gh_found : Prop :=
  forall command shell w t,
    fst (subprocess_run command shell w) <> inl (FileNotFoundError t).


(** The tracker's map is the same in both states. *)
Definition same_tracker (g g' : Globals) : Prop := _repo_statuses g' = _repo_statuses g.

(** A processor that leaves the tracker to the scheduler. *)
Definition keeps_tracker (f : Processor) : Prop :=
  forall repo Ds Dv S V force, respects same_tracker (f repo Ds Dv S V force).

(** No entry of the tracker changed, except perhaps those of [names]. *)
Definition unchanged_outside (names : list string) (g g' : Globals) : Prop :=
  forall x, x ∉ names -> _repo_statuses g' !! x = _repo_statuses g !! x.

(** No repository is marked in progress. *)
Definition none_in_progress (g : Globals) : Prop :=
  forall x rs, _repo_statuses g !! x = Some rs -> status rs <> InProgress.

(** A step that marks no repository in progress. *)
Definition keeps_none_in_progress (g g' : Globals) : Prop :=
  none_in_progress g -> none_in_progress g'.

(** The globals when the sequential loop is entered. *)
Definition sequential_entry (config : GitHubOperationConfig) (g : Globals) : Globals :=
  add_log_entry None (NL +:+
    "--- Starting GitHub Repository Variable/Secret Automation (Sequential Processing) ---")
    true false (snd (process_repositories_setup config g)).

(** The globals when [process_repositories] returns after the loop. *)
Definition sequential_exit (g0 g1 : Globals) : Globals :=
  add_log_entry None (NL +:+ "✨ Overall operation completed! Total time taken: " +:+
                      format_elapsed (time_time (world g0)) (time_time (world g1)) +:+
                      " seconds ✨") true false
    (add_log_entry None (NL +:+ "--- All repository processing completed ---") true false g1).

(** The turns of the loop for the repositories [done], the first of them at
    index [i], each ran to its end, taking the globals from [g] to [g']. *)
Inductive completed_turns (config : GitHubOperationConfig) (f : Processor)
    : nat -> list string -> Globals -> Globals -> Prop :=
| turns_none i g : completed_turns config f i [] g g
| turns_next i repo done g g1 g2 :
    sequential_iteration config f i repo g = (Returned Continue, g1) ->
    completed_turns config f (Datatypes.S i) done g1 g2 ->
    completed_turns config f i (repo :: done) g g2.

(** The statements of one turn of the sequential loop, named. *)
Definition turn_body (config : GitHubOperationConfig) (f : Processor) (repo : string)
    : M unit :=
  try_except
    (success <- f repo (delete_secrets config) (delete_variables config)
                  (secrets_to_set config) (variables_to_set config) (force config);;
     exec (set_repository_status repo success))
    (fun exc =>
       add_log (Some repo) ("❌ Error processing repository '" +:+ repo +:+ "': " +:+
                            exception_text exc);;
       exec (set_repository_status repo false)).

Definition turn_finally (repo : string) : M unit :=
  _ <- read (get_repository_overall_status repo);;
  flush_group repo;;
  exec (clear_group_log_entries repo).

Definition turn_pause (config : GitHubOperationConfig) (i : nat) : M unit :=
  if (Z.of_nat i <? Z.of_nat (length (repositories config)) - 1)%Z
  then
    stopped <- stop_event_is_set;;
    if negb stopped
    then
      add_log None "[INFO] To abort, type 'q' and press Enter.";;
      sleep (sleep_after_repo config)
    else ret tt
  else ret tt.

(** The tracker holds the repository, Completed or Failed. *)
Definition finished (repo : string) (g : Globals) : Prop :=
  exists l, lifecycle_of repo g = Some l /\ terminal l.

(** The globals in which a turn of the sequential loop calls the processor,
    [g1] being the globals after the dispatch check. *)
Definition turn_start (repo : string) (g1 : Globals) : Globals :=
  add_log_entry (Some repo) (NL +:+
    "[INFO] To abort, type 'q' and press Enter: Currently processing " +:+ repo +:+ "...")
    true false g1.

(** The listener never sets the event: the user never asks to abort. *)
Definition listener_silent : Prop := forall w, fst (listener_has_set w) = false.

(** A step that does not set the event. *)
Definition keeps_event_clear (g g' : Globals) : Prop :=
  stop_event g = false -> stop_event g' = false.

(** A processor that does not set the event. *)
Definition leaves_event (f : Processor) : Prop :=
  forall repo Ds Dv S V force, respects keeps_event_clear (f repo Ds Dv S V force).

(** A processor that never ends the interpreter. *)
Definition never_exits (f : Processor) : Prop :=
  forall repo Ds Dv S V force, no_exit (f repo Ds Dv S V force).

(** The tracker holds the same names in both states. *)
Definition same_names (g g' : Globals) : Prop :=
  dom (_repo_statuses g') = dom (_repo_statuses g).

(** The two [list] commands of one fetch of the existing names. *)
Definition list_commands (repo : string) : list (list string) :=
  [["gh"; "secret"; "list"; "--repo"; repo; "--json"; "name"];
   ["gh"; "variable"; "list"; "--repo"; repo; "--json"; "name"]].

(** The items of a dict that the gate of the set functions lets through:
    all of them with [force], else those whose name is not among the
    existing ones. *)
Definition let_through (force : bool) (existing : gset pykey)
    (to_set : list (string * string)) : list (string * string) :=
  List.filter (fun kv => force || negb (bool_decide (KStr (fst kv) ∈ existing))) to_set.

(** The set commands for the items let through, secrets first, each dict
    in its own order. *)
Definition expected_sets (repo : string) (S V : list (string * string)) (force : bool)
    (Es Ev : gset pykey) : list (list string) :=
  ((fun kv => set_secret_command repo (fst kv) (snd kv)) <$> let_through force Es S) ++
  ((fun kv => set_variable_command repo (fst kv) (snd kv)) <$> let_through force Ev V).







(** A command whose verb is [set]. *)
Definition is_set_command (command : list string) : bool :=
  match command with
  | _ :: _ :: verb :: _ => bool_decide (verb = "set")
  | _ => false
  end.



(** * Properties *)

(** ** The status tracker *)

Lemma lookup_list_to_map_const {V} (v : V) (l : list string) (k : string) :
  (list_to_map ((fun x => (x, v)) <$> l) : gmap string V) !! k
  = if bool_decide (k ∈ l) then Some v else None.
Proof.
  induction l as [|x l IH].
  - simpl. rewrite lookup_empty. reflexivity.
  - rewrite fmap_cons, list_to_map_cons.
    destruct (decide (x = k)) as [->|Hne].
    + rewrite lookup_insert_eq, bool_decide_eq_true_2 by (apply elem_of_cons; left; reflexivity).
      reflexivity.
    + rewrite lookup_insert_ne, IH by assumption.
      apply (f_equal (fun b : bool => if b then Some v else None)).
      apply bool_decide_ext. rewrite elem_of_cons.
      split; [intros H; right; exact H | intros [E|H]; [|exact H]].
      exfalso. apply Hne. symmetry. exact E.
Qed.

Lemma statuses_set_repository_status (g : Globals) repo b :
  _repo_statuses (set_repository_status repo b g)
  = match _repo_statuses g !! repo with
    | Some _ => <[repo := mkRepoStatus b (if b then Completed else Failed)]> (_repo_statuses g)
    | None => _repo_statuses g
    end.
Proof. unfold set_repository_status. destruct (_repo_statuses g !! repo); reflexivity. Qed.

Lemma lookup_set_repository_status_ne (g : Globals) repo r b :
  repo <> r ->
  _repo_statuses (set_repository_status repo b g) !! r = _repo_statuses g !! r.
Proof.
  intros Hne. rewrite statuses_set_repository_status.
  destruct (_repo_statuses g !! repo); [apply lookup_insert_ne; exact Hne | reflexivity].
Qed.

Lemma set_repository_in_progress_not_pending (g : Globals) repo :
  lifecycle_of repo g <> Some Pending -> set_repository_in_progress repo g = g.
Proof.
  unfold lifecycle_of, set_repository_in_progress.
  destruct (_repo_statuses g !! repo) as [rs|]; simpl; [|reflexivity].
  intros H. destruct (decide (status rs = Pending)) as [E|]; [|reflexivity].
  rewrite E in H. congruence.
Qed.

Lemma lookup_set_repository_in_progress_ne (g : Globals) repo r :
  repo <> r ->
  _repo_statuses (set_repository_in_progress repo g) !! r = _repo_statuses g !! r.
Proof.
  intros Hne. unfold set_repository_in_progress.
  destruct (_repo_statuses g !! repo) as [rs|]; [|reflexivity].
  destruct (decide (status rs = Pending)); [|reflexivity].
  apply lookup_insert_ne. exact Hne.
Qed.

(** C1, as amended: once [r] is Completed or Failed it stays Completed or
    Failed. [set_repository_in_progress], on any repository, leaves the
    lifecycle of [r] as it is, and so does [set_repository_status] on another
    repository; [set_repository_status r b] overwrites the lifecycle of [r]
    with Completed when [b] is true and Failed when it is false, whatever
    terminal value it held. *)
Theorem terminal_lifecycle_stays_terminal (g : Globals) (r : string) (l : Lifecycle) :
  lifecycle_of r g = Some l ->
  terminal l ->
  (forall r', lifecycle_of r (set_repository_in_progress r' g) = Some l) /\
  (forall r' b, r' <> r -> lifecycle_of r (set_repository_status r' b g) = Some l) /\
  (forall b, lifecycle_of r (set_repository_status r b g)
             = Some (if b then Completed else Failed)) /\
  (forall r' b l', lifecycle_of r (set_repository_status r' b g) = Some l' -> terminal l').
Proof.
  intros Hl Hterm.
  assert (Hsame : forall b, lifecycle_of r (set_repository_status r b g)
                            = Some (if b then Completed else Failed)).
  { intros b. unfold lifecycle_of in *. rewrite statuses_set_repository_status.
    destruct (_repo_statuses g !! r); [|discriminate].
    rewrite lookup_insert_eq. reflexivity. }
  assert (Hother : forall r' b, r' <> r ->
                     lifecycle_of r (set_repository_status r' b g) = Some l).
  { intros r' b Hne. unfold lifecycle_of in *.
    rewrite lookup_set_repository_status_ne by exact Hne. exact Hl. }
  repeat split.
  - intros r'. destruct (decide (r' = r)) as [->|Hne].
    + rewrite set_repository_in_progress_not_pending; [exact Hl|].
      rewrite Hl. destruct Hterm; subst l; discriminate.
    + unfold lifecycle_of in *.
      rewrite lookup_set_repository_in_progress_ne by exact Hne. exact Hl.
  - exact Hother.
  - exact Hsame.
  - intros r' b l' H. destruct (decide (r' = r)) as [->|Hne].
    + rewrite Hsame in H. injection H as <-. destruct b; [left|right]; reflexivity.
    + rewrite Hother in H by exact Hne. injection H as <-. exact Hterm.
Qed.

(** C5: on a tracked repository, [set_repository_status r true] followed by
    [set_repository_status r false] leaves the record [{success: False,
    status: failed}]; and whatever two results are written in turn, the
    record is the one the second writes. *)
Theorem set_repository_status_last_write_wins (g : Globals) (r : string) :
  is_Some (_repo_statuses g !! r) ->
  _repo_statuses (set_repository_status r false (set_repository_status r true g)) !! r
  = Some (mkRepoStatus false Failed) /\
  (forall b1 b2,
     _repo_statuses (set_repository_status r b2 (set_repository_status r b1 g)) !! r
     = Some (mkRepoStatus b2 (if b2 then Completed else Failed))).
Proof.
  intros [rs Hrs].
  assert (H : forall b1 b2,
     _repo_statuses (set_repository_status r b2 (set_repository_status r b1 g)) !! r
     = Some (mkRepoStatus b2 (if b2 then Completed else Failed))).
  { intros b1 b2. rewrite !statuses_set_repository_status, Hrs.
    rewrite lookup_insert_eq, lookup_insert_eq. reflexivity. }
  split; [apply (H true false) | exact H].
Qed.

(** C6: [set_repository_in_progress] moves a Pending repository to
    InProgress, keeping its [success] field and every other entry; in every
    other case (another lifecycle, or a name the tracker does not hold) it
    changes nothing at all; and a second call in a row changes nothing, so
    after two calls a repository that was Pending is InProgress. *)
Theorem set_repository_in_progress_pending_only (g : Globals) (r : string) :
  (forall rs, _repo_statuses g !! r = Some rs -> status rs = Pending ->
     set_repository_in_progress r g
     = with_repo_statuses (<[r := mkRepoStatus (success rs) InProgress]> (_repo_statuses g)) g) /\
  (lifecycle_of r g = Some Pending ->
     lifecycle_of r (set_repository_in_progress r g) = Some InProgress) /\
  (lifecycle_of r g <> Some Pending -> set_repository_in_progress r g = g) /\
  set_repository_in_progress r (set_repository_in_progress r g)
  = set_repository_in_progress r g /\
  (lifecycle_of r g = Some Pending ->
     lifecycle_of r (set_repository_in_progress r (set_repository_in_progress r g))
     = Some InProgress).
Proof.
  assert (H1 : forall rs, _repo_statuses g !! r = Some rs -> status rs = Pending ->
     set_repository_in_progress r g
     = with_repo_statuses (<[r := mkRepoStatus (success rs) InProgress]> (_repo_statuses g)) g).
  { intros rs Hrs Hp. unfold set_repository_in_progress. rewrite Hrs.
    destruct (decide (status rs = Pending)); [reflexivity | contradiction]. }
  assert (H2 : lifecycle_of r g = Some Pending ->
     lifecycle_of r (set_repository_in_progress r g) = Some InProgress).
  { unfold lifecycle_of. intros Hp.
    destruct (_repo_statuses g !! r) as [rs|] eqn:Hrs; [|discriminate].
    injection Hp as Hp. rewrite (H1 rs eq_refl Hp). simpl.
    rewrite lookup_insert_eq. reflexivity. }
  assert (H4 : set_repository_in_progress r (set_repository_in_progress r g)
               = set_repository_in_progress r g).
  { destruct (decide (lifecycle_of r g = Some Pending)) as [Hp|Hp].
    - apply set_repository_in_progress_not_pending. rewrite (H2 Hp). discriminate.
    - rewrite (set_repository_in_progress_not_pending g r Hp).
      apply set_repository_in_progress_not_pending. exact Hp. }
  split; [exact H1|]. split; [exact H2|].
  split; [apply set_repository_in_progress_not_pending|].
  split; [exact H4|].
  intros Hp. rewrite H4. apply H2. exact Hp.
Qed.

(** ** The log collector *)

(** C9: on a collector freshly initialized with groups that include two
    distinct names [A] and [B], [add_log_entry(A, m1)] and
    [add_log_entry(B, m2)] give the same globals in either order; then the
    entries of [A] are [[m1]], the entries of [B] are [[m2]], every other
    group is still empty and nothing was written to the console. *)
Theorem log_isolation (g : Globals) (groups : list string) (A B m1 m2 : string) :
  A <> B -> A ∈ groups -> B ∈ groups ->
  let g0 := initialize_log_collector groups g in
  let gAB := add_log_entry (Some B) m2 true false (add_log_entry (Some A) m1 true false g0) in
  let gBA := add_log_entry (Some A) m1 true false (add_log_entry (Some B) m2 true false g0) in
  gAB = gBA /\
  get_group_log_entries A gAB = [m1] /\
  get_group_log_entries B gAB = [m2] /\
  (forall C, C <> A -> C <> B -> get_group_log_entries C gAB = []) /\
  stdout gAB = stdout g.
Proof.
  intros Hne HA HB g0 gAB gBA.
  assert (Hl : forall C, _all_group_logs g0 !! C
                         = if bool_decide (C ∈ groups) then Some (mkLogGroup []) else None).
  { intros C. unfold g0, initialize_log_collector. simpl.
    apply lookup_list_to_map_const. }
  assert (Hout : stdout g0 = stdout g) by reflexivity.
  assert (HlA : _all_group_logs g0 !! A = Some (mkLogGroup [])).
  { rewrite Hl, bool_decide_eq_true_2 by exact HA. reflexivity. }
  assert (HlB : _all_group_logs g0 !! B = Some (mkLogGroup [])).
  { rewrite Hl, bool_decide_eq_true_2 by exact HB. reflexivity. }
  clearbody g0.
  assert (EAB : gAB = with_group_logs
            (<[B := mkLogGroup [m2]]> (<[A := mkLogGroup [m1]]> (_all_group_logs g0))) g0).
  { unfold gAB, add_log_entry. rewrite HlA. cbn [_all_group_logs with_group_logs].
    rewrite lookup_insert_ne, HlB by exact Hne. reflexivity. }
  assert (EBA : gBA = with_group_logs
            (<[A := mkLogGroup [m1]]> (<[B := mkLogGroup [m2]]> (_all_group_logs g0))) g0).
  { unfold gBA, add_log_entry. rewrite HlB. cbn [_all_group_logs with_group_logs].
    rewrite lookup_insert_ne, HlA by (intros E; apply Hne; symmetry; exact E). reflexivity. }
  split.
  { rewrite EAB, EBA. f_equal. apply insert_insert_ne. congruence. }
  rewrite EAB. unfold get_group_log_entries. cbn [_all_group_logs with_group_logs stdout].
  split. { rewrite lookup_insert_ne, lookup_insert_eq by congruence. reflexivity. }
  split. { rewrite lookup_insert_eq. reflexivity. }
  split; [|exact Hout].
  intros C HCA HCB. rewrite !lookup_insert_ne by congruence.
  rewrite Hl. destruct (bool_decide (C ∈ groups)); reflexivity.
Qed.

(** ** What logging and running a command leave alone *)

Lemma add_log_entry_frame (grp : option string) (m : string) (st pr : bool) (g : Globals) :
  exists L O,
    add_log_entry grp m st pr g
    = mkGlobals (_repo_statuses g) (_initial_total_repos_count g) L O
                (stop_event g) (subprocess_calls g) (world g).
Proof.
  unfold add_log_entry.
  destruct st, grp as [name|]; try destruct (_all_group_logs g !! name);
    try destruct pr; eexists _, _; reflexivity.
Qed.

Lemma calls_add_log_entry grp m st pr (g : Globals) :
  subprocess_calls (add_log_entry grp m st pr g) = subprocess_calls g.
Proof. destruct (add_log_entry_frame grp m st pr g) as (L & O & ->). reflexivity. Qed.

Lemma statuses_add_log_entry grp m st pr (g : Globals) :
  _repo_statuses (add_log_entry grp m st pr g) = _repo_statuses g.
Proof. destruct (add_log_entry_frame grp m st pr g) as (L & O & ->). reflexivity. Qed.

Lemma total_add_log_entry grp m st pr (g : Globals) :
  _initial_total_repos_count (add_log_entry grp m st pr g) = _initial_total_repos_count g.
Proof. destruct (add_log_entry_frame grp m st pr g) as (L & O & ->). reflexivity. Qed.

Lemma stop_event_add_log_entry grp m st pr (g : Globals) :
  stop_event (add_log_entry grp m st pr g) = stop_event g.
Proof. destruct (add_log_entry_frame grp m st pr g) as (L & O & ->). reflexivity. Qed.

Lemma world_add_log_entry grp m st pr (g : Globals) :
  world (add_log_entry grp m st pr g) = world g.
Proof. destruct (add_log_entry_frame grp m st pr g) as (L & O & ->). reflexivity. Qed.

Section Respects.

Context (R : Globals -> Globals -> Prop) `{!Reflexive R} `{!Transitive R}.

Lemma respects_ret {A} (a : A) : respects R (ret a).
Proof. intros g. reflexivity. Qed.

Lemma respects_raise {A} e : respects R (raise (A := A) e).
Proof. intros g. reflexivity. Qed.

Lemma respects_sys_exit {A} c : respects R (sys_exit (A := A) c).
Proof. intros g. reflexivity. Qed.

Lemma respects_read {A} (f : Globals -> A) : respects R (read f).
Proof. intros g. reflexivity. Qed.

Lemma respects_exec f : (forall g, R g (f g)) -> respects R (exec f).
Proof. intros H g. apply H. Qed.

Lemma respects_bind {A B} (m : M A) (k : A -> M B) :
  respects R m -> (forall a, respects R (k a)) -> respects R (bind m k).
Proof.
  intros Hm Hk g. unfold bind. specialize (Hm g).
  destruct (m g) as [[a|e|c] g1]; simpl in *; [|exact Hm|exact Hm].
  etransitivity; [exact Hm | apply Hk].
Qed.

Lemma respects_try_except {A} (m : M A) (h : PyException -> M A) :
  respects R m -> (forall e, respects R (h e)) -> respects R (try_except m h).
Proof.
  intros Hm Hh g. unfold try_except. specialize (Hm g).
  destruct (m g) as [[a|e|c] g1]; simpl in *; [exact Hm| |exact Hm].
  etransitivity; [exact Hm | apply Hh].
Qed.

Lemma respects_try_finally {A} (m : M A) (fin : M unit) :
  respects R m -> respects R fin -> respects R (try_finally m fin).
Proof.
  intros Hm Hf g. unfold try_finally. specialize (Hm g).
  destruct (m g) as [r g1]. specialize (Hf g1). simpl in *.
  destruct (fin g1) as [[u|e|c] g2]; simpl in *; etransitivity; eassumption.
Qed.

Lemma respects_for_each {A} (f : A -> M bool) items b :
  (forall x, respects R (f x)) -> respects R (for_each f items b).
Proof.
  intros Hf. revert b. induction items as [|x rest IH]; intros b; simpl.
  - apply respects_ret.
  - apply respects_bind; [apply Hf | intros ok; apply IH].
Qed.

Hypothesis R_log : forall grp m st pr g, R g (add_log_entry grp m st pr g).

Lemma respects_add_log grp m : respects R (add_log grp m).
Proof. apply respects_exec. intros g. apply R_log. Qed.

Lemma respects_execute_subprocess_command command shell :
  respects R (run_subprocess command shell) ->
  respects R (execute_subprocess_command command shell).
Proof.
  intros Hrun. unfold execute_subprocess_command.
  apply respects_try_except; [exact Hrun|].
  intros []; repeat first
    [ apply respects_bind; [|intros ?] | apply respects_add_log
    | apply respects_raise | apply respects_sys_exit ].
Qed.

Lemma respects_run_gh_command command repo_name :
  respects R (run_subprocess command false) ->
  respects R (run_gh_command command repo_name).
Proof.
  intros Hrun. unfold run_gh_command.
  apply respects_try_except.
  - apply respects_bind; [apply respects_execute_subprocess_command; exact Hrun|].
    intros [out err]. apply respects_bind; [|intros ?; apply respects_ret].
    destruct (truthy err); [apply respects_add_log | apply respects_ret].
  - intros [t err|t|t|t|t];
      repeat match goal with
             | |- respects _ (if ?c then _ else _) => destruct c
             end;
      repeat first
        [ apply respects_bind; [|intros ?] | apply respects_add_log
        | apply respects_raise | apply respects_ret ].
Qed.

Lemma respects_parse_json_string s ctx repo_name :
  respects R (parse_json_string s ctx repo_name).
Proof.
  unfold parse_json_string.
  destruct (json_loads s);
    repeat first
      [ apply respects_bind; [|intros ?] | apply respects_add_log | apply respects_ret ].
Qed.

Lemma respects_delete_github_secret repo n :
  respects R (run_subprocess (delete_secret_command repo n) false) ->
  respects R (delete_github_secret repo n).
Proof.
  intros Hrun. unfold delete_github_secret. apply respects_try_except.
  - repeat first
      [ apply respects_run_gh_command; exact Hrun
      | apply respects_bind; [|intros ?] | apply respects_add_log | apply respects_ret ].
  - intros e. apply respects_bind; [apply respects_add_log | intros ?; apply respects_ret].
Qed.

Lemma respects_delete_github_variable repo n :
  respects R (run_subprocess (delete_variable_command repo n) false) ->
  respects R (delete_github_variable repo n).
Proof.
  intros Hrun. unfold delete_github_variable. apply respects_try_except.
  - repeat first
      [ apply respects_run_gh_command; exact Hrun
      | apply respects_bind; [|intros ?] | apply respects_add_log | apply respects_ret ].
  - intros e. apply respects_bind; [apply respects_add_log | intros ?; apply respects_ret].
Qed.

Lemma respects_set_github_secret repo n v force E :
  respects R (run_subprocess (set_secret_command repo n v) false) ->
  respects R (set_github_secret repo n v force E).
Proof.
  intros Hrun. unfold set_github_secret. apply respects_try_except.
  - destruct (negb force && bool_decide (KStr n ∈ E));
      repeat first
        [ apply respects_run_gh_command; exact Hrun
        | apply respects_bind; [|intros ?] | apply respects_add_log | apply respects_ret ].
  - intros e. apply respects_bind; [apply respects_add_log | intros ?; apply respects_ret].
Qed.

Lemma respects_set_github_variable repo n v force E :
  respects R (run_subprocess (set_variable_command repo n v) false) ->
  respects R (set_github_variable repo n v force E).
Proof.
  intros Hrun. unfold set_github_variable. apply respects_try_except.
  - destruct (negb force && bool_decide (KStr n ∈ E));
      repeat first
        [ apply respects_run_gh_command; exact Hrun
        | apply respects_bind; [|intros ?] | apply respects_add_log | apply respects_ret ].
  - intros e. apply respects_bind; [apply respects_add_log | intros ?; apply respects_ret].
Qed.

Lemma respects_get_existing_items repo item_type :
  (forall kind, respects R
     (run_subprocess ["gh"; kind; "list"; "--repo"; repo; "--json"; "name"] false)) ->
  respects R (_get_existing_items_from_repo repo item_type).
Proof.
  intros Hrun. unfold _get_existing_items_from_repo.
  assert (Hfetch : forall kind label,
    respects R
      (try_except
         (stdout_str <- run_gh_command ["gh"; kind; "list"; "--repo"; repo; "--json"; "name"]
                          (Some repo);;
          if negb (truthy stdout_str)
          then
            add_log (Some repo) ("[" +:+ repo +:+ "] Warning: " +:+ label +:+
              " list for repository '" +:+ repo +:+ "' is empty or could not be retrieved.");;
            ret ∅
          else
            data <- parse_json_string stdout_str
                      (label +:+ " list for repository '" +:+ repo +:+ "'") None;;
            match data with
            | JNull =>
                add_log (Some repo) ("[" +:+ repo +:+ "] Warning: Failed to parse " +:+
                  label +:+ " JSON for repository '" +:+ repo +:+ "'.");;
                ret ∅
            | _ =>
                match existing_names data with
                | inl e => raise e
                | inr names => ret names
                end
            end)
         (fun e =>
            add_log (Some repo) ("[" +:+ repo +:+ "] Warning: Failed to retrieve " +:+
              label +:+ " list for repository '" +:+ repo +:+ "': " +:+
              exception_text e);;
            ret ∅))).
  { intros kind label. apply respects_try_except.
    - apply respects_bind; [apply respects_run_gh_command; apply Hrun|].
      intros out. destruct (negb (truthy out)).
      + apply respects_bind; [apply respects_add_log | intros ?; apply respects_ret].
      + apply respects_bind; [apply respects_parse_json_string|].
        intros data.
        destruct data; try destruct (existing_names _);
          repeat first
            [ apply respects_bind; [|intros ?] | apply respects_add_log
            | apply respects_ret | apply respects_raise ].
    - intros e. apply respects_bind; [apply respects_add_log | intros ?; apply respects_ret]. }
  destruct (bool_decide (item_type = "secret")); [apply Hfetch|].
  destruct (bool_decide (item_type = "variable")); [apply Hfetch|].
  apply respects_bind; [apply respects_add_log | intros ?; apply respects_ret].
Qed.

Lemma respects_log_existing repo what icon E :
  respects R (log_existing repo what icon E).
Proof.
  unfold log_existing. destruct (bool_decide (E ≠ ∅)); [|apply respects_add_log].
  destruct (all_str E); [apply respects_add_log | apply respects_raise].
Qed.

Lemma respects_log_and_fetch repo :
  (forall kind, respects R
     (run_subprocess ["gh"; kind; "list"; "--repo"; repo; "--json"; "name"] false)) ->
  respects R (_log_and_fetch_existing_repo_items repo).
Proof.
  intros Hrun. unfold _log_and_fetch_existing_repo_items,
    list_repository_secrets, list_repository_variables.
  repeat first
    [ apply respects_get_existing_items; exact Hrun
    | apply respects_log_existing
    | apply respects_bind; [|intros ?] | apply respects_ret ].
Qed.

End Respects.

(** ** The commands handed to the [gh] tool *)

Lemma run_subprocess_calls command shell (g : Globals) :
  subprocess_calls (snd (run_subprocess command shell g)) = subprocess_calls g ++ [command].
Proof.
  unfold run_subprocess.
  destruct (subprocess_run command shell (world (record_call command g))) as [[e|out] w];
    reflexivity.
Qed.

#[local] Instance same_calls_refl : Reflexive same_calls.
Proof. intros g. reflexivity. Qed.

#[local] Instance same_calls_trans : Transitive same_calls.
Proof. intros g1 g2 g3 H12 H23. unfold same_calls in *. congruence. Qed.

Lemma same_calls_log grp m st pr (g : Globals) : same_calls g (add_log_entry grp m st pr g).
Proof. apply calls_add_log_entry. Qed.

(** The routine steps of a proof that a computation built from logging,
    returning and raising keeps a relation that logging keeps. *)
Ltac respects_steps Hlog :=
  repeat first
    [ match goal with
      | |- Reflexive _ => exact _
      | |- Transitive _ => exact _
      | |- respects _ (if ?c then _ else _) => destruct c
      | |- respects _ (match ?c with _ => _ end) => destruct c
      end
    | apply respects_bind; [..|intros ?]
    | apply respects_add_log; apply Hlog
    | apply respects_raise | apply respects_sys_exit
    | apply respects_ret | apply respects_read ].

Lemma execute_subprocess_command_calls command shell (g : Globals) :
  subprocess_calls (snd (execute_subprocess_command command shell g))
  = subprocess_calls g ++ [command].
Proof.
  unfold execute_subprocess_command, try_except.
  pose proof (run_subprocess_calls command shell g) as Hc.
  destruct (run_subprocess command shell g) as [[out|e|c] g1]; cbn [snd] in *;
    [exact Hc| |exact Hc].
  rewrite <- Hc.
  match goal with |- subprocess_calls (snd (?h g1)) = _ =>
    enough (respects same_calls h) as Hh by apply Hh end.
  destruct e; respects_steps same_calls_log.
Qed.

Lemma run_gh_command_calls command repo_name (g : Globals) :
  subprocess_calls (snd (run_gh_command command repo_name g))
  = subprocess_calls g ++ [command].
Proof.
  unfold run_gh_command, try_except, bind at 1.
  pose proof (execute_subprocess_command_calls command false g) as Hc.
  destruct (execute_subprocess_command command false g) as [[[out err]|e|c] g1];
    cbn [snd] in *; [| |exact Hc]; rewrite <- Hc.
  - match goal with |- subprocess_calls (snd (match ?m g1 with _ => _ end)) = _ =>
      assert (respects same_calls m) as Hm by respects_steps same_calls_log end.
    specialize (Hm g1). unfold same_calls in Hm.
    match goal with |- context [match ?x with _ => _ end] =>
      destruct x as [[?|?|?] ?] end; cbn [snd] in *; try exact Hm.
    rewrite <- Hm.
    match goal with |- subprocess_calls (snd (?h ?g2)) = _ =>
      enough (respects same_calls h) as Hh by apply Hh end.
    match goal with |- respects _ (match ?e with _ => _ end) => destruct e end;
      respects_steps same_calls_log.
  - match goal with |- subprocess_calls (snd (?h g1)) = _ =>
      enough (respects same_calls h) as Hh by apply Hh end.
    destruct e; respects_steps same_calls_log.
Qed.

Lemma logged_call_calls repo pre post failure command (g : Globals) :
  subprocess_calls (snd (logged_call repo pre post failure command g))
  = subprocess_calls g ++ [command].
Proof.
  unfold logged_call, try_except, bind, add_log, exec, ret.
  match goal with |- context [run_gh_command ?c ?r ?g0] =>
    pose proof (run_gh_command_calls c r g0) as Hc;
    destruct (run_gh_command c r g0) as [[out|e|c'] g1]
  end; cbn [snd] in *; rewrite ?calls_add_log_entry in *; exact Hc.
Qed.

Lemma logged_call_not_raised repo pre post failure command (g : Globals) e :
  fst (logged_call repo pre post failure command g) <> Raised e.
Proof.
  unfold logged_call, try_except, bind, add_log, exec, ret.
  match goal with |- context [run_gh_command ?c ?r ?g0] =>
    destruct (run_gh_command c r g0) as [[out|e'|c'] g1]
  end; cbn [fst]; discriminate.
Qed.

Lemma delete_github_secret_calls repo n (g : Globals) :
  subprocess_calls (snd (delete_github_secret repo n g))
  = subprocess_calls g ++ [delete_secret_command repo n].
Proof. apply logged_call_calls. Qed.

Lemma delete_github_variable_calls repo n (g : Globals) :
  subprocess_calls (snd (delete_github_variable repo n g))
  = subprocess_calls g ++ [delete_variable_command repo n].
Proof. apply logged_call_calls. Qed.

Lemma set_github_secret_skips repo n v E (g : Globals) :
  KStr n ∈ E ->
  set_github_secret repo n v false E g
  = (Returned true,
     add_log_entry (Some repo)
       ("[" +:+ repo +:+ "] Warning: Secret '" +:+ n +:+
        "' already exists. Skipping (no update) as '--force' option is not enabled.")
       true false g).
Proof.
  intros Hin. unfold set_github_secret.
  rewrite (bool_decide_eq_true_2 _ Hin). reflexivity.
Qed.

Lemma set_github_variable_skips repo n v E (g : Globals) :
  KStr n ∈ E ->
  set_github_variable repo n v false E g
  = (Returned true,
     add_log_entry (Some repo)
       ("[" +:+ repo +:+ "] Warning: Variable '" +:+ n +:+
        "' already exists. Skipping (no update) as '--force' option is not enabled.")
       true false g).
Proof.
  intros Hin. unfold set_github_variable.
  rewrite (bool_decide_eq_true_2 _ Hin). reflexivity.
Qed.

Lemma set_github_secret_issues repo n v force E (g : Globals) :
  force = true \/ KStr n ∉ E ->
  subprocess_calls (snd (set_github_secret repo n v force E g))
  = subprocess_calls g ++ [set_secret_command repo n v].
Proof.
  intros H. unfold set_github_secret.
  assert (negb force && bool_decide (KStr n ∈ E) = false) as ->.
  { destruct H as [->|H]; [reflexivity|].
    rewrite (bool_decide_eq_false_2 _ H). apply andb_false_r. }
  apply logged_call_calls.
Qed.

Lemma set_github_variable_issues repo n v force E (g : Globals) :
  force = true \/ KStr n ∉ E ->
  subprocess_calls (snd (set_github_variable repo n v force E g))
  = subprocess_calls g ++ [set_variable_command repo n v].
Proof.
  intros H. unfold set_github_variable.
  assert (negb force && bool_decide (KStr n ∈ E) = false) as ->.
  { destruct H as [->|H]; [reflexivity|].
    rewrite (bool_decide_eq_false_2 _ H). apply andb_false_r. }
  apply logged_call_calls.
Qed.

(** C3: with [force] false and the name in the existing set,
    [set_github_secret] and [set_github_variable] return [True] without
    handing any command to the [gh] tool and without touching the
    environment, and do so identically whatever the value is; with [force]
    true, or the name absent from the existing set, each hands exactly one
    command to the tool, the [set] command for that name and value. *)
Theorem set_gating_law (repo name value : string) (force : bool)
    (existing : gset pykey) (g : Globals) :
  (force = false -> KStr name ∈ existing ->
     (fst (set_github_secret repo name value force existing g) = Returned true /\
      subprocess_calls (snd (set_github_secret repo name value force existing g))
      = subprocess_calls g /\
      world (snd (set_github_secret repo name value force existing g)) = world g /\
      forall value', set_github_secret repo name value' force existing g
                     = set_github_secret repo name value force existing g) /\
     (fst (set_github_variable repo name value force existing g) = Returned true /\
      subprocess_calls (snd (set_github_variable repo name value force existing g))
      = subprocess_calls g /\
      world (snd (set_github_variable repo name value force existing g)) = world g /\
      forall value', set_github_variable repo name value' force existing g
                     = set_github_variable repo name value force existing g)) /\
  (force = true \/ KStr name ∉ existing ->
     subprocess_calls (snd (set_github_secret repo name value force existing g))
     = subprocess_calls g ++ [set_secret_command repo name value] /\
     subprocess_calls (snd (set_github_variable repo name value force existing g))
     = subprocess_calls g ++ [set_variable_command repo name value]).
Proof.
  split.
  - intros -> Hin. split.
    + rewrite (set_github_secret_skips repo name value existing g Hin). cbn [fst snd].
      rewrite calls_add_log_entry, world_add_log_entry.
      repeat split. intros value'. apply set_github_secret_skips. exact Hin.
    + rewrite (set_github_variable_skips repo name value existing g Hin). cbn [fst snd].
      rewrite calls_add_log_entry, world_add_log_entry.
      repeat split. intros value'. apply set_github_variable_skips. exact Hin.
  - intros H. split.
    + apply set_github_secret_issues. exact H.
    + apply set_github_variable_issues. exact H.
Qed.

(** ** The delete phase *)

#[local] Instance no_deletion_refl : Reflexive no_deletion.
Proof. intros g. exists []. split; [symmetry; apply app_nil_r | reflexivity]. Qed.

#[local] Instance no_deletion_trans : Transitive no_deletion.
Proof.
  intros g1 g2 g3 (cs1 & E1 & F1) (cs2 & E2 & F2). exists (cs1 ++ cs2). split.
  - rewrite E2, E1, app_assoc. reflexivity.
  - rewrite List.filter_app, F1, F2. reflexivity.
Qed.

Lemma no_deletion_log grp m st pr (g : Globals) : no_deletion g (add_log_entry grp m st pr g).
Proof.
  exists []. split; [|reflexivity]. rewrite calls_add_log_entry, app_nil_r. reflexivity.
Qed.

Lemma no_deletion_run command shell :
  is_delete_command command = false ->
  respects no_deletion (run_subprocess command shell).
Proof.
  intros Hc g. exists [command]. split; [apply run_subprocess_calls|].
  simpl. rewrite Hc. reflexivity.
Qed.

Lemma same_calls_no_deletion (g g' : Globals) : same_calls g g' -> no_deletion g g'.
Proof. intros H. exists []. split; [|reflexivity]. rewrite H, app_nil_r. reflexivity. Qed.

Lemma deletions_between_app (g g' : Globals) cs :
  subprocess_calls g' = subprocess_calls g ++ cs ->
  deletions_between g g' = List.filter is_delete_command cs.
Proof.
  intros E. unfold deletions_between. rewrite E, drop_app_length. reflexivity.
Qed.

Lemma filter_delete_commands {A} (cmd : A -> list string) (l : list A) :
  (forall x, is_delete_command (cmd x) = true) ->
  List.filter is_delete_command (cmd <$> l) = cmd <$> l.
Proof.
  intros H. induction l as [|x l IH]; [reflexivity|].
  rewrite fmap_cons. simpl. rewrite H, IH. reflexivity.
Qed.

Lemma for_each_cons {A} (f : A -> M bool) x rest b (g : Globals) :
  for_each f (x :: rest) b g
  = match f x g with
    | (Returned ok, g1) => for_each f rest (if ok then b else false) g1
    | (Raised e, g1) => (Raised e, g1)
    | (SystemExit c, g1) => (SystemExit c, g1)
    end.
Proof. reflexivity. Qed.

Lemma for_each_calls {A} (f : A -> M bool) (cmd : A -> list string) :
  (forall x g, subprocess_calls (snd (f x g)) = subprocess_calls g ++ [cmd x]) ->
  (forall x g e, fst (f x g) <> Raised e) ->
  forall items b (g : Globals),
  exists attempted,
    subprocess_calls (snd (for_each f items b g))
    = subprocess_calls g ++ (cmd <$> attempted) /\
    attempted `prefix_of` items /\
    (forall e, fst (for_each f items b g) <> Raised e) /\
    ((forall c, fst (for_each f items b g) <> SystemExit c) -> attempted = items).
Proof.
  intros Hcalls Hnr items. induction items as [|x rest IH]; intros b g.
  - exists []. simpl. rewrite app_nil_r. repeat split; [reflexivity | discriminate].
  - rewrite for_each_cons.
    pose proof (Hcalls x g) as Hx. pose proof (Hnr x g) as Hn.
    destruct (f x g) as [[ok|e|c] g1]; cbn [fst snd] in *.
    + destruct (IH (if ok then b else false) g1) as (att & Ec & Hp & Hr & Hall).
      exists (x :: att). rewrite Ec, Hx, fmap_cons, <- app_assoc.
      repeat split; [apply prefix_cons; exact Hp | exact Hr |].
      intros Hne. rewrite (Hall Hne). reflexivity.
    + exfalso. apply (Hn e). reflexivity.
    + exists [x]. rewrite Hx. repeat split.
      * exists rest. reflexivity.
      * discriminate.
      * intros Hne. exfalso. apply (Hne c). reflexivity.
Qed.

Lemma process_single_repository_phases repo Ds Dv S V force :
  process_single_repository repo Ds Dv S V force
  = try_except
      (existing <- _log_and_fetch_existing_repo_items repo;;
       let '(existing_secrets, existing_variables) := existing in
       overall_success <- delete_secrets_phase repo Ds existing_secrets true;;
       overall_success <- delete_variables_phase repo Dv existing_variables overall_success;;
       set_phases repo S V force overall_success)
      (fatal_handler repo).
Proof. reflexivity. Qed.

Lemma respects_set_phase R `{!Reflexive R} `{!Transitive R} repo header set_one to_set b :
  (forall grp m st pr g, R g (add_log_entry grp m st pr g)) ->
  (forall kv, respects R (set_one kv)) ->
  respects R (set_phase repo header set_one to_set b).
Proof.
  intros Hlog Hone. unfold set_phase. destruct to_set; [apply respects_ret; exact _|].
  apply respects_bind; [exact _ | apply respects_add_log, Hlog |].
  intros _. apply respects_for_each; [exact _ | exact _ | exact Hone].
Qed.

Lemma respects_delete_phase R `{!Reflexive R} `{!Transitive R}
    repo found nothing delete_one delete_list to_delete b :
  (forall grp m st pr g, R g (add_log_entry grp m st pr g)) ->
  (forall n, respects R (delete_one n)) ->
  respects R (delete_phase repo found nothing delete_one delete_list to_delete b).
Proof.
  intros Hlog Hone. unfold delete_phase. destruct delete_list; [apply respects_ret; exact _|].
  destruct (bool_decide (to_delete ≠ ∅)).
  - apply respects_bind; [exact _ | apply respects_add_log, Hlog |].
    intros _. apply respects_for_each; [exact _ | exact _ | exact Hone].
  - apply respects_bind; [exact _ | apply respects_add_log, Hlog |].
    intros _. apply respects_ret; exact _.
Qed.

Lemma respects_set_phases R `{!Reflexive R} `{!Transitive R} repo S V force b :
  (forall grp m st pr g, R g (add_log_entry grp m st pr g)) ->
  (forall command, is_delete_command command = false ->
                   respects R (run_subprocess command false)) ->
  respects R (set_phases repo S V force b).
Proof.
  intros Hlog Hrun. unfold set_phases.
  apply respects_bind; [exact _ | |].
  { apply respects_log_and_fetch; [exact _ | exact _ | exact Hlog |].
    intros kind. apply Hrun. reflexivity. }
  intros [Es Ev].
  apply respects_bind; [exact _ | |].
  { apply respects_set_phase; [exact _ | exact _ | exact Hlog |].
    intros kv. apply respects_set_github_secret; [exact _ | exact _ | exact Hlog |].
    apply Hrun. reflexivity. }
  intros b3. apply respects_bind; [exact _ | |].
  { apply respects_set_phase; [exact _ | exact _ | exact Hlog |].
    intros kv. apply respects_set_github_variable; [exact _ | exact _ | exact Hlog |].
    apply Hrun. reflexivity. }
  intros b4. apply respects_bind; [exact _ | |intros _; apply respects_ret; exact _].
  unfold closing_log. destruct b4; apply respects_add_log, Hlog.
Qed.

Lemma respects_fatal_handler R `{!Reflexive R} `{!Transitive R} repo e :
  (forall grp m st pr g, R g (add_log_entry grp m st pr g)) ->
  respects R (fatal_handler repo e).
Proof.
  intros Hlog. unfold fatal_handler.
  repeat first [ apply respects_bind; [exact _| |intros ?]
               | apply respects_add_log, Hlog | apply respects_ret; exact _ ].
Qed.

Lemma respects_process_single_repository R `{!Reflexive R} `{!Transitive R}
    repo Ds Dv S V force :
  (forall grp m st pr g, R g (add_log_entry grp m st pr g)) ->
  (forall command, respects R (run_subprocess command false)) ->
  respects R (process_single_repository repo Ds Dv S V force).
Proof.
  intros Hlog Hrun. rewrite process_single_repository_phases.
  apply respects_try_except; [exact _ | | intros e; apply respects_fatal_handler; assumption].
  apply respects_bind; [exact _ | |].
  { apply respects_log_and_fetch; [exact _ | exact _ | exact Hlog |].
    intros kind. apply Hrun. }
  intros [Es Ev].
  apply respects_bind; [exact _ | |].
  { apply respects_delete_phase; [exact _ | exact _ | exact Hlog |].
    intros n. apply respects_delete_github_secret; [exact _ | exact _ | exact Hlog |].
    apply Hrun. }
  intros b1. apply respects_bind; [exact _ | |].
  { apply respects_delete_phase; [exact _ | exact _ | exact Hlog |].
    intros n. apply respects_delete_github_variable; [exact _ | exact _ | exact Hlog |].
    apply Hrun. }
  intros b2. apply respects_set_phases; [exact _ | exact _ | exact Hlog |].
  intros command _. apply Hrun.
Qed.

Lemma set_order_empty : set_order_spec -> set_order ∅ = [].
Proof.
  intros H. apply Permutation_nil_r. rewrite (H ∅), elements_empty. reflexivity.
Qed.

Lemma elem_of_set_order (X : gset string) n : set_order_spec -> n ∈ set_order X <-> n ∈ X.
Proof. intros H. rewrite (H X). apply elem_of_elements. Qed.

Lemma NoDup_set_order (X : gset string) : set_order_spec -> NoDup (set_order X).
Proof. intros H. rewrite (H X). apply NoDup_elements. Qed.

Lemma elem_of_str_keys (E : gset pykey) n : n ∈ str_keys E <-> KStr n ∈ E.
Proof.
  unfold str_keys. rewrite elem_of_list_to_set, list_elem_of_omap. split.
  - intros (k & Hk & Hs). destruct k; try discriminate. injection Hs as ->.
    apply elem_of_elements. exact Hk.
  - intros H. exists (KStr n). split; [apply elem_of_elements; exact H | reflexivity].
Qed.

Lemma elem_of_to_actually_delete delete_list (E : gset pykey) n :
  n ∈ to_actually_delete delete_list E <-> n ∈ delete_list /\ KStr n ∈ E.
Proof.
  unfold to_actually_delete.
  rewrite elem_of_intersection, elem_of_list_to_set, elem_of_str_keys. reflexivity.
Qed.

Lemma delete_phase_calls repo found nothing (delete_one : string -> M bool)
    (cmd : string -> list string) delete_list (E : gset pykey) b (g : Globals) :
  set_order_spec ->
  (forall n g, subprocess_calls (snd (delete_one n g)) = subprocess_calls g ++ [cmd n]) ->
  (forall n g e, fst (delete_one n g) <> Raised e) ->
  let names := set_order (to_actually_delete delete_list E) in
  let out := delete_phase repo found nothing delete_one delete_list
               (to_actually_delete delete_list E) b g in
  exists attempted,
    subprocess_calls (snd out) = subprocess_calls g ++ (cmd <$> attempted) /\
    attempted `prefix_of` names /\
    (forall e, fst out <> Raised e) /\
    ((forall c, fst out <> SystemExit c) -> attempted = names).
Proof.
  intros Hord Hcalls Hnr names out. subst out names. unfold delete_phase.
  assert (Hnone : to_actually_delete delete_list E = ∅ ->
    exists attempted : list string,
      subprocess_calls g = subprocess_calls g ++ (cmd <$> attempted) /\
      attempted `prefix_of` set_order (to_actually_delete delete_list E) /\
      attempted = set_order (to_actually_delete delete_list E)).
  { intros HX. exists []. rewrite HX, set_order_empty by exact Hord.
    split; [simpl; rewrite app_nil_r; reflexivity | split; reflexivity]. }
  destruct delete_list as [|d ds] eqn:HD.
  - destruct Hnone as (att & E1 & E2 & E3).
    { apply set_eq. intros n. rewrite elem_of_to_actually_delete.
      split; [intros [H _]; apply elem_of_nil in H; contradiction
             | intros H; apply elem_of_empty in H; contradiction]. }
    exists att. cbn [ret fst snd].
    repeat split; try assumption; [discriminate | intros _; assumption].
  - rewrite <- HD in *. clear HD.
    destruct (decide (to_actually_delete delete_list E ≠ ∅)) as [Hne|Heq].
    + rewrite (bool_decide_eq_true_2 _ Hne).
      unfold bind, add_log, exec.
      match goal with |- context [for_each ?f ?l ?b0 ?g0] =>
        destruct (for_each_calls f cmd Hcalls Hnr l b0 g0) as (att & Ec & Hp & Hr & Hall)
      end.
      exists att. rewrite calls_add_log_entry in Ec. repeat split; assumption.
    + rewrite (bool_decide_eq_false_2 _ Heq).
      destruct Hnone as (att & E1 & E2 & E3).
      { destruct (decide (to_actually_delete delete_list E = ∅)); [assumption|contradiction]. }
      exists att. unfold bind, add_log, exec, ret. cbn [fst snd].
      rewrite calls_add_log_entry.
      repeat split; try assumption; [discriminate | intros _; assumption].
Qed.

Lemma bind_apply {A B} (m : M A) (k : A -> M B) (g : Globals) :
  bind m k g
  = match m g with
    | (Returned a, g') => k a g'
    | (Raised e, g') => (Raised e, g')
    | (SystemExit c, g') => (SystemExit c, g')
    end.
Proof. reflexivity. Qed.

Lemma filter_all_true {A} (P : A -> bool) (l : list A) :
  (forall x, x ∈ l -> P x = true) -> List.filter P l = l.
Proof.
  induction l as [|x l IH]; intros H; [reflexivity|]. simpl.
  rewrite (H x) by (apply elem_of_cons; left; reflexivity).
  rewrite IH; [reflexivity|]. intros y Hy. apply H, elem_of_cons. right. exact Hy.
Qed.

Lemma fatal_handler_returns repo e (g : Globals) :
  fst (fatal_handler repo e g) = Returned false.
Proof. reflexivity. Qed.

Lemma expected_deletions_are_deletions repo Ds Dv Es Ev c :
  c ∈ expected_deletions repo Ds Dv Es Ev -> is_delete_command c = true.
Proof.
  unfold expected_deletions. rewrite elem_of_app, !list_elem_of_fmap.
  intros [(n & -> & _)|(n & -> & _)]; reflexivity.
Qed.

Lemma after_fetch_calls repo Ds Dv S V force Es Ev (g1 : Globals) :
  set_order_spec ->
  let m := (overall_success <- delete_secrets_phase repo Ds Es true;;
            overall_success <- delete_variables_phase repo Dv Ev overall_success;;
            set_phases repo S V force overall_success) in
  exists attempted rest,
    subprocess_calls (snd (m g1)) = subprocess_calls g1 ++ attempted ++ rest /\
    List.filter is_delete_command rest = [] /\
    attempted `prefix_of` expected_deletions repo Ds Dv Es Ev /\
    ((forall c, fst (m g1) <> SystemExit c) ->
     attempted = expected_deletions repo Ds Dv Es Ev).
Proof.
  intros Hord m. subst m. unfold expected_deletions.
  rewrite bind_apply.
  destruct (delete_phase_calls repo
              "    Secrets to delete (existing and requested): "
              "    No secrets found to delete from the repository (intersection with requested list is empty)."
              (delete_github_secret repo) (delete_secret_command repo) Ds Es true g1 Hord
              (delete_github_secret_calls repo)
              (fun n g e => logged_call_not_raised _ _ _ _ _ g e))
    as (att_s & Ecs & Hps & Hrs & Halls).
  fold (delete_secrets_phase repo Ds Es true) in *.
  destruct (delete_secrets_phase repo Ds Es true g1) as [[b1|e|c] g2]; cbn [fst snd] in *.
  2: { exfalso. apply (Hrs e). reflexivity. }
  2: { exists (delete_secret_command repo <$> att_s), []. rewrite app_nil_r.
       split; [exact Ecs|]. split; [reflexivity|]. split.
       - destruct Hps as [k ->]. rewrite fmap_app, <- app_assoc. eexists. reflexivity.
       - intros Hne. exfalso. apply (Hne c). reflexivity. }
  rewrite (Halls ltac:(discriminate)) in Ecs. clear Hps Hrs Halls att_s.
  rewrite bind_apply.
  destruct (delete_phase_calls repo
              "    Variables to delete (existing and requested): "
              "    No variables found to delete from the repository (intersection with requested list is empty)."
              (delete_github_variable repo) (delete_variable_command repo) Dv Ev b1 g2 Hord
              (delete_github_variable_calls repo)
              (fun n g e => logged_call_not_raised _ _ _ _ _ g e))
    as (att_v & Ecv & Hpv & Hrv & Hallv).
  fold (delete_variables_phase repo Dv Ev b1) in *.
  destruct (delete_variables_phase repo Dv Ev b1 g2) as [[b2|e|c] g3]; cbn [fst snd] in *.
  2: { exfalso. apply (Hrv e). reflexivity. }
  2: { exists ((delete_secret_command repo <$> set_order (to_actually_delete Ds Es)) ++
               (delete_variable_command repo <$> att_v)), [].
       rewrite app_nil_r, Ecv, Ecs, <- app_assoc.
       split; [reflexivity|]. split; [reflexivity|]. split.
       - destruct Hpv as [k ->]. rewrite fmap_app, app_assoc. eexists. reflexivity.
       - intros Hne. exfalso. apply (Hne c). reflexivity. }
  rewrite (Hallv ltac:(discriminate)) in Ecv. clear Hpv Hrv Hallv att_v.
  destruct (respects_set_phases no_deletion repo S V force b2 no_deletion_log
              (fun command Hc => no_deletion_run command false Hc) g3)
    as (rest & Er & Fr).
  exists ((delete_secret_command repo <$> set_order (to_actually_delete Ds Es)) ++
          (delete_variable_command repo <$> set_order (to_actually_delete Dv Ev))), rest.
  rewrite Er, Ecv, Ecs, <- !app_assoc.
  split; [reflexivity|]. split; [exact Fr|]. split; [reflexivity|]. intros _. reflexivity.
Qed.

(** C2: let the first fetch of [process_single_repository] return the
    existing sets [Es] and [Ev]. The delete commands the call hands to the
    [gh] tool are then one [gh secret delete] for each member of
    [set(Ds) ∩ Es], in the set's iteration order, followed by one
    [gh variable delete] for each member of [set(Dv) ∩ Ev]: every one of
    them whenever the call returns to its caller, and an initial part of
    that sequence when a missing [gh] executable ends the interpreter
    midway. A name is in those intersections exactly when it is requested
    and existing, once; so a delete command for a name that is not both
    requested and existing is never handed to the tool. *)
Theorem delete_intersection_law (repo : string) (Ds Dv : list string)
    (S V : list (string * string)) (force : bool) (g g1 : Globals)
    (Es Ev : gset pykey) :
  set_order_spec ->
  _log_and_fetch_existing_repo_items repo g = (Returned (Es, Ev), g1) ->
  let out := process_single_repository repo Ds Dv S V force g in
  let attempted := deletions_between g (snd out) in
  let secrets := set_order (to_actually_delete Ds Es) in
  let variables := set_order (to_actually_delete Dv Ev) in
  attempted `prefix_of`
    (delete_secret_command repo <$> secrets) ++ (delete_variable_command repo <$> variables) /\
  ((forall c, fst out <> SystemExit c) ->
   attempted
   = (delete_secret_command repo <$> secrets) ++ (delete_variable_command repo <$> variables)) /\
  (forall n, n ∈ secrets <-> n ∈ Ds /\ KStr n ∈ Es) /\ NoDup secrets /\
  (forall n, n ∈ variables <-> n ∈ Dv /\ KStr n ∈ Ev) /\ NoDup variables /\
  (forall n, delete_secret_command repo n ∈ attempted -> n ∈ Ds /\ KStr n ∈ Es) /\
  (forall n, delete_variable_command repo n ∈ attempted -> n ∈ Dv /\ KStr n ∈ Ev).
Proof.
  intros Hord Hfetch out attempted secrets variables.
  assert (Hs : forall n, n ∈ secrets <-> n ∈ Ds /\ KStr n ∈ Es).
  { intros n. unfold secrets. rewrite elem_of_set_order by exact Hord.
    apply elem_of_to_actually_delete. }
  assert (Hv : forall n, n ∈ variables <-> n ∈ Dv /\ KStr n ∈ Ev).
  { intros n. unfold variables. rewrite elem_of_set_order by exact Hord.
    apply elem_of_to_actually_delete. }
  assert (Hmain : attempted `prefix_of` expected_deletions repo Ds Dv Es Ev /\
                  ((forall c, fst out <> SystemExit c) ->
                   attempted = expected_deletions repo Ds Dv Es Ev)).
  { subst attempted out.
    assert (Hpsr : process_single_repository repo Ds Dv S V force g
              = match (overall_success <- delete_secrets_phase repo Ds Es true;;
                       overall_success <- delete_variables_phase repo Dv Ev overall_success;;
                       set_phases repo S V force overall_success) g1 with
                | (Raised e, g2) => fatal_handler repo e g2
                | r => r
                end).
    { rewrite process_single_repository_phases. unfold try_except.
      rewrite bind_apply, Hfetch. reflexivity. }
    rewrite Hpsr. clear Hpsr.
    destruct (respects_log_and_fetch no_deletion no_deletion_log repo
                (fun kind => no_deletion_run
                               ["gh"; kind; "list"; "--repo"; repo; "--json"; "name"]
                               false eq_refl) g) as (cs0 & E0 & F0).
    rewrite Hfetch in E0. cbn [snd] in E0.
    destruct (after_fetch_calls repo Ds Dv S V force Es Ev g1 Hord)
      as (att & rest & Ec & Fr & Hp & Hall).
    cbn zeta in Ec, Hall.
    assert (Hatt : List.filter is_delete_command att = att).
    { apply filter_all_true. intros c Hc.
      apply (expected_deletions_are_deletions repo Ds Dv Es Ev).
      destruct Hp as [k ->]. apply elem_of_app. left. exact Hc. }
    match type of Ec with subprocess_calls (snd (?m g1)) = _ =>
      destruct (m g1) as [[b|e|c] g2] end; cbn [fst snd] in *.
    - rewrite (deletions_between_app g g2 (cs0 ++ att ++ rest))
        by (rewrite Ec, E0, <- !app_assoc; reflexivity).
      rewrite !List.filter_app, F0, Fr, Hatt, app_nil_r. cbn [app].
      split; [exact Hp|]. intros _. apply Hall. discriminate.
    - pose proof (respects_fatal_handler same_calls repo e same_calls_log g2) as Hh.
      unfold same_calls in Hh.
      rewrite (deletions_between_app g _ (cs0 ++ att ++ rest))
        by (rewrite Hh, Ec, E0, <- !app_assoc; reflexivity).
      rewrite !List.filter_app, F0, Fr, Hatt, app_nil_r. cbn [app].
      split; [exact Hp|]. intros _. apply Hall. discriminate.
    - rewrite (deletions_between_app g g2 (cs0 ++ att ++ rest))
        by (rewrite Ec, E0, <- !app_assoc; reflexivity).
      rewrite !List.filter_app, F0, Fr, Hatt, app_nil_r. cbn [app].
      split; [exact Hp|]. intros Hne. exfalso. apply (Hne c). reflexivity. }
  destruct Hmain as [Hp Hall]. unfold expected_deletions in Hp, Hall.
  fold secrets variables in Hp, Hall.
  split; [exact Hp|]. split; [exact Hall|].
  split; [exact Hs|]. split; [apply NoDup_set_order; exact Hord|].
  split; [exact Hv|]. split; [apply NoDup_set_order; exact Hord|].
  split.
  - intros n Hn. apply Hs. destruct Hp as [k Hk].
    assert (Hin : delete_secret_command repo n ∈
              (delete_secret_command repo <$> secrets) ++
              (delete_variable_command repo <$> variables)).
    { rewrite Hk. apply elem_of_app. left. exact Hn. }
    apply elem_of_app in Hin. destruct Hin as [Hin|Hin];
      apply list_elem_of_fmap in Hin; destruct Hin as (n' & E & Hn').
    + injection E as ->. exact Hn'.
    + discriminate.
  - intros n Hn. apply Hv. destruct Hp as [k Hk].
    assert (Hin : delete_variable_command repo n ∈
              (delete_secret_command repo <$> secrets) ++
              (delete_variable_command repo <$> variables)).
    { rewrite Hk. apply elem_of_app. left. exact Hn. }
    apply elem_of_app in Hin. destruct Hin as [Hin|Hin];
      apply list_elem_of_fmap in Hin; destruct Hin as (n' & E & Hn').
    + discriminate.
    + injection E as ->. exact Hn'.
Qed.

(** ** The aggregate result *)








(** *** Where the interpreter can exit *)

Create HintDb no_exit.

Lemma no_exit_ret {A} (a : A) : no_exit (ret a).
Proof. intros g c. discriminate. Qed.

Lemma no_exit_raise {A} e : no_exit (raise (A := A) e).
Proof. intros g c. discriminate. Qed.

Lemma no_exit_add_log grp m : no_exit (add_log grp m).
Proof. intros g c. discriminate. Qed.

Lemma no_exit_bind {A B} (m : M A) (k : A -> M B) :
  no_exit m -> (forall a, no_exit (k a)) -> no_exit (bind m k).
Proof.
  intros Hm Hk g c. rewrite bind_apply. specialize (Hm g).
  destruct (m g) as [[a|e|c'] g1]; cbn [fst] in *;
    [apply Hk | discriminate | exfalso; apply (Hm c'); reflexivity].
Qed.

Lemma no_exit_try_except {A} (m : M A) (h : PyException -> M A) :
  no_exit m -> (forall e, no_exit (h e)) -> no_exit (try_except m h).
Proof.
  intros Hm Hh g c. unfold try_except. specialize (Hm g).
  destruct (m g) as [[a|e|c'] g1]; cbn [fst] in *;
    [discriminate | apply Hh | exfalso; apply (Hm c'); reflexivity].
Qed.

Lemma no_exit_for_each {A} (f : A -> M bool) items b :
  (forall x, no_exit (f x)) -> no_exit (for_each f items b).
Proof.
  intros Hf. revert b. induction items as [|x rest IH]; intros b; simpl.
  - apply no_exit_ret.
  - apply no_exit_bind; [apply Hf | intros ok; apply IH].
Qed.

#[local] Hint Resolve no_exit_ret no_exit_raise no_exit_add_log no_exit_bind
  no_exit_try_except no_exit_for_each : no_exit.
#[local] Hint Extern 2 (no_exit (if ?c then _ else _)) => destruct c : no_exit.
#[local] Hint Extern 2 (no_exit (match ?c with _ => _ end)) => destruct c : no_exit.

Lemma no_exit_execute_subprocess_command command shell :
  gh_found -> no_exit (execute_subprocess_command command shell).
Proof.
  intros Hgh g c. unfold execute_subprocess_command, try_except, run_subprocess.
  specialize (Hgh command shell (world (record_call command g))).
  destruct (subprocess_run command shell (world (record_call command g))) as [[e|out] w];
    cbn [fst] in *; [|discriminate].
  destruct e; try (exfalso; eapply Hgh; reflexivity);
    match goal with |- fst (?m ?g0) <> _ =>
      enough (no_exit m) as H by apply H end; auto 10 with no_exit.
Qed.

Lemma no_exit_run_gh_command command repo_name :
  gh_found -> no_exit (run_gh_command command repo_name).
Proof.
  intros Hgh. pose proof (no_exit_execute_subprocess_command command false Hgh).
  unfold run_gh_command. apply no_exit_try_except.
  - apply no_exit_bind; [assumption|]. intros [out err]. auto 10 with no_exit.
  - intros e. auto 10 with no_exit.
Qed.

Lemma no_exit_parse_json_string text ctx repo_name :
  no_exit (parse_json_string text ctx repo_name).
Proof. unfold parse_json_string. auto 10 with no_exit. Qed.

Lemma no_exit_logged_call repo pre post failure command :
  gh_found -> no_exit (logged_call repo pre post failure command).
Proof.
  intros Hgh. pose proof (no_exit_run_gh_command command (Some repo) Hgh).
  unfold logged_call. auto 10 with no_exit.
Qed.

Lemma no_exit_set_github_secret repo n v force E :
  gh_found -> no_exit (set_github_secret repo n v force E).
Proof.
  intros Hgh. pose proof (no_exit_run_gh_command (set_secret_command repo n v)
                            (Some repo) Hgh).
  unfold set_github_secret. auto 10 with no_exit.
Qed.

Lemma no_exit_set_github_variable repo n v force E :
  gh_found -> no_exit (set_github_variable repo n v force E).
Proof.
  intros Hgh. pose proof (no_exit_run_gh_command (set_variable_command repo n v)
                            (Some repo) Hgh).
  unfold set_github_variable. auto 10 with no_exit.
Qed.

Lemma no_exit_get_existing_items repo item_type :
  gh_found -> no_exit (_get_existing_items_from_repo repo item_type).
Proof.
  intros Hgh.
  pose proof (fun kind => no_exit_run_gh_command
                ["gh"; kind; "list"; "--repo"; repo; "--json"; "name"] (Some repo) Hgh).
  pose proof no_exit_parse_json_string.
  unfold _get_existing_items_from_repo. cbv zeta. auto 12 with no_exit.
Qed.

Lemma no_exit_log_and_fetch repo :
  gh_found -> no_exit (_log_and_fetch_existing_repo_items repo).
Proof.
  intros Hgh. pose proof (no_exit_get_existing_items repo "secret" Hgh).
  pose proof (no_exit_get_existing_items repo "variable" Hgh).
  unfold _log_and_fetch_existing_repo_items, list_repository_secrets,
    list_repository_variables, log_existing.
  auto 12 with no_exit.
Qed.

Lemma no_exit_process_single_repository repo Ds Dv S V force :
  gh_found -> no_exit (process_single_repository repo Ds Dv S V force).
Proof.
  intros Hgh. rewrite process_single_repository_phases.
  pose proof (no_exit_log_and_fetch repo Hgh).
  pose proof (fun n => no_exit_logged_call repo
    ("[" +:+ repo +:+ "] Deleting Secret '" +:+ n +:+ "'...")
    ("[" +:+ repo +:+ "] ✅ Successfully deleted Secret '" +:+ n +:+ "'.")
    (fun e => "[" +:+ repo +:+ "] ❌ Failed to delete Secret '" +:+ n +:+ "': " +:+
              exception_text e)
    (delete_secret_command repo n) Hgh) as Hds.
  pose proof (fun n => no_exit_logged_call repo
    ("[" +:+ repo +:+ "] Deleting Variable '" +:+ n +:+ "'...")
    ("[" +:+ repo +:+ "] ✅ Successfully deleted Variable '" +:+ n +:+ "'.")
    (fun e => "[" +:+ repo +:+ "] ❌ Failed to delete Variable '" +:+ n +:+ "': " +:+
              exception_text e)
    (delete_variable_command repo n) Hgh) as Hdv.
  change (forall n, no_exit (delete_github_secret repo n)) in Hds.
  change (forall n, no_exit (delete_github_variable repo n)) in Hdv.
  pose proof (fun E kv => no_exit_set_github_secret repo (fst kv) (snd kv) force E Hgh).
  pose proof (fun E kv => no_exit_set_github_variable repo (fst kv) (snd kv) force E Hgh).
  apply no_exit_try_except; [|intros e; unfold fatal_handler; auto 10 with no_exit].
  apply no_exit_bind; [assumption|]. intros [Es Ev].
  apply no_exit_bind.
  { unfold delete_secrets_phase, delete_phase. auto 10 with no_exit. }
  intros b1. apply no_exit_bind.
  { unfold delete_variables_phase, delete_phase. auto 10 with no_exit. }
  intros b2. unfold set_phases.
  apply no_exit_bind; [assumption|]. intros [Es' Ev'].
  unfold set_phase, closing_log. auto 12 with no_exit.
Qed.

Lemma run_gh_command_result command repo_name (g : Globals) r w :
  subprocess_run command false (world g) = (r, w) ->
  fst (run_gh_command command repo_name g)
  = match r with
    | inr (out, _) => Returned out
    | inl (CalledProcessError t err) =>
        if contains "HTTP 404" err &&
           (contains "secret delete" (String.concat " " command) ||
            contains "variable delete" (String.concat " " command))
        then Returned ""
        else if contains "flag needs an argument: --body" err
        then Raised (ValueError "Secret/Variable value missing error")
        else Raised (CalledProcessError t err)
    | inl (FileNotFoundError _) => SystemExit 1
    | inl e => Raised e
    end.
Proof.
  intros H.
  unfold run_gh_command, try_except at 1. rewrite bind_apply.
  unfold execute_subprocess_command, try_except, run_subprocess.
  change (world (record_call command g)) with (world g). rewrite H.
  destruct r as [e|[out err]].
  - destruct e; unfold bind, add_log, exec, raise, sys_exit, ret; cbn [fst snd];
      repeat match goal with
             | |- context [if ?c then _ else _] => destruct c; cbn [fst snd]
             end; reflexivity.
  - rewrite bind_apply. destruct (truthy err); reflexivity.
Qed.

Lemma logged_call_result repo pre post failure command (g : Globals) r w :
  subprocess_run command false (world g) = (r, w) ->
  fst (logged_call repo pre post failure command g)
  = match r with
    | inr _ => Returned true
    | inl (CalledProcessError _ err) =>
        Returned (contains "HTTP 404" err &&
                  (contains "secret delete" (String.concat " " command) ||
                   contains "variable delete" (String.concat " " command)))
    | inl (FileNotFoundError _) => SystemExit 1
    | inl _ => Returned false
    end.
Proof.
  intros H. unfold logged_call, try_except. rewrite bind_apply.
  unfold add_log at 1, exec at 1. cbn beta iota. rewrite bind_apply.
  match goal with |- context [run_gh_command command ?rn ?g0] =>
    pose proof (run_gh_command_result command rn g0 r w) as Hr;
    rewrite world_add_log_entry in Hr; specialize (Hr H);
    destruct (run_gh_command command rn g0) as [o g1]
  end.
  cbn [fst] in Hr. subst o.
  destruct r as [[t err|t|t|t|t]|[out err]]; try reflexivity.
  destruct (contains "HTTP 404" err &&
            (contains "secret delete" (String.concat " " command) ||
             contains "variable delete" (String.concat " " command))); [reflexivity|].
  destruct (contains "flag needs an argument: --body" err); reflexivity.
Qed.













(** ** The sequential scheduler *)

#[local] Instance same_tracker_refl : Reflexive same_tracker.
Proof. intros g. reflexivity. Qed.

#[local] Instance same_tracker_trans : Transitive same_tracker.
Proof. intros g1 g2 g3 H12 H23. unfold same_tracker in *. congruence. Qed.

Lemma same_tracker_log grp m st pr (g : Globals) :
  same_tracker g (add_log_entry grp m st pr g).
Proof. apply statuses_add_log_entry. Qed.

Lemma same_tracker_run command shell : respects same_tracker (run_subprocess command shell).
Proof.
  intros g. unfold run_subprocess.
  destruct (subprocess_run command shell (world (record_call command g))) as [[e|out] w];
    reflexivity.
Qed.

(** [process_single_repository] never touches the tracker. *)
Lemma process_single_repository_same_tracker repo Ds Dv S V force :
  respects same_tracker (process_single_repository repo Ds Dv S V force).
Proof.
  apply respects_process_single_repository;
    [exact _ | exact _ | apply same_tracker_log | intros c; apply same_tracker_run].
Qed.

Lemma same_tracker_stop_event_is_set : respects same_tracker stop_event_is_set.
Proof.
  intros g. unfold stop_event_is_set. destruct (stop_event g); [reflexivity|].
  destruct (listener_has_set (world g)) as [b w]. reflexivity.
Qed.

Lemma same_tracker_sleep seconds : respects same_tracker (sleep seconds).
Proof. intros g. reflexivity. Qed.

Lemma same_tracker_flush_group repo : respects same_tracker (flush_group repo).
Proof.
  intros g. unfold flush_group. cbn [snd].
  generalize (get_group_log_entries repo g). intros msgs.
  unfold same_tracker. revert g. induction msgs as [|msg msgs IH]; intros g; [reflexivity|].
  cbn [foldl]. rewrite IH. apply statuses_add_log_entry.
Qed.

Lemma same_tracker_clear repo (g : Globals) : same_tracker g (clear_group_log_entries repo g).
Proof.
  unfold clear_group_log_entries. destruct (_all_group_logs g !! repo); reflexivity.
Qed.

Lemma respects_weaken (R R' : Globals -> Globals -> Prop) {A} (m : M A) :
  (forall g g', R g g' -> R' g g') -> respects R m -> respects R' m.
Proof. intros Hsub Hm g. apply Hsub, Hm. Qed.

Lemma respects_sequential_iteration (R : Globals -> Globals -> Prop)
    `{!Reflexive R} `{!Transitive R} config f i repo :
  (forall g g', same_tracker g g' -> R g g') ->
  (forall b g, R g (set_repository_status repo b g)) ->
  keeps_tracker f ->
  respects R (sequential_iteration config f i repo).
Proof.
  intros Hsub Hset Hf. unfold sequential_iteration.
  assert (Hlog : forall grp m, respects R (add_log grp m)).
  { intros grp m. apply (respects_weaken same_tracker); [exact Hsub|].
    apply respects_add_log, same_tracker_log. }
  assert (Hstop : respects R stop_event_is_set).
  { apply (respects_weaken same_tracker); [exact Hsub | apply same_tracker_stop_event_is_set]. }
  apply respects_bind; [exact _ | exact Hstop |]. intros stopped.
  destruct stopped.
  { apply respects_bind; [exact _ | apply Hlog | intros _; apply respects_ret; exact _]. }
  apply respects_bind; [exact _ | apply Hlog |]. intros _.
  apply respects_bind; [exact _ | |].
  { apply respects_try_finally; [exact _ | |].
    - apply respects_try_except; [exact _ | |].
      + apply respects_bind; [exact _ | |].
        * apply (respects_weaken same_tracker); [exact Hsub | apply Hf].
        * intros b. apply respects_exec. intros g. apply Hset.
      + intros exc. apply respects_bind; [exact _ | apply Hlog |].
        intros _. apply respects_exec. intros g. apply Hset.
    - apply respects_bind; [exact _ | apply respects_read; exact _ |]. intros _.
      apply respects_bind; [exact _ | |].
      + apply (respects_weaken same_tracker); [exact Hsub | apply same_tracker_flush_group].
      + intros _. apply respects_exec. intros g. apply Hsub, same_tracker_clear. }
  intros _. apply respects_bind; [exact _ | | intros _; apply respects_ret; exact _].
  destruct (Z.of_nat i <? Z.of_nat (length (repositories config)) - 1)%Z;
    [|apply respects_ret; exact _].
  apply respects_bind; [exact _ | exact Hstop |]. intros stopped.
  destruct (negb stopped); [|apply respects_ret; exact _].
  apply respects_bind; [exact _ | apply Hlog |]. intros _.
  apply (respects_weaken same_tracker); [exact Hsub | apply same_tracker_sleep].
Qed.

#[local] Instance unchanged_outside_refl names : Reflexive (unchanged_outside names).
Proof. intros g x _. reflexivity. Qed.

#[local] Instance unchanged_outside_trans names : Transitive (unchanged_outside names).
Proof. intros g1 g2 g3 H12 H23 x Hx. rewrite (H23 x Hx). apply H12, Hx. Qed.

Lemma unchanged_outside_turn config f i repo names :
  keeps_tracker f -> repo ∈ names ->
  respects (unchanged_outside names) (sequential_iteration config f i repo).
Proof.
  intros Hf Hin. apply respects_sequential_iteration; [exact _ | exact _ | | | exact Hf].
  - intros g g' H x _. rewrite H. reflexivity.
  - intros b g x Hx. apply lookup_set_repository_status_ne. intros ->. contradiction.
Qed.

#[local] Instance keeps_none_in_progress_refl : Reflexive keeps_none_in_progress.
Proof. intros g H. exact H. Qed.

#[local] Instance keeps_none_in_progress_trans : Transitive keeps_none_in_progress.
Proof. intros g1 g2 g3 H12 H23 H. apply H23, H12, H. Qed.

Lemma none_in_progress_turn config f i repo :
  keeps_tracker f ->
  respects keeps_none_in_progress (sequential_iteration config f i repo).
Proof.
  intros Hf. apply respects_sequential_iteration; [exact _ | exact _ | | | exact Hf].
  - intros g g' H Hn x rs. rewrite H. apply Hn.
  - intros b g Hn x rs. rewrite statuses_set_repository_status.
    destruct (_repo_statuses g !! repo) eqn:E; [|apply Hn].
    destruct (decide (repo = x)) as [->|Hne].
    + rewrite lookup_insert_eq. intros [= <-]. destruct b; discriminate.
    + rewrite lookup_insert_ne by exact Hne. apply Hn.
Qed.

Lemma process_repositories_setup_returns config (g : Globals) :
  process_repositories_setup config g
  = (Returned (time_time (world g)), snd (process_repositories_setup config g)).
Proof. reflexivity. Qed.

Lemma process_repositories_sequential config f (g : Globals) :
  max_workers config = 1%Z ->
  process_repositories config f g
  = match sequential_loop config f 0 (repositories config) (sequential_entry config g) with
    | (Returned _, g1) => (Returned tt, sequential_exit g g1)
    | (Raised e, g1) => (Raised e, g1)
    | (SystemExit c, g1) => (SystemExit c, g1)
    end.
Proof.
  intros Hw. unfold process_repositories. rewrite (bool_decide_eq_true_2 _ Hw).
  rewrite bind_apply, process_repositories_setup_returns.
  unfold sequential_entry, sequential_exit.
  generalize (snd (process_repositories_setup config g)). intros g0.
  rewrite bind_apply. rewrite (bind_apply (add_log None _)).
  unfold add_log at 1, exec at 1. cbn beta iota.
  match goal with |- context [sequential_loop ?a ?b ?c ?d ?e] =>
    destruct (sequential_loop a b c d e) as [[u|e'|c'] g1] end; reflexivity.
Qed.

Lemma statuses_sequential_entry config (g : Globals) :
  _repo_statuses (sequential_entry config g)
  = list_to_map ((fun repo => (repo, mkRepoStatus false Pending)) <$> repositories config).
Proof. unfold sequential_entry. rewrite statuses_add_log_entry. reflexivity. Qed.

Lemma statuses_sequential_exit (g0 g1 : Globals) :
  _repo_statuses (sequential_exit g0 g1) = _repo_statuses g1.
Proof. unfold sequential_exit. rewrite !statuses_add_log_entry. reflexivity. Qed.

Lemma sequential_loop_cons config f i repo rest (g : Globals) :
  sequential_loop config f i (repo :: rest) g
  = match sequential_iteration config f i repo g with
    | (Returned Continue, g1) => sequential_loop config f (Datatypes.S i) rest g1
    | (Returned Break, g1) => (Returned tt, g1)
    | (Raised e, g1) => (Raised e, g1)
    | (SystemExit c, g1) => (SystemExit c, g1)
    end.
Proof.
  cbn [sequential_loop]. rewrite bind_apply.
  destruct (sequential_iteration config f i repo g) as [[[]|e|c] g1]; reflexivity.
Qed.

Lemma sequential_loop_after_turns config f i done rest (g g' : Globals) :
  completed_turns config f i done g g' ->
  sequential_loop config f i (done ++ rest) g
  = sequential_loop config f (i + length done) rest g'.
Proof.
  induction 1 as [i g|i repo done g g1 g2 Hturn _ IH].
  - rewrite Nat.add_0_r. reflexivity.
  - cbn [app length]. rewrite sequential_loop_cons, Hturn, IH.
    f_equal. lia.
Qed.

Lemma sequential_iteration_breaks config f i repo (g g' : Globals) :
  stop_event_is_set g = (Returned true, g') ->
  sequential_iteration config f i repo g
  = (Returned Break,
     add_log_entry None (NL +:+ "⚠️ Abort command detected. Stopping sequential processing.")
       true false g').
Proof.
  intros H. unfold sequential_iteration. rewrite bind_apply, H. reflexivity.
Qed.

Lemma completed_turns_unchanged config f i done (g g' : Globals) :
  keeps_tracker f ->
  completed_turns config f i done g g' -> unchanged_outside done g g'.
Proof.
  intros Hf. induction 1 as [i g|i repo done g g1 g2 Hturn _ IH].
  - reflexivity.
  - intros x Hx. rewrite IH.
    + pose proof (unchanged_outside_turn config f i repo [repo] Hf
                    ltac:(apply elem_of_cons; left; reflexivity) g) as H1.
      rewrite Hturn in H1. apply H1. intros Hin. apply Hx.
      apply elem_of_cons. left. apply list_elem_of_singleton in Hin. exact Hin.
    + intros Hin. apply Hx, elem_of_cons. right. exact Hin.
Qed.

(** C7: in sequential mode, let the turns for the repositories [done] have
    run to their end and let the dispatch check made next, for repository
    [r], observe the cancellation flag set. Then the loop stops there: it
    returns in the state of that check with one more console line, so the
    processor is not called again; [process_repositories] returns; and in
    the state it returns in, every repository of [r :: rest] that is not
    among [done] has lifecycle Pending and success false. *)
Theorem sequential_abort_leaves_pending (config : GitHubOperationConfig)
    (f : Processor) (done : list string) (r : string) (rest : list string)
    (g g_k g_k' : Globals) :
  max_workers config = 1%Z ->
  keeps_tracker f ->
  repositories config = done ++ r :: rest ->
  completed_turns config f 0 done (sequential_entry config g) g_k ->
  stop_event_is_set g_k = (Returned true, g_k') ->
  let g_abort :=
    add_log_entry None (NL +:+ "⚠️ Abort command detected. Stopping sequential processing.")
      true false g_k' in
  sequential_loop config f 0 (repositories config) (sequential_entry config g)
  = (Returned tt, g_abort) /\
  process_repositories config f g = (Returned tt, sequential_exit g g_abort) /\
  forall x, x ∈ r :: rest -> x ∉ done ->
    _repo_statuses (sequential_exit g g_abort) !! x = Some (mkRepoStatus false Pending).
Proof.
  intros Hw Hf Hrepos Hturns Hstop g_abort.
  assert (Hloop : sequential_loop config f 0 (repositories config) (sequential_entry config g)
                  = (Returned tt, g_abort)).
  { rewrite Hrepos, (sequential_loop_after_turns _ _ _ _ _ _ _ Hturns).
    rewrite sequential_loop_cons, (sequential_iteration_breaks _ _ _ _ _ _ Hstop).
    reflexivity. }
  split; [exact Hloop|]. split.
  { rewrite process_repositories_sequential by exact Hw. rewrite Hloop. reflexivity. }
  intros x Hx Hnot. rewrite statuses_sequential_exit. unfold g_abort.
  rewrite statuses_add_log_entry.
  pose proof (same_tracker_stop_event_is_set g_k) as Hs. rewrite Hstop in Hs.
  cbn [snd] in Hs. rewrite Hs.
  rewrite (completed_turns_unchanged _ _ _ _ _ _ Hf Hturns x Hnot).
  rewrite statuses_sequential_entry, lookup_list_to_map_const.
  rewrite bool_decide_eq_true_2; [reflexivity|].
  rewrite Hrepos. apply elem_of_app. right. exact Hx.
Qed.

Lemma sequential_iteration_parts config f i repo :
  sequential_iteration config f i repo
  = (stopped <- stop_event_is_set;;
     if stopped
     then
       add_log None (NL +:+ "⚠️ Abort command detected. Stopping sequential processing.");;
       ret Break
     else
       add_log (Some repo) (NL +:+
         "[INFO] To abort, type 'q' and press Enter: Currently processing " +:+ repo +:+ "...");;
       try_finally (turn_body config f repo) (turn_finally repo);;
       turn_pause config i;;
       ret Continue).
Proof. reflexivity. Qed.

Lemma finished_set_repository_status repo b (g : Globals) :
  is_Some (_repo_statuses g !! repo) -> finished repo (set_repository_status repo b g).
Proof.
  intros [rs Hrs]. exists (if b then Completed else Failed). split.
  - unfold lifecycle_of. rewrite statuses_set_repository_status, Hrs, lookup_insert_eq.
    reflexivity.
  - destruct b; [left | right]; reflexivity.
Qed.

Lemma finished_same_tracker repo (g g' : Globals) :
  same_tracker g g' -> finished repo g -> finished repo g'.
Proof. intros H (l & Hl & Ht). exists l. unfold lifecycle_of in *. rewrite H. auto. Qed.

Lemma turn_body_finishes config f repo (g : Globals) :
  keeps_tracker f -> is_Some (_repo_statuses g !! repo) ->
  (exists c, fst (turn_body config f repo g) = SystemExit c) \/
  finished repo (snd (turn_body config f repo g)).
Proof.
  intros Hf Htracked. unfold turn_body, try_except. rewrite bind_apply.
  pose proof (Hf repo (delete_secrets config) (delete_variables config)
                (secrets_to_set config) (variables_to_set config) (force config) g) as Hg.
  match goal with |- context [f ?a ?b ?c ?d ?e ?h g] =>
    destruct (f a b c d e h g) as [[b'|e'|c'] g1] end; cbn [fst snd] in *.
  - right. apply finished_set_repository_status. rewrite Hg. exact Htracked.
  - right. rewrite bind_apply. unfold add_log, exec. cbn [fst snd].
    apply finished_set_repository_status. rewrite statuses_add_log_entry, Hg. exact Htracked.
  - left. eexists. reflexivity.
Qed.

Lemma same_tracker_turn_finally repo : respects same_tracker (turn_finally repo).
Proof.
  unfold turn_finally.
  apply respects_bind; [exact _ | apply respects_read; exact _ |]. intros _.
  apply respects_bind; [exact _ | apply same_tracker_flush_group |]. intros _.
  apply respects_exec. intros g. apply same_tracker_clear.
Qed.

Lemma same_tracker_turn_pause config i : respects same_tracker (turn_pause config i).
Proof.
  unfold turn_pause.
  destruct (Z.of_nat i <? Z.of_nat (length (repositories config)) - 1)%Z;
    [|apply respects_ret; exact _].
  apply respects_bind; [exact _ | apply same_tracker_stop_event_is_set |]. intros stopped.
  destruct (negb stopped); [|apply respects_ret; exact _].
  apply respects_bind; [exact _ | apply respects_add_log, same_tracker_log |]. intros _.
  apply same_tracker_sleep.
Qed.

Lemma completed_turn_finishes config f i repo (g g' : Globals) :
  keeps_tracker f -> is_Some (_repo_statuses g !! repo) ->
  sequential_iteration config f i repo g = (Returned Continue, g') ->
  finished repo g'.
Proof.
  intros Hf Htracked. rewrite sequential_iteration_parts, bind_apply.
  pose proof (same_tracker_stop_event_is_set g) as Hs.
  destruct (stop_event_is_set g) as [[stopped|e|c] g1]; try discriminate. cbn [snd] in Hs.
  destruct stopped.
  { rewrite bind_apply. unfold add_log, exec. cbn beta iota. unfold ret. discriminate. }
  rewrite bind_apply. unfold add_log at 1, exec at 1. cbn beta iota. rewrite bind_apply.
  set (g2 := add_log_entry _ _ true false g1).
  assert (Htracked2 : is_Some (_repo_statuses g2 !! repo)).
  { unfold g2. rewrite statuses_add_log_entry, Hs. exact Htracked. }
  clearbody g2. unfold try_finally.
  pose proof (turn_body_finishes config f repo g2 Hf Htracked2) as Hbody.
  destruct (turn_body config f repo g2) as [r g3]. cbn [fst snd] in Hbody.
  pose proof (same_tracker_turn_finally repo g3) as Hfin.
  destruct (turn_finally repo g3) as [[u|e|c] g4]; try discriminate. cbn [snd] in Hfin.
  destruct r as [u'|e|c]; try discriminate.
  destruct Hbody as [[c Hc]|Hdone]; [discriminate|].
  rewrite bind_apply.
  pose proof (same_tracker_turn_pause config i g4) as Hp.
  destruct (turn_pause config i g4) as [[u''|e|c] g5]; try discriminate. cbn [snd] in Hp.
  unfold ret. intros [= <-].
  apply (finished_same_tracker repo g4); [exact Hp|].
  apply (finished_same_tracker repo g3); [exact Hfin | exact Hdone].
Qed.

Lemma none_in_progress_summary (g : Globals) :
  none_in_progress g -> snd (get_current_progress_summary g) = 0.
Proof.
  intros Hn. unfold get_current_progress_summary. cbn [snd].
  match goal with |- length ?l = 0 => assert (l = []) as ->; [|reflexivity] end.
  apply elem_of_nil_inv. intros rs Hrs.
  apply list_elem_of_filter in Hrs as [[_ Hip] Hin].
  apply list_elem_of_fmap in Hin as ([k rs'] & -> & Hin).
  apply elem_of_map_to_list in Hin. cbn [snd] in Hip.
  unfold is_in_progress in Hip. apply bool_decide_eq_true_1 in Hip.
  exact (Hn k rs' Hin Hip).
Qed.

Lemma none_in_progress_loop config f i repos :
  keeps_tracker f ->
  respects keeps_none_in_progress (sequential_loop config f i repos).
Proof.
  intros Hf. revert i. induction repos as [|repo rest IH]; intros i.
  - apply respects_ret. exact _.
  - cbn [sequential_loop]. apply respects_bind; [exact _ | |].
    + apply none_in_progress_turn. exact Hf.
    + intros []; [apply IH | apply respects_ret; exact _].
Qed.

Lemma none_in_progress_entry config (g : Globals) :
  none_in_progress (sequential_entry config g).
Proof.
  intros x rs. rewrite statuses_sequential_entry, lookup_list_to_map_const.
  destruct (bool_decide (x ∈ repositories config)); [|discriminate].
  intros [= <-]. discriminate.
Qed.

Lemma none_in_progress_turns config f i done (g g' : Globals) :
  keeps_tracker f ->
  completed_turns config f i done g g' -> none_in_progress g -> none_in_progress g'.
Proof.
  intros Hf. induction 1 as [i g|i repo done g g1 g2 Hturn _ IH]; [auto|].
  intros Hn. apply IH.
  pose proof (none_in_progress_turn config f i repo Hf g) as H. rewrite Hturn in H.
  apply H, Hn.
Qed.

(** C10: in sequential mode, with a processor that leaves the tracker
    alone, no repository is in progress when the loop is entered; a turn of
    the loop, from whatever state and however it ends, puts none in
    progress; so the [in_progress] component of
    [get_current_progress_summary] is 0 after any number of turns and when
    [process_repositories] ends; and a turn that runs to its end leaves its
    repository, if tracked, Completed or Failed. *)
Theorem sequential_mode_never_in_progress (config : GitHubOperationConfig)
    (f : Processor) (g : Globals) :
  max_workers config = 1%Z ->
  keeps_tracker f ->
  snd (get_current_progress_summary (sequential_entry config g)) = 0 /\
  (forall i repo g', none_in_progress g' ->
     none_in_progress (snd (sequential_iteration config f i repo g'))) /\
  (forall done g_k, completed_turns config f 0 done (sequential_entry config g) g_k ->
     snd (get_current_progress_summary g_k) = 0) /\
  snd (get_current_progress_summary (snd (process_repositories config f g))) = 0 /\
  (forall i repo g' g'', is_Some (_repo_statuses g' !! repo) ->
     sequential_iteration config f i repo g' = (Returned Continue, g'') ->
     exists l, lifecycle_of repo g'' = Some l /\ terminal l).
Proof.
  intros Hw Hf.
  split. { apply none_in_progress_summary, none_in_progress_entry. }
  split. { intros i repo g' Hn. apply (none_in_progress_turn config f i repo Hf g'), Hn. }
  split.
  { intros done g_k Hturns. apply none_in_progress_summary.
    apply (none_in_progress_turns config f 0 done _ g_k Hf Hturns).
    apply none_in_progress_entry. }
  split.
  { apply none_in_progress_summary.
    rewrite process_repositories_sequential by exact Hw.
    pose proof (none_in_progress_loop config f 0 (repositories config) Hf
                  (sequential_entry config g) (none_in_progress_entry config g)) as Hl.
    destruct (sequential_loop config f 0 (repositories config) (sequential_entry config g))
      as [[u|e|c] g1]; cbn [snd] in *; [|exact Hl|exact Hl].
    intros x rs. rewrite statuses_sequential_exit. apply Hl. }
  intros i repo g' g'' Htracked Hturn.
  exact (completed_turn_finishes config f i repo g' g'' Hf Htracked Hturn).
Qed.

(** ** The empty repository list *)

(** C8: when [main] has determined its configuration and the repository
    list is empty, it writes one console line and ends the interpreter with
    [sys.exit(0)]: nothing else changes, so the confirmation is not asked,
    the tracker and the log collector are not initialized, no command is
    handed to the [gh] tool and [process_repositories] is not called. *)
Theorem empty_repository_list_exits (g g' : Globals) (config : GitHubOperationConfig) :
  main_configure g = (Returned config, g') ->
  repositories config = [] ->
  main g = (SystemExit 0,
            stdout_write ("No repositories to process. Exiting script." +:+ NL) g').
Proof.
  intros Hcfg Hempty. unfold main. rewrite bind_apply, Hcfg, Hempty. reflexivity.
Qed.

(** * Further properties of the tracker and of the log collector *)

(** X1: after [initialize_repository_statuses] the summary is
    [(len(repositories), 0, 0)], every listed repository is
    [{success: False, status: pending}] and no other name is tracked; when
    the names are distinct the tracker holds as many entries as the list. *)
Theorem initialize_repository_statuses_summary (g : Globals) (repos : list string) :
  let g' := initialize_repository_statuses repos g in
  get_current_progress_summary g' = (length repos, 0, 0) /\
  (forall r, r ∈ repos -> _repo_statuses g' !! r = Some (mkRepoStatus false Pending)) /\
  (forall r, r ∉ repos -> _repo_statuses g' !! r = None) /\
  (NoDup repos -> size (_repo_statuses g') = length repos).
Proof.
  intros g'.
  assert (Hl : forall r, _repo_statuses g' !! r
                         = if bool_decide (r ∈ repos)
                           then Some (mkRepoStatus false Pending) else None).
  { intros r. apply lookup_list_to_map_const. }
  assert (Hv : forall rs, rs ∈ (map_to_list (_repo_statuses g')).*2 ->
                          rs = mkRepoStatus false Pending).
  { intros rs Hin. apply list_elem_of_fmap in Hin as ([k rs'] & -> & Hin).
    apply elem_of_map_to_list in Hin. rewrite Hl in Hin.
    destruct (bool_decide (k ∈ repos)); [|discriminate]. injection Hin as <-. reflexivity. }
  split.
  { unfold get_current_progress_summary.
    change (_initial_total_repos_count g') with (length repos).
    assert (E1 : filter (fun rs => is_completed_or_failed rs = true)
                   (map_to_list (_repo_statuses g')).*2 = []).
    { apply elem_of_nil_inv. intros rs Hrs.
      apply list_elem_of_filter in Hrs as [Hp Hin]. rewrite (Hv rs Hin) in Hp.
      discriminate. }
    assert (E2 : filter (fun rs => is_completed_or_failed rs = false /\
                                   is_in_progress rs = true)
                   (map_to_list (_repo_statuses g')).*2 = []).
    { apply elem_of_nil_inv. intros rs Hrs.
      apply list_elem_of_filter in Hrs as [[_ Hp] Hin]. rewrite (Hv rs Hin) in Hp.
      discriminate. }
    rewrite E1, E2. reflexivity. }
  split.
  { intros r Hr. rewrite Hl, bool_decide_eq_true_2 by exact Hr. reflexivity. }
  split.
  { intros r Hr. rewrite Hl, bool_decide_eq_false_2 by exact Hr. reflexivity. }
  intros Hnd. unfold g', initialize_repository_statuses. cbn [_repo_statuses
    with_initial_total with_repo_statuses].
  rewrite map_size_list_to_map, length_fmap; [reflexivity|].
  rewrite <- list_fmap_compose.
  replace (fst ∘ (fun repo : string => (repo, mkRepoStatus false Pending)))
    with (@id string) by reflexivity.
  rewrite list_fmap_id. exact Hnd.
Qed.

(** X2: on a name the tracker does not hold, [set_repository_status] writes
    one warning line and changes nothing else, [set_repository_in_progress]
    changes nothing, and [get_repository_overall_status] answers [False],
    before and after. *)
Theorem tracker_unknown_repository (g : Globals) (r : string) (b : bool) :
  _repo_statuses g !! r = None ->
  set_repository_status r b g
  = stdout_write ("[WARN: Status Update] Repo '" +:+ r +:+
                  "' not found in status tracker." +:+ NL) g /\
  _repo_statuses (set_repository_status r b g) = _repo_statuses g /\
  set_repository_in_progress r g = g /\
  get_repository_overall_status r g = false /\
  get_repository_overall_status r (set_repository_status r b g) = false.
Proof.
  intros Hr.
  assert (E : set_repository_status r b g
              = stdout_write ("[WARN: Status Update] Repo '" +:+ r +:+
                              "' not found in status tracker." +:+ NL) g).
  { unfold set_repository_status. rewrite Hr. reflexivity. }
  split; [exact E|]. rewrite E.
  unfold set_repository_in_progress, get_repository_overall_status.
  cbn [_repo_statuses stdout_write]. rewrite Hr. repeat split.
Qed.

(** X3: the two setters never add or remove a tracked name and never
    change the recorded total. *)
Theorem tracker_setters_keep_names (g : Globals) (r : string) (b : bool) :
  dom (_repo_statuses (set_repository_status r b g)) = dom (_repo_statuses g) /\
  dom (_repo_statuses (set_repository_in_progress r g)) = dom (_repo_statuses g) /\
  _initial_total_repos_count (set_repository_status r b g) = _initial_total_repos_count g /\
  _initial_total_repos_count (set_repository_in_progress r g)
  = _initial_total_repos_count g.
Proof.
  unfold set_repository_status, set_repository_in_progress.
  destruct (_repo_statuses g !! r) as [rs|] eqn:Hr.
  - destruct (decide (status rs = Pending)); cbn [_repo_statuses with_repo_statuses
      _initial_total_repos_count];
      rewrite ?dom_insert_lookup_L by (rewrite Hr; eexists; reflexivity);
      repeat split.
  - repeat split.
Qed.

Lemma status_classes (l : list RepoStatus) :
  length (filter (fun rs => is_completed_or_failed rs = true) l) +
  length (filter (fun rs => is_completed_or_failed rs = false /\
                            is_in_progress rs = true) l) +
  length (filter (fun rs => status rs = Pending) l)
  = length l.
Proof.
  induction l as [|[sc st] l IH]; [reflexivity|].
  set (P1 := fun rs => is_completed_or_failed rs = true) in *.
  set (P2 := fun rs => is_completed_or_failed rs = false /\ is_in_progress rs = true) in *.
  set (P3 := fun rs => status rs = Pending) in *.
  assert (Hstep : forall (P : RepoStatus -> Prop) `{!forall rs, Decision (P rs)} x,
            length (filter P (x :: l))
            = (if decide (P x) then 1 else 0) + length (filter P l)).
  { intros P HP x. rewrite filter_cons. destruct (decide (P x)); reflexivity. }
  rewrite !Hstep.
  destruct st;
    repeat match goal with
           | |- context [decide ?Q] =>
               let HQ := fresh "HQ" in
               destruct (decide Q) as [HQ|HQ]; vm_compute in HQ;
               try discriminate HQ;
               try (destruct HQ as [HQa HQb]; (discriminate HQa || discriminate HQb));
               try (exfalso; apply HQ; first [reflexivity | split; reflexivity]);
               clear HQ
           end;
    cbn [length]; lia.
Qed.

(** X4: in every state the summary classifies each tracked repository
    once: completed-or-failed, in progress and pending add up to the
    number of tracked names. *)
Theorem progress_summary_partition (g : Globals) :
  let '(_, completed_or_failed, in_progress) := get_current_progress_summary g in
  completed_or_failed + in_progress +
  length (filter (fun rs => status rs = Pending) (map_to_list (_repo_statuses g)).*2)
  = size (_repo_statuses g).
Proof.
  unfold get_current_progress_summary.
  rewrite status_classes, length_fmap, length_map_to_list. reflexivity.
Qed.

(** X5: on a tracked repository [get_repository_overall_status] reads back
    the result last written by [set_repository_status], and a write for one
    repository leaves the answer for every other repository as it was. *)
Theorem overall_status_reads_last_result (g : Globals) (r : string) (b : bool) :
  is_Some (_repo_statuses g !! r) ->
  get_repository_overall_status r (set_repository_status r b g) = b /\
  forall r', r' <> r ->
    get_repository_overall_status r' (set_repository_status r b g)
    = get_repository_overall_status r' g.
Proof.
  intros [rs Hr]. unfold get_repository_overall_status. split.
  - rewrite statuses_set_repository_status, Hr, lookup_insert_eq. reflexivity.
  - intros r' Hne. rewrite lookup_set_repository_status_ne by congruence. reflexivity.
Qed.

Lemma add_log_entry_known (g : Globals) name grp m :
  _all_group_logs g !! name = Some grp ->
  add_log_entry (Some name) m true false g
  = with_group_logs (<[name := mkLogGroup (logs grp ++ [m])]> (_all_group_logs g)) g.
Proof. intros H. unfold add_log_entry. rewrite H. reflexivity. Qed.

(** X6: messages added in turn to a known group come back from
    [get_group_log_entries] in the order of the calls, after those already
    there; the other groups and the console are untouched. *)
Theorem log_entries_keep_call_order (g : Globals) (name : string) (ms : list string) :
  is_Some (_all_group_logs g !! name) ->
  let g' := foldl (fun g0 m => add_log_entry (Some name) m true false g0) g ms in
  get_group_log_entries name g' = get_group_log_entries name g ++ ms /\
  (forall other, other <> name ->
     get_group_log_entries other g' = get_group_log_entries other g) /\
  stdout g' = stdout g.
Proof.
  revert g. induction ms as [|m ms IH]; intros g [grp Hg] g'.
  - subst g'. cbn [foldl]. rewrite app_nil_r. repeat split.
  - subst g'. cbn [foldl].
    set (g1 := add_log_entry (Some name) m true false g).
    assert (E : g1 = with_group_logs
                       (<[name := mkLogGroup (logs grp ++ [m])]> (_all_group_logs g)) g)
      by (apply add_log_entry_known; exact Hg).
    assert (H1 : _all_group_logs g1 !! name = Some (mkLogGroup (logs grp ++ [m]))).
    { rewrite E. cbn [_all_group_logs with_group_logs]. apply lookup_insert_eq. }
    destruct (IH g1 ltac:(rewrite H1; eexists; reflexivity)) as (IH1 & IH2 & IH3).
    split; [|split].
    + rewrite IH1. unfold get_group_log_entries. rewrite H1, Hg. cbn [logs].
      rewrite <- app_assoc. reflexivity.
    + intros other Hne. rewrite (IH2 other Hne). unfold get_group_log_entries.
      rewrite E. cbn [_all_group_logs with_group_logs].
      rewrite lookup_insert_ne by congruence. reflexivity.
    + rewrite IH3, E. reflexivity.
Qed.

(** X7: [clear_group_log_entries] on a known group empties that group and
    no other, and writes nothing; a later message starts the group afresh. *)
Theorem clear_group_log_entries_known (g : Globals) (name m : string) :
  is_Some (_all_group_logs g !! name) ->
  let g' := clear_group_log_entries name g in
  get_group_log_entries name g' = [] /\
  (forall other, other <> name ->
     get_group_log_entries other g' = get_group_log_entries other g) /\
  stdout g' = stdout g /\
  get_group_log_entries name (add_log_entry (Some name) m true false g') = [m].
Proof.
  intros [grp Hg] g'.
  assert (E : g' = with_group_logs (<[name := mkLogGroup []]> (_all_group_logs g)) g).
  { unfold g', clear_group_log_entries. rewrite Hg. reflexivity. }
  assert (H1 : _all_group_logs g' !! name = Some (mkLogGroup [])).
  { rewrite E. cbn [_all_group_logs with_group_logs]. apply lookup_insert_eq. }
  split; [|split; [|split]].
  - unfold get_group_log_entries. rewrite H1. reflexivity.
  - intros other Hne. unfold get_group_log_entries. rewrite E.
    cbn [_all_group_logs with_group_logs]. rewrite lookup_insert_ne by congruence.
    reflexivity.
  - rewrite E. reflexivity.
  - rewrite (add_log_entry_known g' name (mkLogGroup []) m H1).
    unfold get_group_log_entries. cbn [_all_group_logs with_group_logs].
    rewrite lookup_insert_eq. reflexivity.
Qed.

(** X8: a message for a group the collector does not hold is stored
    nowhere: [add_log_entry] writes one warning line carrying the message
    and leaves the collector as it is, and so does
    [clear_group_log_entries]; neither ever creates a group. *)
Theorem log_unknown_group (g : Globals) (name m : string) :
  _all_group_logs g !! name = None ->
  add_log_entry (Some name) m true false g
  = stdout_write ("[WARN: Missing Log Group - '" +:+ name +:+
                  "'] Message not stored: " +:+ m +:+ NL) g /\
  clear_group_log_entries name g
  = stdout_write ("[WARN: Clear Logs] Group '" +:+ name +:+
                  "' not found in collector." +:+ NL) g /\
  _all_group_logs (add_log_entry (Some name) m true false g) = _all_group_logs g /\
  _all_group_logs (clear_group_log_entries name g) = _all_group_logs g /\
  get_group_log_entries name (add_log_entry (Some name) m true false g) = [].
Proof.
  intros H. unfold add_log_entry, clear_group_log_entries, get_group_log_entries.
  rewrite H. cbn [_all_group_logs stdout_write]. rewrite H. repeat split.
Qed.

(** X9: whatever its arguments, [add_log_entry] keeps the set of groups;
    a global message, or one passed with [store] false, goes to the console
    only, followed by a line feed unless it is a prompt. *)
Theorem add_log_entry_console (g : Globals) (grp : option string) (m : string)
    (st pr : bool) :
  dom (_all_group_logs (add_log_entry grp m st pr g)) = dom (_all_group_logs g) /\
  (grp = None \/ st = false ->
   add_log_entry grp m st pr g = stdout_write (if pr then m else m +:+ NL) g).
Proof.
  split.
  - unfold add_log_entry.
    destruct st, grp as [name|]; try destruct (_all_group_logs g !! name) eqn:E;
      try destruct pr; cbn [_all_group_logs with_group_logs stdout_write];
      try reflexivity.
    all: apply dom_insert_lookup_L; rewrite E; eexists; reflexivity.
  - intros [E|E]; subst; unfold add_log_entry; [destruct st, pr | destruct grp, pr];
      reflexivity.
Qed.

(** * Further properties of the [gh] operations *)

(** X10: [delete_github_secret] and [delete_github_variable] return [True]
    when the [gh] command ends with status 0 and also when it fails with a
    standard error that mentions [HTTP 404] (the item was already gone);
    they return [False] on any other failure of the command, and the
    interpreter exits with status 1 when the executable is not found. *)
Theorem delete_result (repo name : string) (g : Globals) :
  (forall r w,
     subprocess_run (delete_secret_command repo name) false (world g) = (r, w) ->
     fst (delete_github_secret repo name g)
     = match r with
       | inr _ => Returned true
       | inl (CalledProcessError _ err) => Returned (contains "HTTP 404" err)
       | inl (FileNotFoundError _) => SystemExit 1
       | inl _ => Returned false
       end) /\
  (forall r w,
     subprocess_run (delete_variable_command repo name) false (world g) = (r, w) ->
     fst (delete_github_variable repo name g)
     = match r with
       | inr _ => Returned true
       | inl (CalledProcessError _ err) => Returned (contains "HTTP 404" err)
       | inl (FileNotFoundError _) => SystemExit 1
       | inl _ => Returned false
       end).
Proof.
  split; intros r w H.
  - unfold delete_github_secret.
    fold (logged_call repo
            ("[" +:+ repo +:+ "] Deleting Secret '" +:+ name +:+ "'...")
            ("[" +:+ repo +:+ "] ✅ Successfully deleted Secret '" +:+ name +:+ "'.")
            (fun e => "[" +:+ repo +:+ "] ❌ Failed to delete Secret '" +:+ name +:+
                      "': " +:+ exception_text e)
            (delete_secret_command repo name)).
    rewrite (logged_call_result _ _ _ _ _ g r w H).
    destruct r as [[t err|t|t|t|t]|out]; try reflexivity.
    assert (contains "secret delete"
              (String.concat " " (delete_secret_command repo name)) = true) as ->
      by reflexivity.
    rewrite orb_true_l, andb_true_r. reflexivity.
  - unfold delete_github_variable.
    fold (logged_call repo
            ("[" +:+ repo +:+ "] Deleting Variable '" +:+ name +:+ "'...")
            ("[" +:+ repo +:+ "] ✅ Successfully deleted Variable '" +:+ name +:+ "'.")
            (fun e => "[" +:+ repo +:+ "] ❌ Failed to delete Variable '" +:+ name +:+
                      "': " +:+ exception_text e)
            (delete_variable_command repo name)).
    rewrite (logged_call_result _ _ _ _ _ g r w H).
    destruct r as [[t err|t|t|t|t]|out]; try reflexivity.
    assert (contains "variable delete"
              (String.concat " " (delete_variable_command repo name)) = true) as ->
      by reflexivity.
    rewrite orb_true_r, andb_true_r. reflexivity.
Qed.

(** X22: [run_gh_command] never raises [FileNotFoundError]: when the
    executable is missing, [execute_subprocess_command] has already ended
    the interpreter with status 1, so the [except FileNotFoundError] clause
    of [run_gh_command] is never entered; and the command is handed to the
    tool exactly once however the call ends. *)
Theorem run_gh_command_missing_executable (command : list string)
    (repo_name : option string) (g : Globals) :
  (forall t, fst (run_gh_command command repo_name g) <> Raised (FileNotFoundError t)) /\
  (forall t, fst (subprocess_run command false (world g)) = inl (FileNotFoundError t) ->
     fst (run_gh_command command repo_name g) = SystemExit 1) /\
  subprocess_calls (snd (run_gh_command command repo_name g))
  = subprocess_calls g ++ [command].
Proof.
  destruct (subprocess_run command false (world g)) as [r w] eqn:Hr.
  pose proof (run_gh_command_result command repo_name g r w Hr) as H.
  split; [|split; [|apply run_gh_command_calls]].
  - intros t. rewrite H.
    destruct r as [[t' err|t'|t'|t'|t']|[out err]]; try discriminate.
    destruct (contains "HTTP 404" err &&
              (contains "secret delete" (String.concat " " command) ||
               contains "variable delete" (String.concat " " command))); [discriminate|].
    destruct (contains "flag needs an argument: --body" err); discriminate.
  - intros t Ht. cbn [fst] in Ht. subst r. exact H.
Qed.

(** X11: when the gate lets a set through ([force], or the name not among
    the existing ones), [set_github_secret] and [set_github_variable] return
    [True] when the [gh] command ends with status 0 and [False] when running
    it raises, a missing [--body] value included; the one exception is a
    failure whose standard error mentions [HTTP 404] while the joined
    command contains the text [secret delete] or [variable delete], which
    [run_gh_command] takes for a delete of a missing item. A missing
    executable ends the interpreter with status 1. *)
Theorem set_result (repo name value : string) (force : bool)
    (existing : gset pykey) (g : Globals) :
  force = true \/ KStr name ∉ existing ->
  (forall r w,
     subprocess_run (set_secret_command repo name value) false (world g) = (r, w) ->
     fst (set_github_secret repo name value force existing g)
     = match r with
       | inr _ => Returned true
       | inl (CalledProcessError _ err) =>
           Returned (contains "HTTP 404" err &&
                     (contains "secret delete"
                        (String.concat " " (set_secret_command repo name value)) ||
                      contains "variable delete"
                        (String.concat " " (set_secret_command repo name value))))
       | inl (FileNotFoundError _) => SystemExit 1
       | inl _ => Returned false
       end) /\
  (forall r w,
     subprocess_run (set_variable_command repo name value) false (world g) = (r, w) ->
     fst (set_github_variable repo name value force existing g)
     = match r with
       | inr _ => Returned true
       | inl (CalledProcessError _ err) =>
           Returned (contains "HTTP 404" err &&
                     (contains "secret delete"
                        (String.concat " " (set_variable_command repo name value)) ||
                      contains "variable delete"
                        (String.concat " " (set_variable_command repo name value))))
       | inl (FileNotFoundError _) => SystemExit 1
       | inl _ => Returned false
       end).
Proof.
  intros H.
  assert (Hgate : negb force && bool_decide (KStr name ∈ existing) = false).
  { destruct H as [->|H]; [reflexivity|].
    rewrite (bool_decide_eq_false_2 _ H). apply andb_false_r. }
  split; intros r w Hr.
  - unfold set_github_secret. rewrite Hgate.
    exact (logged_call_result _ _ _ _ _ g r w Hr).
  - unfold set_github_variable. rewrite Hgate.
    exact (logged_call_result _ _ _ _ _ g r w Hr).
Qed.

Lemma fetch_never_raises repo item_type (g : Globals) e :
  fst (_get_existing_items_from_repo repo item_type g) <> Raised e.
Proof.
  unfold _get_existing_items_from_repo.
  destruct (bool_decide (item_type = "secret"));
    [|destruct (bool_decide (item_type = "variable"))];
    try (unfold try_except;
         match goal with |- context [match ?m g with _ => _ end] =>
           destruct (m g) as [[x|e'|c] g1] end;
         unfold bind, add_log, exec, ret; cbn [fst]; discriminate).
  unfold bind, add_log, exec, ret. cbn [fst]. discriminate.
Qed.

Lemma guarded_fetch_calls repo command (k : string -> M (gset pykey))
    (h : PyException -> M (gset pykey)) (g : Globals) :
  (forall s, respects same_calls (k s)) ->
  (forall e, respects same_calls (h e)) ->
  subprocess_calls (snd (try_except (s <- run_gh_command command (Some repo);; k s) h g))
  = subprocess_calls g ++ [command].
Proof.
  intros Hk Hh. unfold try_except. rewrite bind_apply.
  pose proof (run_gh_command_calls command (Some repo) g) as Hc.
  destruct (run_gh_command command (Some repo) g) as [[s|e'|c] g1]; cbn [snd] in Hc.
  - pose proof (Hk s g1) as H1. unfold same_calls in H1.
    destruct (k s g1) as [[x|e'|c] g2]; cbn [snd] in *.
    + rewrite H1. exact Hc.
    + rewrite (Hh e' g2), H1. exact Hc.
    + rewrite H1. exact Hc.
  - rewrite (Hh e' g1). exact Hc.
  - exact Hc.
Qed.

Lemma list_repository_secrets_calls repo (g : Globals) :
  subprocess_calls (snd (list_repository_secrets repo g))
  = subprocess_calls g ++ [["gh"; "secret"; "list"; "--repo"; repo; "--json"; "name"]].
Proof.
  unfold list_repository_secrets, _get_existing_items_from_repo.
  rewrite bool_decide_eq_true_2 by reflexivity.
  apply guarded_fetch_calls.
  - intros s. destruct (negb (truthy s)); [respects_steps same_calls_log|].
    apply respects_bind; [exact _ | |].
    + unfold parse_json_string. destruct (json_loads s); respects_steps same_calls_log.
    + intros data. destruct data; try destruct (existing_names _);
        respects_steps same_calls_log.
  - intros e'. respects_steps same_calls_log.
Qed.

Lemma list_repository_variables_calls repo (g : Globals) :
  subprocess_calls (snd (list_repository_variables repo g))
  = subprocess_calls g ++ [["gh"; "variable"; "list"; "--repo"; repo; "--json"; "name"]].
Proof.
  unfold list_repository_variables, _get_existing_items_from_repo.
  rewrite bool_decide_eq_false_2 by discriminate.
  rewrite bool_decide_eq_true_2 by reflexivity.
  apply guarded_fetch_calls.
  - intros s. destruct (negb (truthy s)); [respects_steps same_calls_log|].
    apply respects_bind; [exact _ | |].
    + unfold parse_json_string. destruct (json_loads s); respects_steps same_calls_log.
    + intros data. destruct data; try destruct (existing_names _);
        respects_steps same_calls_log.
  - intros e'. respects_steps same_calls_log.
Qed.

(** X12: [_get_existing_items_from_repo] never raises, whatever the tool
    and the decoder do; with an item type other than [secret] and
    [variable] it returns the empty set without handing any command to the
    tool; for each of the two types it hands the tool exactly one command,
    the [list] command of that type for the repository. *)
Theorem fetch_is_guarded (repo item_type : string) (g : Globals) :
  (forall e, fst (_get_existing_items_from_repo repo item_type g) <> Raised e) /\
  (item_type <> "secret" -> item_type <> "variable" ->
     fst (_get_existing_items_from_repo repo item_type g) = Returned ∅ /\
     subprocess_calls (snd (_get_existing_items_from_repo repo item_type g))
     = subprocess_calls g /\
     world (snd (_get_existing_items_from_repo repo item_type g)) = world g) /\
  subprocess_calls (snd (list_repository_secrets repo g))
  = subprocess_calls g ++ [["gh"; "secret"; "list"; "--repo"; repo; "--json"; "name"]] /\
  subprocess_calls (snd (list_repository_variables repo g))
  = subprocess_calls g ++ [["gh"; "variable"; "list"; "--repo"; repo; "--json"; "name"]].
Proof.
  split; [intros e; apply fetch_never_raises|]. split.
  { intros H1 H2. unfold _get_existing_items_from_repo.
    rewrite (bool_decide_eq_false_2 _ H1), (bool_decide_eq_false_2 _ H2).
    unfold bind, add_log, exec, ret. cbn [fst snd].
    rewrite calls_add_log_entry, world_add_log_entry. repeat split. }
  split; [apply list_repository_secrets_calls | apply list_repository_variables_calls].
Qed.

Lemma fetch_result command label repo (g : Globals) r w
    (k := fun stdout_str : string =>
       if negb (truthy stdout_str)
       then
         add_log (Some repo) ("[" +:+ repo +:+ "] Warning: " +:+ label +:+
           " list for repository '" +:+ repo +:+ "' is empty or could not be retrieved.");;
         ret (∅ : gset pykey)
       else
         data <- parse_json_string stdout_str
                   (label +:+ " list for repository '" +:+ repo +:+ "'") None;;
         match data with
         | JNull =>
             add_log (Some repo) ("[" +:+ repo +:+ "] Warning: Failed to parse " +:+
               label +:+ " JSON for repository '" +:+ repo +:+ "'.");;
             ret ∅
         | _ =>
             match existing_names data with
             | inl e => raise e
             | inr names => ret names
             end
         end)
    (h := fun e : PyException =>
       add_log (Some repo) ("[" +:+ repo +:+ "] Warning: Failed to retrieve " +:+
         label +:+ " list for repository '" +:+ repo +:+ "': " +:+
         exception_text e);;
       ret (∅ : gset pykey)) :
  subprocess_run command false (world g) = (r, w) ->
  fst (try_except (s <- run_gh_command command (Some repo);; k s) h g)
  = match r with
    | inr (out, _) =>
        if truthy out
        then match json_loads out with
             | JsonValue data =>
                 match existing_names data with
                 | inr names => Returned names
                 | inl _ => Returned ∅
                 end
             | _ => Returned ∅
             end
        else Returned ∅
    | inl (FileNotFoundError _) => SystemExit 1
    | inl _ => Returned ∅
    end.
Proof.
  intros Hr. unfold try_except. rewrite bind_apply.
  pose proof (run_gh_command_result command (Some repo) g r w Hr) as Hres.
  destruct (run_gh_command command (Some repo) g) as [o g1]. cbn [fst] in Hres. subst o.
  assert (Hk : forall s g0,
            fst (match k s g0 with
                 | (Raised e, g2) => h e g2
                 | other => other
                 end)
            = if truthy s
              then match json_loads s with
                   | JsonValue data =>
                       match existing_names data with
                       | inr names => Returned names
                       | inl _ => Returned ∅
                       end
                   | _ => Returned ∅
                   end
              else Returned ∅).
  { intros s g0. unfold k, h. destruct (truthy s); cbn [negb]; [|reflexivity].
    rewrite bind_apply. unfold parse_json_string.
    destruct (json_loads s) as [data|t|t]; [|reflexivity|reflexivity].
    unfold ret at 1. cbn beta iota.
    destruct data; try reflexivity;
      match goal with |- context [existing_names ?d] =>
        destruct (existing_names d) end; reflexivity. }
  destruct r as [[t err|t|t|t|t]|[out err]]; try reflexivity.
  - destruct (contains "HTTP 404" err &&
              (contains "secret delete" (String.concat " " command) ||
               contains "variable delete" (String.concat " " command))).
    + exact (Hk "" g1).
    + destruct (contains "flag needs an argument: --body" err); reflexivity.
  - exact (Hk out g1).
Qed.

(** X13: what a fetch returns. When the [list] command ends with status 0
    and prints a text that [json.loads] decodes, [list_repository_secrets]
    and [list_repository_variables] return the names the comprehension
    collects from the decoded value; in every other case (the command
    fails, it prints nothing, the text is not JSON, or collecting the names
    raises) they return the empty set; only a missing executable ends the
    interpreter, with status 1. *)
Theorem fetch_returns (repo : string) (g : Globals) :
  (forall r w,
     subprocess_run ["gh"; "secret"; "list"; "--repo"; repo; "--json"; "name"] false
       (world g) = (r, w) ->
     fst (list_repository_secrets repo g)
     = match r with
       | inr (out, _) =>
           if truthy out
           then match json_loads out with
                | JsonValue data =>
                    match existing_names data with
                    | inr names => Returned names
                    | inl _ => Returned ∅
                    end
                | _ => Returned ∅
                end
           else Returned ∅
       | inl (FileNotFoundError _) => SystemExit 1
       | inl _ => Returned ∅
       end) /\
  (forall r w,
     subprocess_run ["gh"; "variable"; "list"; "--repo"; repo; "--json"; "name"] false
       (world g) = (r, w) ->
     fst (list_repository_variables repo g)
     = match r with
       | inr (out, _) =>
           if truthy out
           then match json_loads out with
                | JsonValue data =>
                    match existing_names data with
                    | inr names => Returned names
                    | inl _ => Returned ∅
                    end
                | _ => Returned ∅
                end
           else Returned ∅
       | inl (FileNotFoundError _) => SystemExit 1
       | inl _ => Returned ∅
       end).
Proof.
  split; intros r w Hr.
  - unfold list_repository_secrets, _get_existing_items_from_repo.
    rewrite bool_decide_eq_true_2 by reflexivity.
    exact (fetch_result _ "Secret" repo g r w Hr).
  - unfold list_repository_variables, _get_existing_items_from_repo.
    rewrite bool_decide_eq_false_2 by discriminate.
    rewrite bool_decide_eq_true_2 by reflexivity.
    exact (fetch_result _ "Variable" repo g r w Hr).
Qed.

Lemma collect_names_objects (items : list json) (names : list string) (acc : gset pykey) :
  Forall2 (fun item n => exists fields,
             item = JObj fields /\
             snd <$> List.find (fun kv => bool_decide (fst kv = "name")) fields
             = Some (JStr n)) items names ->
  collect_names items acc = inr (list_to_set (KStr <$> names) ∪ acc).
Proof.
  intros H. revert acc. induction H as [|item n items names (fields & -> & Hf) _ IH];
    intros acc.
  - cbn [collect_names fmap list_fmap list_to_set foldr].
    rewrite (left_id_L ∅ (∪)). reflexivity.
  - cbn [collect_names name_in name_key]. rewrite Hf.
    rewrite bool_decide_eq_true_2.
    + rewrite IH, fmap_cons, list_to_set_cons. f_equal.
      rewrite (assoc_L (∪)), (comm_L (∪) (list_to_set (KStr <$> names))). reflexivity.
    + destruct (List.find (fun kv => bool_decide (fst kv = "name")) fields) as [kv|] eqn:E;
        [|discriminate].
      apply find_some in E as [Hin Hk]. apply bool_decide_eq_true_1 in Hk.
      rewrite <- Hk. apply list_elem_of_fmap. exists kv. split; [reflexivity|].
      apply list_elem_of_In. exact Hin.
Qed.

(** X14: on the shape [gh ... list --json name] prints, a list of objects
    whose [name] is a string, the comprehension collects exactly those
    names, each once whatever the repetitions and the other fields of the
    objects; the members of the set are then all [str], and their
    intersection with a delete list is the requested names that are among
    them. *)
Theorem existing_names_of_objects (items : list json) (names : list string) :
  Forall2 (fun item n => exists fields,
             item = JObj fields /\
             snd <$> List.find (fun kv => bool_decide (fst kv = "name")) fields
             = Some (JStr n)) items names ->
  existing_names (JArr items) = inr (list_to_set (KStr <$> names)) /\
  str_keys (list_to_set (KStr <$> names)) = list_to_set names /\
  forall delete_list,
    to_actually_delete delete_list (list_to_set (KStr <$> names))
    = list_to_set delete_list ∩ list_to_set names.
Proof.
  intros H.
  assert (Hk : str_keys (list_to_set (KStr <$> names)) = list_to_set names).
  { apply leibniz_equiv. intros n. rewrite elem_of_str_keys, !elem_of_list_to_set.
    rewrite list_elem_of_fmap. split.
    - intros (n' & [= ->] & Hn). exact Hn.
    - intros Hn. exists n. split; [reflexivity | exact Hn]. }
  split; [|split; [exact Hk|]].
  - unfold existing_names. cbn [iter_items].
    rewrite (collect_names_objects items names ∅ H), (right_id_L ∅ (∪)). reflexivity.
  - intros delete_list. unfold to_actually_delete. rewrite Hk. reflexivity.
Qed.

(** ** The commands of one run of the task runner *)

Lemma log_and_fetch_calls repo (g g1 : Globals) x :
  _log_and_fetch_existing_repo_items repo g = (Returned x, g1) ->
  subprocess_calls g1 = subprocess_calls g ++ list_commands repo.
Proof.
  intros H. unfold _log_and_fetch_existing_repo_items in H. rewrite bind_apply in H.
  pose proof (list_repository_secrets_calls repo g) as H1.
  destruct (list_repository_secrets repo g) as [[Es|e|c] g2]; try discriminate.
  cbn [snd] in H1. rewrite bind_apply in H.
  pose proof (respects_log_existing same_calls same_calls_log repo "Secrets" "🔑" Es g2)
    as H2.
  destruct (log_existing repo "Secrets" "🔑" Es g2) as [[u|e|c] g3]; try discriminate.
  cbn [snd] in H2. rewrite bind_apply in H.
  pose proof (list_repository_variables_calls repo g3) as H3.
  destruct (list_repository_variables repo g3) as [[Ev|e|c] g4]; try discriminate.
  cbn [snd] in H3. rewrite bind_apply in H.
  pose proof (respects_log_existing same_calls same_calls_log repo "Variables" "⚙️" Ev g4)
    as H4.
  destruct (log_existing repo "Variables" "⚙️" Ev g4) as [[u'|e|c] g5]; try discriminate.
  cbn [snd] in H4. unfold ret in H. injection H as _ <-.
  unfold same_calls in H2, H4. rewrite H4, H3, H2, H1, <- app_assoc. reflexivity.
Qed.

Lemma for_each_returned {A} (f : A -> M bool) (cmds : A -> list (list string)) :
  (forall x g, subprocess_calls (snd (f x g)) = subprocess_calls g ++ cmds x) ->
  forall items b (g : Globals) b' g',
    for_each f items b g = (Returned b', g') ->
    subprocess_calls g' = subprocess_calls g ++ concat (cmds <$> items).
Proof.
  intros Hcalls items. induction items as [|x rest IH]; intros b g b' g' H.
  - cbn in H. unfold ret in H. injection H as _ <-. cbn. rewrite app_nil_r. reflexivity.
  - rewrite for_each_cons in H. pose proof (Hcalls x g) as Hx.
    destruct (f x g) as [[ok|e|c] g1]; try discriminate. cbn [snd] in Hx.
    rewrite (IH _ _ _ _ H), Hx, fmap_cons. cbn [concat]. rewrite <- app_assoc. reflexivity.
Qed.

Lemma for_each_not_raised {A} (f : A -> M bool) :
  (forall x g e, fst (f x g) <> Raised e) ->
  forall items b (g : Globals) e, fst (for_each f items b g) <> Raised e.
Proof.
  intros Hnr items. induction items as [|x rest IH]; intros b g e; [discriminate|].
  rewrite for_each_cons. pose proof (Hnr x g) as Hx.
  destruct (f x g) as [[ok|e'|c] g1]; cbn [fst] in *;
    [apply IH | apply Hx | discriminate].
Qed.

Lemma concat_gated {A B} (p : A -> bool) (c : A -> B) (l : list A) :
  concat ((fun x => if p x then [c x] else []) <$> l) = c <$> List.filter p l.
Proof.
  induction l as [|x l IH]; [reflexivity|].
  rewrite fmap_cons. cbn [concat List.filter]. rewrite IH.
  destruct (p x); reflexivity.
Qed.

Lemma set_github_secret_calls_gated repo n v force E (g : Globals) :
  subprocess_calls (snd (set_github_secret repo n v force E g))
  = subprocess_calls g ++
    (if force || negb (bool_decide (KStr n ∈ E)) then [set_secret_command repo n v] else []).
Proof.
  destruct force; [apply set_github_secret_issues; left; reflexivity|].
  destruct (decide (KStr n ∈ E)) as [Hin|Hout].
  - rewrite (set_github_secret_skips repo n v E g Hin), (bool_decide_eq_true_2 _ Hin).
    cbn [snd orb negb]. rewrite calls_add_log_entry, app_nil_r. reflexivity.
  - rewrite (bool_decide_eq_false_2 _ Hout). apply set_github_secret_issues.
    right. exact Hout.
Qed.

Lemma set_github_variable_calls_gated repo n v force E (g : Globals) :
  subprocess_calls (snd (set_github_variable repo n v force E g))
  = subprocess_calls g ++
    (if force || negb (bool_decide (KStr n ∈ E)) then [set_variable_command repo n v] else []).
Proof.
  destruct force; [apply set_github_variable_issues; left; reflexivity|].
  destruct (decide (KStr n ∈ E)) as [Hin|Hout].
  - rewrite (set_github_variable_skips repo n v E g Hin), (bool_decide_eq_true_2 _ Hin).
    cbn [snd orb negb]. rewrite calls_add_log_entry, app_nil_r. reflexivity.
  - rewrite (bool_decide_eq_false_2 _ Hout). apply set_github_variable_issues.
    right. exact Hout.
Qed.

Lemma set_github_secret_not_raised repo n v force E (g : Globals) e :
  fst (set_github_secret repo n v force E g) <> Raised e.
Proof.
  unfold set_github_secret.
  destruct (negb force && bool_decide (KStr n ∈ E)); [discriminate|].
  apply logged_call_not_raised.
Qed.

Lemma set_github_variable_not_raised repo n v force E (g : Globals) e :
  fst (set_github_variable repo n v force E g) <> Raised e.
Proof.
  unfold set_github_variable.
  destruct (negb force && bool_decide (KStr n ∈ E)); [discriminate|].
  apply logged_call_not_raised.
Qed.

Lemma set_phase_returned repo header (set_one : string * string -> M bool)
    (cmds : string * string -> list (list string)) to_set b (g g' : Globals) b' :
  (forall kv g, subprocess_calls (snd (set_one kv g)) = subprocess_calls g ++ cmds kv) ->
  set_phase repo header set_one to_set b g = (Returned b', g') ->
  subprocess_calls g' = subprocess_calls g ++ concat (cmds <$> to_set).
Proof.
  intros Hcalls H. unfold set_phase in H. destruct to_set as [|kv rest] eqn:E.
  - unfold ret in H. injection H as _ <-. cbn. rewrite app_nil_r. reflexivity.
  - rewrite <- E in *. rewrite bind_apply in H. unfold add_log at 1, exec at 1 in H.
    cbn beta iota in H.
    rewrite (for_each_returned set_one cmds Hcalls _ _ _ _ _ H), calls_add_log_entry.
    reflexivity.
Qed.

Lemma set_phase_not_raised repo header (set_one : string * string -> M bool)
    to_set b (g : Globals) e :
  (forall kv g e, fst (set_one kv g) <> Raised e) ->
  fst (set_phase repo header set_one to_set b g) <> Raised e.
Proof.
  intros Hnr. unfold set_phase. destruct to_set as [|kv rest]; [discriminate|].
  rewrite bind_apply. unfold add_log at 1, exec at 1. cbn beta iota.
  apply for_each_not_raised. exact Hnr.
Qed.

Lemma delete_phase_returned repo found nothing (delete_one : string -> M bool)
    (cmd : string -> list string) delete_list (E : gset pykey) b (g g' : Globals) b' :
  set_order_spec ->
  (forall n g, subprocess_calls (snd (delete_one n g)) = subprocess_calls g ++ [cmd n]) ->
  (forall n g e, fst (delete_one n g) <> Raised e) ->
  delete_phase repo found nothing delete_one delete_list
    (to_actually_delete delete_list E) b g = (Returned b', g') ->
  subprocess_calls g'
  = subprocess_calls g ++ (cmd <$> set_order (to_actually_delete delete_list E)).
Proof.
  intros Hord Hcalls Hnr H.
  destruct (delete_phase_calls repo found nothing delete_one cmd delete_list E b g
              Hord Hcalls Hnr) as (att & Ec & _ & _ & Hall).
  rewrite H in Ec, Hall. cbn [fst snd] in *.
  rewrite Ec, (Hall ltac:(discriminate)). reflexivity.
Qed.

(** X17: the commands of one run of [process_single_repository], in order.
    Let the first fetch return the sets [Es] and [Ev], ending in [g1], and
    the run not be cut short by an exit of the interpreter. Then the two
    delete phases, run from [g1], return; in the state [g3] they end in,
    the tool has received the two [list] commands followed by the delete
    commands for the requested names that exist in [Es] and [Ev]. The
    second fetch is the one made in [g3], after the deletions: if it
    returns [Es'] and [Ev'], the run ends with the two [list] commands
    again followed by the [set] commands of exactly the items the gate lets
    through with respect to [Es'] and [Ev'], secrets first, each dict in
    its order; if it raises, nothing is set and the run returns [False]. *)
Theorem process_single_repository_call_trace (repo : string) (Ds Dv : list string)
    (S V : list (string * string)) (force : bool) (g g1 : Globals)
    (Es Ev : gset pykey) :
  set_order_spec ->
  _log_and_fetch_existing_repo_items repo g = (Returned (Es, Ev), g1) ->
  (forall c, fst (process_single_repository repo Ds Dv S V force g) <> SystemExit c) ->
  let after_deletes :=
    (overall_success <- delete_secrets_phase repo Ds Es true;;
     delete_variables_phase repo Dv Ev overall_success) g1 in
  let g3 := snd after_deletes in
  (exists b, fst after_deletes = Returned b) /\
  subprocess_calls g3
  = subprocess_calls g ++ list_commands repo ++ expected_deletions repo Ds Dv Es Ev /\
  match _log_and_fetch_existing_repo_items repo g3 with
  | (Returned (Es', Ev'), _) =>
      subprocess_calls (snd (process_single_repository repo Ds Dv S V force g))
      = subprocess_calls g3 ++ list_commands repo ++ expected_sets repo S V force Es' Ev'
  | (Raised _, g4) =>
      fst (process_single_repository repo Ds Dv S V force g) = Returned false /\
      subprocess_calls (snd (process_single_repository repo Ds Dv S V force g))
      = subprocess_calls g4
  | (SystemExit _, _) => False
  end.
Proof.
  intros Hord Hfetch Hne after_deletes g3. subst g3 after_deletes.
  remember (process_single_repository repo Ds Dv S V force g) as out eqn:Hout.
  rewrite process_single_repository_phases in Hout. unfold try_except in Hout.
  rewrite bind_apply, Hfetch in Hout. cbn beta iota in Hout.
  rewrite bind_apply in Hout.
  rewrite (bind_apply (delete_secrets_phase repo Ds Es true)).
  assert (Hnr1 : forall e, fst (delete_secrets_phase repo Ds Es true g1) <> Raised e).
  { destruct (delete_phase_calls repo
                "    Secrets to delete (existing and requested): "
                "    No secrets found to delete from the repository (intersection with requested list is empty)."
                (delete_github_secret repo) (delete_secret_command repo) Ds Es true g1 Hord
                (delete_github_secret_calls repo)
                (fun n g e => logged_call_not_raised _ _ _ _ _ g e))
      as (att & _ & _ & Hnr & _). exact Hnr. }
  destruct (delete_secrets_phase repo Ds Es true g1) as [[b1|e|c] g2] eqn:E1.
  2: { exfalso. apply (Hnr1 e). reflexivity. }
  2: { exfalso. apply (Hne c). rewrite Hout. reflexivity. }
  assert (Hc2 : subprocess_calls g2
                = subprocess_calls g1 ++
                  (delete_secret_command repo <$> set_order (to_actually_delete Ds Es))).
  { exact (delete_phase_returned repo _ _ (delete_github_secret repo)
             (delete_secret_command repo) Ds Es true g1 g2 b1 Hord
             (delete_github_secret_calls repo)
             (fun n g e => logged_call_not_raised _ _ _ _ _ g e) E1). }
  rewrite bind_apply in Hout.
  assert (Hnr2 : forall e, fst (delete_variables_phase repo Dv Ev b1 g2) <> Raised e).
  { destruct (delete_phase_calls repo
                "    Variables to delete (existing and requested): "
                "    No variables found to delete from the repository (intersection with requested list is empty)."
                (delete_github_variable repo) (delete_variable_command repo) Dv Ev b1 g2 Hord
                (delete_github_variable_calls repo)
                (fun n g e => logged_call_not_raised _ _ _ _ _ g e))
      as (att & _ & _ & Hnr & _). exact Hnr. }
  destruct (delete_variables_phase repo Dv Ev b1 g2) as [[b2|e|c] g3] eqn:E2.
  2: { exfalso. apply (Hnr2 e). reflexivity. }
  2: { exfalso. apply (Hne c). rewrite Hout. reflexivity. }
  assert (Hc3 : subprocess_calls g3
                = subprocess_calls g2 ++
                  (delete_variable_command repo <$> set_order (to_actually_delete Dv Ev))).
  { exact (delete_phase_returned repo _ _ (delete_github_variable repo)
             (delete_variable_command repo) Dv Ev b1 g2 g3 b2 Hord
             (delete_github_variable_calls repo)
             (fun n g e => logged_call_not_raised _ _ _ _ _ g e) E2). }
  cbn [fst snd]. split; [exists b2; reflexivity|]. split.
  { rewrite Hc3, Hc2, (log_and_fetch_calls repo g g1 _ Hfetch). unfold expected_deletions.
    rewrite <- !app_assoc. reflexivity. }
  unfold set_phases in Hout. rewrite bind_apply in Hout.
  destruct (_log_and_fetch_existing_repo_items repo g3) as [[[Es' Ev']|e|c] g4] eqn:Hf2.
  - cbn beta iota in Hout. rewrite bind_apply in Hout.
    match type of Hout with context [set_phase ?r ?h ?f ?l ?b ?g0] =>
      pose proof (fun e => set_phase_not_raised r h f l b g0 e
                    (fun kv g e => set_github_secret_not_raised _ _ _ _ _ g e)) as Hnr3;
      destruct (set_phase r h f l b g0) as [[b3|e|c] g5] eqn:E3
    end.
    2: { exfalso. apply (Hnr3 e). reflexivity. }
    2: { exfalso. apply (Hne c). rewrite Hout. reflexivity. }
    rewrite bind_apply in Hout.
    match type of Hout with context [set_phase ?r ?h ?f ?l ?b ?g0] =>
      pose proof (fun e => set_phase_not_raised r h f l b g0 e
                    (fun kv g e => set_github_variable_not_raised _ _ _ _ _ g e)) as Hnr4;
      destruct (set_phase r h f l b g0) as [[b4|e|c] g6] eqn:E4
    end.
    2: { exfalso. apply (Hnr4 e). reflexivity. }
    2: { exfalso. apply (Hne c). rewrite Hout. reflexivity. }
    pose proof (set_phase_returned repo _ _
                  (fun kv => if force || negb (bool_decide (KStr (fst kv) ∈ Es'))
                             then [set_secret_command repo (fst kv) (snd kv)] else [])
                  S b2 g4 g5 b3
                  (fun kv g => set_github_secret_calls_gated repo _ _ force Es' g) E3) as Hc5.
    pose proof (set_phase_returned repo _ _
                  (fun kv => if force || negb (bool_decide (KStr (fst kv) ∈ Ev'))
                             then [set_variable_command repo (fst kv) (snd kv)] else [])
                  V b3 g5 g6 b4
                  (fun kv g => set_github_variable_calls_gated repo _ _ force Ev' g) E4)
      as Hc6.
    rewrite (concat_gated
               (fun kv : string * string =>
                  force || negb (bool_decide (KStr (fst kv) ∈ Es')))
               (fun kv => set_secret_command repo (fst kv) (snd kv))) in Hc5.
    rewrite (concat_gated
               (fun kv : string * string =>
                  force || negb (bool_decide (KStr (fst kv) ∈ Ev')))
               (fun kv => set_variable_command repo (fst kv) (snd kv))) in Hc6.
    assert (Hend : subprocess_calls (snd out) = subprocess_calls g6).
    { rewrite Hout, bind_apply. unfold closing_log.
      destruct b4; unfold add_log, exec, ret; cbn [fst snd]; apply calls_add_log_entry. }
    rewrite Hend, Hc6, Hc5, (log_and_fetch_calls repo g3 g4 _ Hf2).
    unfold expected_sets, let_through. rewrite <- !app_assoc. reflexivity.
  - split.
    + rewrite Hout. reflexivity.
    + rewrite Hout. apply (respects_fatal_handler same_calls repo e same_calls_log g4).
  - apply (Hne c). rewrite Hout. reflexivity.
Qed.

(** * Further properties of the sequential scheduler *)

Lemma turn_finally_returns repo (g : Globals) : fst (turn_finally repo g) = Returned tt.
Proof. reflexivity. Qed.

Lemma turn_pause_returns config i (g : Globals) :
  fst (turn_pause config i g) = Returned tt.
Proof.
  unfold turn_pause.
  destruct (Z.of_nat i <? Z.of_nat (length (repositories config)) - 1)%Z; [|reflexivity].
  rewrite bind_apply. unfold stop_event_is_set.
  destruct (stop_event g); [reflexivity|].
  destruct (listener_has_set (world g)) as [[] w]; reflexivity.
Qed.

Lemma sequential_iteration_run config f i repo (g g1 : Globals) :
  stop_event_is_set g = (Returned false, g1) ->
  sequential_iteration config f i repo g
  = match turn_body config f repo (turn_start repo g1) with
    | (Returned _, g3) =>
        (Returned Continue, snd (turn_pause config i (snd (turn_finally repo g3))))
    | (Raised e, g3) => (Raised e, snd (turn_finally repo g3))
    | (SystemExit c, g3) => (SystemExit c, snd (turn_finally repo g3))
    end.
Proof.
  intros Hstop. rewrite sequential_iteration_parts, bind_apply, Hstop. cbn beta iota.
  rewrite bind_apply. unfold add_log at 1, exec at 1. cbn beta iota.
  fold (turn_start repo g1). rewrite bind_apply. unfold try_finally.
  destruct (turn_body config f repo (turn_start repo g1)) as [r g3].
  pose proof (turn_finally_returns repo g3) as Hfin.
  destruct (turn_finally repo g3) as [o g4]. cbn [fst snd] in *. subst o.
  destruct r as [u|e|c]; try reflexivity.
  rewrite bind_apply.
  pose proof (turn_pause_returns config i g4) as Hp.
  destruct (turn_pause config i g4) as [o g5]. cbn [fst snd] in *. subst o.
  reflexivity.
Qed.

Lemma turn_body_run config f repo (g : Globals) :
  turn_body config f repo g
  = match f repo (delete_secrets config) (delete_variables config)
            (secrets_to_set config) (variables_to_set config) (force config) g with
    | (Returned b, g1) => (Returned tt, set_repository_status repo b g1)
    | (Raised e, g1) =>
        (Returned tt,
         set_repository_status repo false
           (add_log_entry (Some repo)
              ("❌ Error processing repository '" +:+ repo +:+ "': " +:+ exception_text e)
              true false g1))
    | (SystemExit c, g1) => (SystemExit c, g1)
    end.
Proof.
  unfold turn_body, try_except. rewrite bind_apply.
  destruct (f repo (delete_secrets config) (delete_variables config)
              (secrets_to_set config) (variables_to_set config) (force config) g)
    as [[b|e|c] g1]; reflexivity.
Qed.

(** X15: what one turn of the sequential loop records. Let the dispatch
    check find the event clear and the repository be tracked, and let the
    processor leave the tracker alone. If the processor returns [b], the
    turn ends normally and the tracker holds [b] for the repository, with
    lifecycle Completed when [b] is true and Failed when it is false; if
    the processor raises an exception, the turn still ends normally, with
    [False] and Failed recorded; if the processor ends the interpreter,
    the turn ends the same way after its [finally] block and the tracker
    is as before the turn. *)
Theorem sequential_turn_records_result (config : GitHubOperationConfig) (f : Processor)
    (i : nat) (repo : string) (g g1 : Globals) :
  keeps_tracker f ->
  is_Some (_repo_statuses g !! repo) ->
  stop_event_is_set g = (Returned false, g1) ->
  match fst (f repo (delete_secrets config) (delete_variables config)
               (secrets_to_set config) (variables_to_set config) (force config)
               (turn_start repo g1)) with
  | Returned b =>
      fst (sequential_iteration config f i repo g) = Returned Continue /\
      _repo_statuses (snd (sequential_iteration config f i repo g)) !! repo
      = Some (mkRepoStatus b (if b then Completed else Failed))
  | Raised _ =>
      fst (sequential_iteration config f i repo g) = Returned Continue /\
      _repo_statuses (snd (sequential_iteration config f i repo g)) !! repo
      = Some (mkRepoStatus false Failed)
  | SystemExit c =>
      fst (sequential_iteration config f i repo g) = SystemExit c /\
      _repo_statuses (snd (sequential_iteration config f i repo g)) = _repo_statuses g
  end.
Proof.
  intros Hf [rs Hrs] Hstop.
  pose proof (same_tracker_stop_event_is_set g) as Hs. rewrite Hstop in Hs. cbn [snd] in Hs.
  assert (Hstart : _repo_statuses (turn_start repo g1) = _repo_statuses g).
  { unfold turn_start. rewrite statuses_add_log_entry. exact Hs. }
  rewrite (sequential_iteration_run config f i repo g g1 Hstop), turn_body_run.
  pose proof (Hf repo (delete_secrets config) (delete_variables config)
                (secrets_to_set config) (variables_to_set config) (force config)
                (turn_start repo g1)) as Hg.
  destruct (f repo (delete_secrets config) (delete_variables config)
              (secrets_to_set config) (variables_to_set config) (force config)
              (turn_start repo g1)) as [[b|e|c] g3]; cbn [fst snd] in *.
  - split; [reflexivity|].
    rewrite (same_tracker_turn_pause config i _), (same_tracker_turn_finally repo _).
    rewrite statuses_set_repository_status, Hg, Hstart, Hrs. apply lookup_insert_eq.
  - split; [reflexivity|].
    rewrite (same_tracker_turn_pause config i _), (same_tracker_turn_finally repo _).
    rewrite statuses_set_repository_status, statuses_add_log_entry, Hg, Hstart, Hrs.
    apply lookup_insert_eq.
  - split; [reflexivity|].
    rewrite (same_tracker_turn_finally repo _), Hg. exact Hstart.
Qed.


#[local] Instance keeps_event_clear_refl : Reflexive keeps_event_clear.
Proof. intros g H. exact H. Qed.

#[local] Instance keeps_event_clear_trans : Transitive keeps_event_clear.
Proof. intros g1 g2 g3 H12 H23 H. apply H23, H12, H. Qed.

#[local] Instance same_names_refl : Reflexive same_names.
Proof. intros g. reflexivity. Qed.

#[local] Instance same_names_trans : Transitive same_names.
Proof. intros g1 g2 g3 H12 H23. unfold same_names in *. congruence. Qed.

Lemma process_single_repository_leaves_event repo Ds Dv S V force :
  respects keeps_event_clear (process_single_repository repo Ds Dv S V force).
Proof.
  apply respects_process_single_repository; [exact _ | exact _ | |].
  - intros grp m st pr g H. rewrite stop_event_add_log_entry. exact H.
  - intros c g H. unfold run_subprocess.
    destruct (subprocess_run c false (world (record_call c g))) as [[e|out] w];
      cbn [snd]; exact H.
Qed.

Lemma stop_check_clear (g : Globals) :
  listener_silent -> stop_event g = false ->
  stop_event_is_set g = (Returned false, snd (stop_event_is_set g)) /\
  stop_event (snd (stop_event_is_set g)) = false.
Proof.
  intros Hl Hc. unfold stop_event_is_set. rewrite Hc. specialize (Hl (world g)).
  destruct (listener_has_set (world g)) as [b w]. cbn [fst] in Hl. subst b.
  split; reflexivity.
Qed.

Lemma stop_event_set_repository_status repo b (g : Globals) :
  stop_event (set_repository_status repo b g) = stop_event g.
Proof. unfold set_repository_status. destruct (_repo_statuses g !! repo); reflexivity. Qed.

Lemma stop_event_turn_finally repo (g : Globals) :
  stop_event (snd (turn_finally repo g)) = stop_event g.
Proof.
  change (snd (turn_finally repo g))
    with (clear_group_log_entries repo (snd (flush_group repo g))).
  transitivity (stop_event (snd (flush_group repo g))).
  { unfold clear_group_log_entries.
    destruct (_all_group_logs (snd (flush_group repo g)) !! repo); reflexivity. }
  unfold flush_group. cbn [snd].
  generalize (get_group_log_entries repo g). intros msgs.
  revert g. induction msgs as [|msg msgs IH]; intros g; [reflexivity|].
  cbn [foldl]. rewrite IH. apply stop_event_add_log_entry.
Qed.

Lemma stop_event_turn_pause config i (g : Globals) :
  listener_silent -> stop_event g = false ->
  stop_event (snd (turn_pause config i g)) = false.
Proof.
  intros Hl Hc. unfold turn_pause.
  destruct (Z.of_nat i <? Z.of_nat (length (repositories config)) - 1)%Z; [|exact Hc].
  rewrite bind_apply. destruct (stop_check_clear g Hl Hc) as [E Hc1]. rewrite E.
  cbn [negb]. rewrite bind_apply. unfold add_log, exec, sleep. cbn [snd].
  change (stop_event (add_log_entry None "[INFO] To abort, type 'q' and press Enter."
                        true false (snd (stop_event_is_set g))) = false).
  rewrite stop_event_add_log_entry. exact Hc1.
Qed.

Lemma sequential_turn_runs config f i repo (g : Globals) :
  listener_silent -> leaves_event f -> never_exits f -> stop_event g = false ->
  exists g', sequential_iteration config f i repo g = (Returned Continue, g') /\
             stop_event g' = false.
Proof.
  intros Hl Hle Hne Hc. destruct (stop_check_clear g Hl Hc) as [E Hc1].
  rewrite (sequential_iteration_run config f i repo g _ E), turn_body_run.
  assert (Hc2 : stop_event (turn_start repo (snd (stop_event_is_set g))) = false).
  { unfold turn_start. rewrite stop_event_add_log_entry. exact Hc1. }
  pose proof (Hle repo (delete_secrets config) (delete_variables config)
                (secrets_to_set config) (variables_to_set config) (force config)
                (turn_start repo (snd (stop_event_is_set g))) Hc2) as He.
  pose proof (Hne repo (delete_secrets config) (delete_variables config)
                (secrets_to_set config) (variables_to_set config) (force config)
                (turn_start repo (snd (stop_event_is_set g)))) as Hx.
  destruct (f repo (delete_secrets config) (delete_variables config)
              (secrets_to_set config) (variables_to_set config) (force config)
              (turn_start repo (snd (stop_event_is_set g)))) as [[b|e|c] g3];
    cbn [fst snd] in *.
  - eexists. split; [reflexivity|]. apply stop_event_turn_pause; [exact Hl|].
    rewrite stop_event_turn_finally, stop_event_set_repository_status. exact He.
  - eexists. split; [reflexivity|]. apply stop_event_turn_pause; [exact Hl|].
    rewrite stop_event_turn_finally, stop_event_set_repository_status,
      stop_event_add_log_entry. exact He.
  - exfalso. exact (Hx c eq_refl).
Qed.

Lemma sequential_loop_runs config f i repos (g : Globals) :
  listener_silent -> leaves_event f -> never_exits f -> stop_event g = false ->
  exists g', sequential_loop config f i repos g = (Returned tt, g') /\
             completed_turns config f i repos g g'.
Proof.
  intros Hl Hle Hne. revert i g. induction repos as [|repo rest IH]; intros i g Hc.
  - exists g. split; [reflexivity | apply turns_none].
  - destruct (sequential_turn_runs config f i repo g Hl Hle Hne Hc) as (g1 & Hturn & Hc1).
    destruct (IH (Datatypes.S i) g1 Hc1) as (g2 & Hloop & Hturns).
    exists g2. split.
    + rewrite sequential_loop_cons, Hturn. exact Hloop.
    + exact (turns_next config f i repo rest g g1 g2 Hturn Hturns).
Qed.

Lemma finished_tracked repo (g : Globals) :
  finished repo g -> is_Some (_repo_statuses g !! repo).
Proof.
  intros (l & Hl & _). unfold lifecycle_of in Hl.
  destruct (_repo_statuses g !! repo) as [rs|]; [eexists; reflexivity | discriminate].
Qed.

Lemma sequential_turn_keeps_entry config f i repo r (g g' : Globals) :
  keeps_tracker f ->
  sequential_iteration config f i repo g = (Returned Continue, g') ->
  (is_Some (_repo_statuses g !! r) -> is_Some (_repo_statuses g' !! r)) /\
  (finished r g -> finished r g').
Proof.
  intros Hf Hturn. destruct (decide (r = repo)) as [->|Hne].
  - assert (H : is_Some (_repo_statuses g !! repo) -> finished repo g').
    { intros Ht. exact (completed_turn_finishes config f i repo g g' Hf Ht Hturn). }
    split.
    + intros Ht. apply finished_tracked, H, Ht.
    + intros Hfin. apply H, finished_tracked, Hfin.
  - pose proof (unchanged_outside_turn config f i repo [repo] Hf
                  ltac:(apply elem_of_cons; left; reflexivity) g) as H1.
    rewrite Hturn in H1. cbn [snd] in H1.
    assert (E : _repo_statuses g' !! r = _repo_statuses g !! r).
    { apply H1. intros Hin. apply list_elem_of_singleton in Hin. contradiction. }
    split.
    + rewrite E. auto.
    + unfold finished, lifecycle_of. rewrite E. auto.
Qed.

Lemma completed_turns_keep_entry config f i done r (g g' : Globals) :
  keeps_tracker f ->
  completed_turns config f i done g g' ->
  (is_Some (_repo_statuses g !! r) -> is_Some (_repo_statuses g' !! r)) /\
  (finished r g -> finished r g').
Proof.
  intros Hf. induction 1 as [i g|i repo done g g1 g2 Hturn _ IH]; [auto|].
  destruct (sequential_turn_keeps_entry config f i repo r g g1 Hf Hturn) as [H1 H2].
  destruct IH as [IH1 IH2]. auto.
Qed.

Lemma completed_turns_finish config f i done (g g' : Globals) :
  keeps_tracker f ->
  completed_turns config f i done g g' ->
  (forall r, r ∈ done -> is_Some (_repo_statuses g !! r)) ->
  forall r, r ∈ done -> finished r g'.
Proof.
  intros Hf. induction 1 as [i g|i repo done g g1 g2 Hturn Hturns IH]; intros Ht r Hr.
  - apply elem_of_nil in Hr. contradiction.
  - apply elem_of_cons in Hr as [->|Hr].
    + apply (completed_turns_keep_entry config f (Datatypes.S i) done repo g1 g2 Hf Hturns).
      apply (completed_turn_finishes config f i repo g g1 Hf); [|exact Hturn].
      apply Ht, elem_of_cons. left. reflexivity.
    + apply IH; [|exact Hr]. intros x Hx.
      apply (sequential_turn_keeps_entry config f i repo x g g1 Hf Hturn).
      apply Ht, elem_of_cons. right. exact Hx.
Qed.

Lemma same_names_turn config f i repo :
  keeps_tracker f -> respects same_names (sequential_iteration config f i repo).
Proof.
  intros Hf. apply respects_sequential_iteration; [exact _ | exact _ | | | exact Hf].
  - intros g g' H. unfold same_names. rewrite H. reflexivity.
  - intros b g. unfold same_names. rewrite statuses_set_repository_status.
    destruct (_repo_statuses g !! repo) as [rs|] eqn:E; [|reflexivity].
    apply dom_insert_lookup_L. rewrite E. eexists. reflexivity.
Qed.

Lemma same_names_turns config f i done (g g' : Globals) :
  keeps_tracker f -> completed_turns config f i done g g' -> same_names g g'.
Proof.
  intros Hf. induction 1 as [i g|i repo done g g1 g2 Hturn _ IH]; [reflexivity|].
  pose proof (same_names_turn config f i repo Hf g) as H1. rewrite Hturn in H1.
  etransitivity; [exact H1 | exact IH].
Qed.

Lemma all_finished_summary (g : Globals) :
  (forall r, is_Some (_repo_statuses g !! r) -> finished r g) ->
  snd (fst (get_current_progress_summary g)) = size (_repo_statuses g) /\
  snd (get_current_progress_summary g) = 0.
Proof.
  intros Hall.
  assert (Hv : forall rs, rs ∈ (map_to_list (_repo_statuses g)).*2 ->
                          status rs = Completed \/ status rs = Failed).
  { intros rs Hin. apply list_elem_of_fmap in Hin as ([k rs'] & -> & Hin).
    apply elem_of_map_to_list in Hin.
    destruct (Hall k ltac:(rewrite Hin; eexists; reflexivity)) as (l & Hl & Ht).
    unfold lifecycle_of in Hl. rewrite Hin in Hl. injection Hl as <-. exact Ht. }
  pose proof (status_classes (map_to_list (_repo_statuses g)).*2) as Hsum.
  assert (E2 : filter (fun rs => is_completed_or_failed rs = false /\
                                 is_in_progress rs = true)
                 (map_to_list (_repo_statuses g)).*2 = []).
  { apply elem_of_nil_inv. intros rs Hrs.
    apply list_elem_of_filter in Hrs as [[_ Hp] Hin].
    unfold is_in_progress in Hp. apply bool_decide_eq_true_1 in Hp.
    destruct (Hv rs Hin) as [H|H]; rewrite H in Hp; discriminate. }
  assert (E3 : filter (fun rs => status rs = Pending)
                 (map_to_list (_repo_statuses g)).*2 = []).
  { apply elem_of_nil_inv. intros rs Hrs.
    apply list_elem_of_filter in Hrs as [Hp Hin].
    destruct (Hv rs Hin) as [H|H]; rewrite H in Hp; discriminate. }
  rewrite E2, E3, length_fmap, length_map_to_list in Hsum. cbn [length] in Hsum.
  unfold get_current_progress_summary. cbn [fst snd]. rewrite E2. cbn [length].
  split; [lia | reflexivity].
Qed.

(** X16: a sequential run that nobody aborts. Let [max_workers] be 1, the
    event be clear at the start and the listener never set it, and let the
    processor leave the tracker and the event alone and never end the
    interpreter. Then [process_repositories] returns, whatever the
    processor returns or raises on each repository; at the end the tracker
    holds exactly the configured repositories, each of them Completed or
    Failed, and the summary counts every tracked repository as completed
    and none as in progress. *)
Theorem sequential_run_finishes_all (config : GitHubOperationConfig) (f : Processor)
    (g : Globals) :
  max_workers config = 1%Z ->
  keeps_tracker f -> leaves_event f -> never_exits f ->
  listener_silent -> stop_event g = false ->
  fst (process_repositories config f g) = Returned tt /\
  (forall r, r ∈ repositories config ->
     finished r (snd (process_repositories config f g))) /\
  dom (_repo_statuses (snd (process_repositories config f g)))
  = list_to_set (repositories config) /\
  snd (fst (get_current_progress_summary (snd (process_repositories config f g))))
  = size (_repo_statuses (snd (process_repositories config f g))) /\
  snd (get_current_progress_summary (snd (process_repositories config f g))) = 0.
Proof.
  intros Hw Hf Hle Hne Hl Hc.
  assert (Hc0 : stop_event (sequential_entry config g) = false).
  { unfold sequential_entry. rewrite stop_event_add_log_entry.
    change (snd (process_repositories_setup config g))
      with (add_log_entry None (NL +:+
              "[INFO] You can abort the operation at any time by typing 'q' and pressing Enter.")
              true false
              (initialize_log_collector (repositories config)
                 (initialize_repository_statuses (repositories config) g))).
    rewrite stop_event_add_log_entry. exact Hc. }
  destruct (sequential_loop_runs config f 0 (repositories config)
              (sequential_entry config g) Hl Hle Hne Hc0) as (g1 & Hloop & Hturns).
  rewrite process_repositories_sequential by exact Hw. rewrite Hloop. cbn [fst snd].
  assert (Hentry : forall r, _repo_statuses (sequential_entry config g) !! r
                             = if bool_decide (r ∈ repositories config)
                               then Some (mkRepoStatus false Pending) else None).
  { intros r. rewrite statuses_sequential_entry. apply lookup_list_to_map_const. }
  assert (Hfin : forall r, r ∈ repositories config -> finished r (sequential_exit g g1)).
  { intros r Hr. apply (finished_same_tracker r g1).
    { unfold same_tracker. apply statuses_sequential_exit. }
    apply (completed_turns_finish config f 0 (repositories config) _ g1 Hf Hturns);
      [|exact Hr].
    intros x Hx. rewrite Hentry, bool_decide_eq_true_2 by exact Hx.
    eexists. reflexivity. }
  assert (Hdom : forall r, is_Some (_repo_statuses (sequential_exit g g1) !! r)
                           <-> r ∈ repositories config).
  { intros r. rewrite statuses_sequential_exit, <- !elem_of_dom.
    rewrite (same_names_turns config f 0 (repositories config) _ g1 Hf Hturns).
    rewrite elem_of_dom, Hentry.
    destruct (decide (r ∈ repositories config)) as [Hr|Hr].
    - rewrite bool_decide_eq_true_2 by exact Hr. split; [auto | eexists; reflexivity].
    - rewrite bool_decide_eq_false_2 by exact Hr.
      split; [intros [x Hx]; discriminate | contradiction]. }
  split; [reflexivity|]. split; [exact Hfin|]. split.
  { apply leibniz_equiv. intros r. rewrite elem_of_dom, elem_of_list_to_set. apply Hdom. }
  apply all_finished_summary. intros r Hr. apply Hfin, Hdom, Hr.
Qed.

Lemma flush_console msgs (g : Globals) :
  let g' := foldl (fun g0 msg => add_log_entry None msg true false g0) g msgs in
  stdout g' = stdout g ++ ((fun m => m +:+ NL) <$> msgs) /\
  _all_group_logs g' = _all_group_logs g.
Proof.
  revert g. induction msgs as [|m msgs IH]; intros g.
  - cbn. rewrite app_nil_r. split; reflexivity.
  - cbn [foldl]. destruct (IH (add_log_entry None m true false g)) as [IH1 IH2].
    cbn zeta. rewrite IH1, IH2, fmap_cons. cbn [add_log_entry stdout stdout_write
      _all_group_logs]. rewrite <- app_assoc. split; reflexivity.
Qed.

(** X18: the [finally] block of a turn of the sequential loop, on a
    repository whose group the collector holds: it writes the messages
    stored for the repository to the console, in the order they were
    added, each followed by a line feed, then empties the group; the other
    groups keep their messages, and the block always returns. *)
Theorem turn_finally_flushes (repo : string) (g : Globals) :
  is_Some (_all_group_logs g !! repo) ->
  fst (turn_finally repo g) = Returned tt /\
  stdout (snd (turn_finally repo g))
  = stdout g ++ ((fun m => m +:+ NL) <$> get_group_log_entries repo g) /\
  get_group_log_entries repo (snd (turn_finally repo g)) = [] /\
  forall other, other <> repo ->
    get_group_log_entries other (snd (turn_finally repo g))
    = get_group_log_entries other g.
Proof.
  intros [grp Hg]. split; [reflexivity|].
  change (snd (turn_finally repo g))
    with (clear_group_log_entries repo
            (foldl (fun g0 msg => add_log_entry None msg true false g0) g
               (get_group_log_entries repo g))).
  destruct (flush_console (get_group_log_entries repo g) g) as [H1 H2].
  cbn zeta in H1, H2.
  set (g1 := foldl (fun g0 msg => add_log_entry None msg true false g0) g
               (get_group_log_entries repo g)) in *.
  assert (E : clear_group_log_entries repo g1
              = with_group_logs (<[repo := mkLogGroup []]> (_all_group_logs g1)) g1).
  { unfold clear_group_log_entries. rewrite H2, Hg. reflexivity. }
  rewrite E. unfold get_group_log_entries at 2 3.
  cbn [_all_group_logs with_group_logs stdout]. rewrite H2.
  split; [exact H1|]. split.
  - rewrite lookup_insert_eq. reflexivity.
  - intros other Hne. rewrite lookup_insert_ne by congruence. reflexivity.
Qed.

(** * Further properties of [main] and of the pooled worker *)

(** X19: when the parsed arguments ask for fewer than one worker or for a
    negative pause, [main] ends with the [ValueError] of
    [GitHubOperationConfig.__post_init__] right after the arguments are
    parsed: nothing is logged, no file is read and no command is run. *)
Theorem main_rejects_invalid_configuration (g g1 : Globals) (args : Args) :
  parse_arguments g = (Returned args, g1) ->
  (args_workers args < 1 \/ args_sleep args < 0)%Z ->
  exists text, main g = (Raised (ValueError text), g1).
Proof.
  intros Hparse Hbad. unfold main. rewrite bind_apply.
  unfold main_configure. rewrite bind_apply, Hparse. cbn beta iota.
  rewrite bind_apply. unfold GitHubOperationConfig_post_init. cbn [max_workers
    sleep_after_repo].
  destruct (args_workers args <? 1)%Z eqn:E1.
  - eexists. reflexivity.
  - destruct (args_sleep args <? 0)%Z eqn:E2.
    + eexists. reflexivity.
    + exfalso. apply Z.ltb_ge in E1. apply Z.ltb_ge in E2. lia.
Qed.

Lemma bind_returned {A B} (m : M A) (k : A -> M B) (g g' : Globals) b :
  bind m k g = (Returned b, g') ->
  exists a g1, m g = (Returned a, g1) /\ k a g1 = (Returned b, g').
Proof.
  rewrite bind_apply. destruct (m g) as [[a|e|c] g1]; try discriminate.
  intros H. exists a, g1. split; [reflexivity | exact H].
Qed.

Lemma contains_app_r needle a b :
  contains needle b = true -> contains needle (a +:+ b) = true.
Proof.
  intros H. induction a as [|c a IH]; [exact H|].
  change (String.prefix needle (String c (a +:+ b)) || contains needle (a +:+ b) = true).
  rewrite IH. apply orb_true_r.
Qed.

(** X21: with [--tr], where the file holds [lines], the target
    repositories [main] configures are the lines that are not blank and do
    not start with [#], stripped, in the order of the file, a name that
    holds no [/] with the organization and a [/] in front and a name that
    holds one kept as it is; so every one of them is in [owner/repo]
    form. *)
Theorem tr_repositories_are_qualified (g g1 g' : Globals) (args : Args) (p : string)
    (lines : list string) (config : GitHubOperationConfig) :
  parse_arguments g = (Returned args, g1) ->
  args_tr args = Some p ->
  (forall g0, fst (read_lines p g0) = Returned lines) ->
  main_configure g = (Returned config, g') ->
  repositories config
  = (fun r => if contains "/" r then r else args_organization args +:+ "/" +:+ r)
      <$> (str_strip <$>
             List.filter (fun line => truthy (str_strip line) &&
                                      negb (String.prefix "#" line)) lines) /\
  forall r, r ∈ repositories config -> contains "/" r = true.
Proof.
  intros Hparse Htr Hlines H. unfold main_configure in H.
  apply bind_returned in H as (args' & ga & Hp & H).
  rewrite Hparse in Hp. injection Hp as <- <-.
  apply bind_returned in H as (u1 & gb & _ & H).
  apply bind_returned in H as (u2 & gc & _ & H).
  apply bind_returned in H as (secrets & gd & _ & H).
  apply bind_returned in H as (variables & ge & _ & H).
  apply bind_returned in H as (del_secrets & gf & _ & H).
  apply bind_returned in H as (del_variables & gg & _ & H).
  apply bind_returned in H as (repos & gh & Hrepos & H).
  unfold ret in H. injection H as <- _. cbn [repositories].
  rewrite Htr in Hrepos. unfold try_except in Hrepos.
  match type of Hrepos with context [bind (read_lines p) ?k gg] =>
    destruct (bind (read_lines p) k gg) as [[x|e|c] gy] eqn:E end.
  - injection Hrepos as -> _.
    apply bind_returned in E as (lines' & gz & Hl & E).
    pose proof (Hlines gg) as Hl'. rewrite Hl in Hl'. cbn [fst] in Hl'.
    injection Hl' as ->.
    cbn zeta in E. apply bind_returned in E as (u3 & gw & _ & E).
    unfold ret in E. injection E as <- _. cbn [organization].
    assert (Hq : forall x,
              (if negb (contains "/" x) then args_organization args +:+ "/" +:+ x else x)
              = (if contains "/" x then x else args_organization args +:+ "/" +:+ x)).
    { intros x. destruct (contains "/" x); reflexivity. }
    split.
    + generalize (str_strip <$>
                    List.filter (fun line => truthy (str_strip line) &&
                                             negb (String.prefix "#" line)) lines).
      intros names. induction names as [|x names IH]; [reflexivity|].
      rewrite !fmap_cons, IH, Hq. reflexivity.
    + intros r Hr. apply list_elem_of_fmap in Hr as (x & -> & _).
      destruct (contains "/" x) eqn:Hx; cbn [negb]; [exact Hx|].
      apply contains_app_r. clear Hx. destruct x; reflexivity.
  - rewrite bind_apply in Hrepos. unfold add_log, exec, sys_exit in Hrepos. discriminate.
  - discriminate.
Qed.

Lemma worker_finally_returns repo (g : Globals) :
  fst ((stopped <- stop_event_is_set;;
        if negb stopped then add_log None ("Completed Repo: " +:+ repo) else ret tt) g)
  = Returned tt /\
  same_tracker g
    (snd ((stopped <- stop_event_is_set;;
           if negb stopped then add_log None ("Completed Repo: " +:+ repo) else ret tt) g)).
Proof.
  rewrite bind_apply. pose proof (same_tracker_stop_event_is_set g) as Hs.
  assert (Hr : exists b, fst (stop_event_is_set g) = Returned b).
  { unfold stop_event_is_set. destruct (stop_event g); [eexists; reflexivity|].
    destruct (listener_has_set (world g)). eexists. reflexivity. }
  destruct Hr as [b Hb].
  destruct (stop_event_is_set g) as [o g1]. cbn [fst snd] in *. subst o.
  destruct b; cbn [negb]; split; try reflexivity; exact Hs.
Qed.

Lemma stop_event_observed (g g1 : Globals) :
  stop_event_is_set g = (Returned true, g1) -> stop_event_is_set g1 = (Returned true, g1).
Proof.
  unfold stop_event_is_set. destruct (stop_event g) eqn:E.
  - intros [= <-]. rewrite E. reflexivity.
  - destruct (listener_has_set (world g)) as [b w]. intros [= -> <-]. reflexivity.
Qed.

(** X20: one call of [_process_single_repository_worker], run on its own
    with a processor that leaves the tracker alone. If the dispatch check
    finds the event set, the worker returns [False] in the state of that
    check: the processor is not called, nothing is logged, the tracker and
    the counter are as they were. Otherwise the repository is marked in
    progress, if it was pending, before the processor is called; the worker
    returns what the processor returns and adds one to the counter, or
    returns [False] with the counter as it was when the processor raises,
    and lets an exit of the interpreter through; it never raises, and it
    leaves the repository in progress: recording Completed or Failed is
    left to the caller. *)
Theorem worker_outcome (config : GitHubOperationConfig) (f : Processor)
    (repo : string) (count total : nat) (g g1 : Globals) :
  keeps_tracker f ->
  (stop_event_is_set g = (Returned true, g1) ->
     _process_single_repository_worker repo config f count total g
     = (Returned (false, count), g1)) /\
  (stop_event_is_set g = (Returned false, g1) ->
     match fst (f repo (delete_secrets config) (delete_variables config)
                  (secrets_to_set config) (variables_to_set config) (force config)
                  (set_repository_in_progress repo g1)) with
     | Returned b =>
         fst (_process_single_repository_worker repo config f count total g)
         = Returned (b, Datatypes.S count)
     | Raised _ =>
         fst (_process_single_repository_worker repo config f count total g)
         = Returned (false, count)
     | SystemExit c =>
         fst (_process_single_repository_worker repo config f count total g)
         = SystemExit c
     end /\
     _repo_statuses (snd (_process_single_repository_worker repo config f count total g))
     = _repo_statuses (set_repository_in_progress repo g) /\
     (lifecycle_of repo g = Some Pending ->
      lifecycle_of repo (snd (_process_single_repository_worker repo config f count total g))
      = Some InProgress)) /\
  (forall e,
     fst (_process_single_repository_worker repo config f count total g) <> Raised e).
Proof.
  intros Hf. revert g1.
  enough (Hboth : forall g1,
    (stop_event_is_set g = (Returned true, g1) ->
       _process_single_repository_worker repo config f count total g
       = (Returned (false, count), g1)) /\
    (stop_event_is_set g = (Returned false, g1) ->
       match fst (f repo (delete_secrets config) (delete_variables config)
                    (secrets_to_set config) (variables_to_set config) (force config)
                    (set_repository_in_progress repo g1)) with
       | Returned b =>
           fst (_process_single_repository_worker repo config f count total g)
           = Returned (b, Datatypes.S count)
       | Raised _ =>
           fst (_process_single_repository_worker repo config f count total g)
           = Returned (false, count)
       | SystemExit c =>
           fst (_process_single_repository_worker repo config f count total g)
           = SystemExit c
       end /\
       _repo_statuses (snd (_process_single_repository_worker repo config f count total g))
       = _repo_statuses (set_repository_in_progress repo g) /\
       (lifecycle_of repo g = Some Pending ->
        lifecycle_of repo
          (snd (_process_single_repository_worker repo config f count total g))
        = Some InProgress))).
  { intros g1. destruct (Hboth g1) as [HA HB]. split; [exact HA|]. split; [exact HB|].
    intros e.
    assert (Hr : exists b, stop_event_is_set g = (Returned b, snd (stop_event_is_set g))).
    { unfold stop_event_is_set. destruct (stop_event g); [eexists; reflexivity|].
      destruct (listener_has_set (world g)). eexists. reflexivity. }
    destruct Hr as [[] Hb].
    - destruct (Hboth (snd (stop_event_is_set g))) as [HA' _].
      rewrite (HA' Hb). discriminate.
    - destruct (Hboth (snd (stop_event_is_set g))) as [_ HB'].
      destruct (HB' Hb) as [Hm _].
      destruct (fst (f repo (delete_secrets config) (delete_variables config)
                       (secrets_to_set config) (variables_to_set config) (force config)
                       (set_repository_in_progress repo (snd (stop_event_is_set g)))));
        rewrite Hm; discriminate. }
  intros g1. split.
  - intros Hstop. unfold _process_single_repository_worker, try_finally, try_except.
    rewrite bind_apply, Hstop. cbn beta iota. unfold ret at 1. cbn beta iota.
    rewrite bind_apply, (stop_event_observed g g1 Hstop). reflexivity.
  - intros Hstop.
    pose proof (same_tracker_stop_event_is_set g) as Hs. rewrite Hstop in Hs.
    cbn [snd] in Hs. unfold same_tracker in Hs.
    assert (Hip : _repo_statuses (set_repository_in_progress repo g1)
                  = _repo_statuses (set_repository_in_progress repo g)).
    { unfold set_repository_in_progress. rewrite Hs.
      destruct (_repo_statuses g !! repo) as [rs|]; [|exact Hs].
      destruct (decide (status rs = Pending)); [|exact Hs].
      reflexivity. }
    assert (Hrun : _process_single_repository_worker repo config f count total g
              = match f repo (delete_secrets config) (delete_variables config)
                        (secrets_to_set config) (variables_to_set config) (force config)
                        (set_repository_in_progress repo g1) with
                | (Returned b, g3) =>
                    (Returned (b, Datatypes.S count),
                     snd ((stopped <- stop_event_is_set;;
                           if negb stopped
                           then add_log None ("Completed Repo: " +:+ repo) else ret tt)
                            (add_log_entry (Some repo)
                               ("✅ Repository processing " +:+
                                (if b then "completed" else "failed") +:+ " (Success: " +:+
                                (if b then "True" else "False") +:+ ").") true false g3)))
                | (Raised e, g3) =>
                    (Returned (false, count),
                     snd ((stopped <- stop_event_is_set;;
                           if negb stopped
                           then add_log None ("Completed Repo: " +:+ repo) else ret tt)
                            (add_log_entry (Some repo)
                               ("❌ Error processing repository '" +:+ repo +:+ "': " +:+
                                exception_text e) true false g3)))
                | (SystemExit c, g3) =>
                    (SystemExit c,
                     snd ((stopped <- stop_event_is_set;;
                           if negb stopped
                           then add_log None ("Completed Repo: " +:+ repo) else ret tt) g3))
                end).
    { unfold _process_single_repository_worker, try_finally, try_except.
      rewrite bind_apply, Hstop. cbn beta iota. rewrite bind_apply.
      unfold exec at 1. cbn beta iota. rewrite bind_apply.
      destruct (f repo (delete_secrets config) (delete_variables config)
                  (secrets_to_set config) (variables_to_set config) (force config)
                  (set_repository_in_progress repo g1)) as [[b|e|c] g3].
      - rewrite bind_apply. unfold add_log at 1, exec at 1, ret at 1. cbn beta iota.
        match goal with |- context [bind stop_event_is_set ?k ?g0] =>
          destruct (worker_finally_returns repo g0) as [Hr _];
          destruct (bind stop_event_is_set k g0) as [o g5] end.
        cbn [fst snd] in *. subst o. reflexivity.
      - rewrite bind_apply. unfold add_log at 1, exec at 1, ret at 1. cbn beta iota.
        match goal with |- context [bind stop_event_is_set ?k ?g0] =>
          destruct (worker_finally_returns repo g0) as [Hr _];
          destruct (bind stop_event_is_set k g0) as [o g5] end.
        cbn [fst snd] in *. subst o. reflexivity.
      - match goal with |- context [bind stop_event_is_set ?k ?g0] =>
          destruct (worker_finally_returns repo g0) as [Hr _];
          destruct (bind stop_event_is_set k g0) as [o g5] end.
        cbn [fst snd] in *. subst o. reflexivity. }
    assert (Hst : _repo_statuses
                    (snd (_process_single_repository_worker repo config f count total g))
                  = _repo_statuses (set_repository_in_progress repo g)).
    { rewrite Hrun.
      pose proof (Hf repo (delete_secrets config) (delete_variables config)
                    (secrets_to_set config) (variables_to_set config) (force config)
                    (set_repository_in_progress repo g1)) as Hg.
      destruct (f repo (delete_secrets config) (delete_variables config)
                  (secrets_to_set config) (variables_to_set config) (force config)
                  (set_repository_in_progress repo g1)) as [[b|e|c] g3];
        cbn [fst snd] in *; unfold same_tracker in Hg;
        match goal with |- context [bind stop_event_is_set ?k ?g0] =>
          destruct (worker_finally_returns repo g0) as [_ Hk] end;
        unfold same_tracker in Hk; rewrite Hk, ?statuses_add_log_entry, Hg; exact Hip. }
    split; [|split; [exact Hst|]].
    + rewrite Hrun.
      destruct (f repo (delete_secrets config) (delete_variables config)
                  (secrets_to_set config) (variables_to_set config) (force config)
                  (set_repository_in_progress repo g1)) as [[b|e|c] g3]; reflexivity.
    + intros Hp. unfold lifecycle_of in *. rewrite Hst.
      unfold set_repository_in_progress.
      destruct (_repo_statuses g !! repo) as [rs|] eqn:E; [|discriminate].
      injection Hp as Hp. destruct (decide (status rs = Pending)); [|contradiction].
      cbn [_repo_statuses with_repo_statuses]. rewrite lookup_insert_eq. reflexivity.
Qed.

End Operations.

(** * The statements at sample inputs *)

Local Open Scope list_scope.

(** C1 as stated fails: a repository that is Completed becomes Failed when
    [set_repository_status] is called on it with a false result. *)
Lemma terminal_lifecycle_overwritten :
  let g := set_repository_status "owner/repo" true
             (initialize_repository_statuses ["owner/repo"] (initial_globals 0)) in
  lifecycle_of "owner/repo" g = Some Completed /\
  terminal Completed /\
  lifecycle_of "owner/repo" (set_repository_status "owner/repo" false g) = Some Failed /\
  lifecycle_of "owner/repo" (set_repository_status "owner/repo" false g)
  <> lifecycle_of "owner/repo" g.
Proof. vm_compute. repeat split; try (left; reflexivity); discriminate. Qed.

(** C1, as amended, on a repository that was marked Completed. *)
Lemma terminal_lifecycle_stays_terminal_witness :
  let g := set_repository_status "owner/repo" true
             (initialize_repository_statuses ["owner/repo"] (initial_globals 0)) in
  lifecycle_of "owner/repo" g = Some Completed /\
  terminal Completed /\
  lifecycle_of "owner/repo" (set_repository_in_progress "owner/repo" g) = Some Completed /\
  lifecycle_of "owner/repo" (set_repository_status "owner/repo" false g) = Some Failed.
Proof.
  intros g.
  assert (H1 : lifecycle_of "owner/repo" g = Some Completed) by (vm_compute; reflexivity).
  assert (H2 : terminal Completed) by (left; reflexivity).
  destruct (terminal_lifecycle_stays_terminal g "owner/repo" Completed H1 H2)
    as (Hip & _ & Hst & _).
  split; [exact H1|]. split; [exact H2|]. split; [apply Hip | apply (Hst false)].
Defined.

(** C5 on a freshly tracked repository. *)
Lemma set_repository_status_last_write_wins_witness :
  let g := initialize_repository_statuses ["owner/repo"] (initial_globals 0) in
  is_Some (_repo_statuses g !! "owner/repo") /\
  _repo_statuses (set_repository_status "owner/repo" false
                    (set_repository_status "owner/repo" true g)) !! "owner/repo"
  = Some (mkRepoStatus false Failed).
Proof.
  intros g.
  assert (H : is_Some (_repo_statuses g !! "owner/repo")).
  { exists (mkRepoStatus false Pending). vm_compute. reflexivity. }
  split; [exact H|].
  apply (set_repository_status_last_write_wins g "owner/repo" H).
Defined.

(** C6 on a freshly tracked repository. *)
Lemma set_repository_in_progress_pending_only_witness :
  let g := initialize_repository_statuses ["owner/repo"] (initial_globals 0) in
  lifecycle_of "owner/repo" g = Some Pending /\
  lifecycle_of "owner/repo"
    (set_repository_in_progress "owner/repo" (set_repository_in_progress "owner/repo" g))
  = Some InProgress.
Proof.
  intros g.
  assert (H : lifecycle_of "owner/repo" g = Some Pending) by (vm_compute; reflexivity).
  split; [exact H|].
  destruct (set_repository_in_progress_pending_only g "owner/repo") as (_ & _ & _ & _ & H5).
  apply H5, H.
Defined.

(** C9 on a collector with the two groups [A] and [B]. *)
Lemma log_isolation_witness :
  "A" <> "B" /\ "A" ∈ ["A"; "B"] /\ "B" ∈ ["A"; "B"] /\
  let g0 := initialize_log_collector ["A"; "B"] (initial_globals 0) in
  get_group_log_entries "A"
    (add_log_entry (Some "B") "m2" true false (add_log_entry (Some "A") "m1" true false g0))
  = ["m1"].
Proof.
  assert (H1 : "A" <> "B") by discriminate.
  assert (H2 : "A" ∈ ["A"; "B"]) by (apply elem_of_cons; left; reflexivity).
  assert (H3 : "B" ∈ ["A"; "B"]).
  { apply elem_of_cons. right. apply elem_of_cons. left. reflexivity. }
  split; [exact H1|]. split; [exact H2|]. split; [exact H3|].
  apply (log_isolation (initial_globals 0) ["A"; "B"] "A" "B" "m1" "m2" H1 H2 H3).
Defined.

(** C3 with the existing set [{A}]: [A] is skipped without [force], [B] is
    set, and [A] is set with [force]. *)
Lemma set_gating_law_witness :
  let g := initialize_log_collector ["owner/repo"] (initial_globals 0) in
  let existing : gset pykey := {[KStr "A"]} in
  (KStr "A" ∈ existing) /\ (KStr "B" ∉ existing) /\
  fst (set_github_secret sample_subprocess_run "owner/repo" "A" "v1" false existing g)
  = Returned true /\
  subprocess_calls
    (snd (set_github_secret sample_subprocess_run "owner/repo" "A" "v1" false existing g))
  = [] /\
  subprocess_calls
    (snd (set_github_secret sample_subprocess_run "owner/repo" "B" "v2" false existing g))
  = [["gh"; "secret"; "set"; "B"; "--repo"; "owner/repo"; "--body"; "v2"]] /\
  subprocess_calls
    (snd (set_github_variable sample_subprocess_run "owner/repo" "A" "v1" true existing g))
  = [["gh"; "variable"; "set"; "A"; "--repo"; "owner/repo"; "--body"; "v1"]].
Proof.
  intros g existing.
  assert (HA : KStr "A" ∈ existing) by (apply elem_of_singleton; reflexivity).
  assert (HB : KStr "B" ∉ existing).
  { intros H. apply elem_of_singleton in H. discriminate. }
  split; [exact HA|]. split; [exact HB|].
  destruct (set_gating_law sample_subprocess_run "owner/repo" "A" "v1" false existing g)
    as [Hskip _].
  destruct (Hskip eq_refl HA) as [(Hret & Hcalls & _) _].
  destruct (set_gating_law sample_subprocess_run "owner/repo" "B" "v2" false existing g)
    as [_ Hissue].
  destruct (Hissue (or_intror HB)) as [HcallsB _].
  destruct (set_gating_law sample_subprocess_run "owner/repo" "A" "v1" true existing g)
    as [_ Hforce].
  destruct (Hforce (or_introl eq_refl)) as [_ HcallsA].
  split; [exact Hret|]. split; [exact Hcalls|]. split; [exact HcallsB | exact HcallsA].
Defined.

(** C2 with the existing secrets [{X, Y}] and the request [[X, Z]]: the one
    delete command is that for [X]. *)
Lemma delete_intersection_law_witness :
  let g := initialize_log_collector ["owner/repo"] (initial_globals 0) in
  let fetched := _log_and_fetch_existing_repo_items sample_subprocess_run sample_json_loads
                   "owner/repo" g in
  let out := process_single_repository sample_subprocess_run sample_json_loads elements
               sample_repr_list "owner/repo" ["X"; "Z"] [] [] [] false g in
  set_order_spec elements /\
  fetched = (Returned ({[KStr "X"; KStr "Y"]}, ∅), snd fetched) /\
  (forall c, fst out <> SystemExit c) /\
  deletions_between g (snd out) = [["gh"; "secret"; "delete"; "X"; "--repo"; "owner/repo"]].
Proof.
  intros g fetched out.
  assert (Hord : set_order_spec elements) by (intros X; reflexivity).
  assert (Hfetch : fetched = (Returned ({[KStr "X"; KStr "Y"]}, ∅), snd fetched))
    by (vm_compute; reflexivity).
  assert (Hout : forall c, fst out <> SystemExit c) by (vm_compute; discriminate).
  split; [exact Hord|]. split; [exact Hfetch|]. split; [exact Hout|].
  destruct (delete_intersection_law sample_subprocess_run sample_json_loads elements
              sample_repr_list "owner/repo" ["X"; "Z"] [] [] [] false g (snd fetched)
              {[KStr "X"; KStr "Y"]} ∅ Hord Hfetch) as (_ & Hall & _).
  etransitivity; [exact (Hall Hout) | vm_compute; reflexivity].
Defined.


(** C7 on three repositories, the listener setting the event while the
    first is processed: the second and the third stay Pending. *)
Lemma sequential_abort_leaves_pending_witness :
  let config := mkConfig "owner" [] [] ["X"] [] ["owner/r1"; "owner/r2"; "owner/r3"]
                  1 0 false in
  let f : Processor :=
    process_single_repository sample_subprocess_run sample_json_loads elements
      sample_repr_list in
  let pooled : GitHubOperationConfig -> Processor -> nat -> M nat unit :=
    fun _ _ _ g => (Returned tt, g) in
  let g := initial_globals 0 in
  let g_k := snd (sequential_iteration sample_listener sample_sleep config f 0 "owner/r1"
                    (sequential_entry nat sample_time config g)) in
  max_workers config = 1%Z /\
  repositories config = ["owner/r1"] ++ "owner/r2" :: ["owner/r3"] /\
  completed_turns sample_listener sample_sleep config f 0 ["owner/r1"]
    (sequential_entry nat sample_time config g) g_k /\
  stop_event_is_set sample_listener g_k = (Returned true, g_k) /\
  let g_end := snd (process_repositories sample_listener sample_sleep nat sample_time
                      sample_elapsed pooled config f g) in
  _repo_statuses g_end !! "owner/r2" = Some (mkRepoStatus false Pending) /\
  _repo_statuses g_end !! "owner/r3" = Some (mkRepoStatus false Pending).
Proof.
  intros config f pooled g g_k.
  assert (Hw : max_workers config = 1%Z) by reflexivity.
  assert (Hf : keeps_tracker f).
  { intros repo Ds Dv S V force. apply process_single_repository_same_tracker. }
  assert (Hrepos : repositories config = ["owner/r1"] ++ "owner/r2" :: ["owner/r3"])
    by reflexivity.
  assert (Hturns : completed_turns sample_listener sample_sleep config f 0 ["owner/r1"]
                     (sequential_entry nat sample_time config g) g_k).
  { apply (turns_next sample_listener sample_sleep config f 0 "owner/r1" [] _ g_k g_k).
    - vm_compute. reflexivity.
    - apply turns_none. }
  assert (Hstop : stop_event_is_set sample_listener g_k = (Returned true, g_k))
    by (vm_compute; reflexivity).
  split; [exact Hw|]. split; [exact Hrepos|]. split; [exact Hturns|]. split; [exact Hstop|].
  destruct (sequential_abort_leaves_pending sample_listener sample_sleep nat sample_time
              sample_elapsed pooled config f ["owner/r1"] "owner/r2" ["owner/r3"]
              g g_k g_k Hw Hf Hrepos Hturns Hstop) as (_ & Hrun & Hpending).
  intros g_end. unfold g_end. rewrite Hrun. cbn [snd]. split.
  - apply Hpending.
    + apply elem_of_cons. left. reflexivity.
    + intros H. apply list_elem_of_singleton in H. discriminate.
  - apply Hpending.
    + apply elem_of_cons. right. apply elem_of_cons. left. reflexivity.
    + intros H. apply list_elem_of_singleton in H. discriminate.
Defined.

(** C10 on a sequential run over two repositories. *)
Lemma sequential_mode_never_in_progress_witness :
  let config := mkConfig "owner" [] [] ["X"] [] ["owner/r1"; "owner/r2"] 1 0 false in
  let f : Processor :=
    process_single_repository sample_subprocess_run sample_json_loads elements
      sample_repr_list in
  let pooled : GitHubOperationConfig -> Processor -> nat -> M nat unit :=
    fun _ _ _ g => (Returned tt, g) in
  max_workers config = 1%Z /\
  snd (get_current_progress_summary
         (snd (process_repositories sample_listener sample_sleep nat sample_time
                 sample_elapsed pooled config f (initial_globals 0)))) = 0.
Proof.
  intros config f pooled.
  assert (Hw : max_workers config = 1%Z) by reflexivity.
  assert (Hf : keeps_tracker f).
  { intros repo Ds Dv S V force. apply process_single_repository_same_tracker. }
  split; [exact Hw|].
  destruct (sequential_mode_never_in_progress sample_listener sample_sleep nat sample_time
              sample_elapsed pooled config f (initial_globals 0) Hw Hf)
    as (_ & _ & _ & Hend & _).
  exact Hend.
Defined.

(** C8 for an organization in which no repository is found. *)
Lemma empty_repository_list_exits_witness :
  let parse : M nat Args :=
    fun g => (Returned (mkArgs "owner" 1 0 false None None None None None), g) in
  let validate : string -> string -> M nat (option string) :=
    fun p _ g => (Returned (Some p), g) in
  let read_pairs : string -> string -> M nat (list (string * string)) :=
    fun _ _ g => (Returned [], g) in
  let read_list : string -> string -> M nat (list string) := fun _ _ g => (Returned [], g) in
  let lines : string -> M nat (list string) := fun _ g => (Returned [], g) in
  let fetch_repositories : string -> M nat (list string) := fun _ g => (Returned [], g) in
  let confirm : list string -> list string -> list (string * string) ->
                list (string * string) -> list string -> Z -> Z -> bool -> M nat unit :=
    fun _ _ _ _ _ _ _ _ g => (Returned tt, g) in
  let pooled : GitHubOperationConfig -> Processor -> nat -> M nat unit :=
    fun _ _ _ g => (Returned tt, g) in
  let config := mkConfig "owner" [] [] [] [] [] 1 0 false in
  let g := initial_globals 0 in
  let g' := snd (main_configure parse validate read_pairs read_list lines (fun s => s)
                   fetch_repositories g) in
  main_configure parse validate read_pairs read_list lines (fun s => s)
    fetch_repositories g = (Returned config, g') /\
  repositories config = [] /\
  fst (main sample_subprocess_run sample_json_loads elements sample_repr_list
         sample_listener sample_sleep nat sample_time sample_elapsed pooled parse validate
         read_pairs read_list lines (fun s => s) fetch_repositories confirm g)
  = SystemExit 0.
Proof.
  intros parse validate read_pairs read_list lines fetch_repositories confirm pooled
    config g g'.
  assert (Hcfg : main_configure parse validate read_pairs read_list lines (fun s => s)
                   fetch_repositories g = (Returned config, g')) by (vm_compute; reflexivity).
  assert (Hempty : repositories config = []) by reflexivity.
  split; [exact Hcfg|]. split; [exact Hempty|].
  rewrite (empty_repository_list_exits sample_subprocess_run sample_json_loads elements
             sample_repr_list sample_listener sample_sleep nat sample_time sample_elapsed
             pooled parse validate read_pairs read_list lines (fun s => s)
             fetch_repositories confirm g g' config Hcfg Hempty).
  reflexivity.
Defined.


(** Where a set command is answered as [run_gh_command] takes for the
    delete of a missing item, the failed set is reported as done: with a
    tool that answers every set with [HTTP 404], the run returns [True]
    for a value that contains the text [secret delete] and [False] for
    another value. *)
Lemma set_taken_for_delete_reports_success :
  let refusing : list string -> bool -> nat -> (PyException + string * string) * nat :=
    fun command _ w =>
      if is_set_command command
      then (inl (CalledProcessError "exit status 1" "HTTP 404: Not Found"), w)
      else (inr ("", ""), w) in
  let g := initialize_log_collector ["owner/repo"] (initial_globals 0) in
  fst (process_single_repository refusing sample_json_loads elements sample_repr_list
         "owner/repo" [] [] [("A", "my secret delete token")] [] false g) = Returned true /\
  fst (process_single_repository refusing sample_json_loads elements sample_repr_list
         "owner/repo" [] [] [("A", "v1")] [] false g) = Returned false.
Proof. vm_compute. split; reflexivity. Qed.

(** ** Further properties at sample inputs *)

(** X1 on two repositories. *)
Lemma initialize_repository_statuses_summary_witness :
  let g' := initialize_repository_statuses ["owner/r1"; "owner/r2"] (initial_globals 0) in
  NoDup ["owner/r1"; "owner/r2"] /\
  get_current_progress_summary g' = (2, 0, 0) /\
  size (_repo_statuses g') = 2.
Proof.
  intros g'.
  assert (Hnd : NoDup ["owner/r1"; "owner/r2"]).
  { apply NoDup_cons. split.
    - intros H. apply list_elem_of_singleton in H. discriminate.
    - apply NoDup_singleton. }
  destruct (initialize_repository_statuses_summary (initial_globals 0)
              ["owner/r1"; "owner/r2"]) as (Hsum & _ & _ & Hsize).
  split; [exact Hnd|]. split; [exact Hsum | exact (Hsize Hnd)].
Defined.

(** X2 on the empty tracker. *)
Lemma tracker_unknown_repository_witness :
  _repo_statuses (initial_globals 0) !! "owner/repo" = None /\
  set_repository_in_progress "owner/repo" (initial_globals 0) = initial_globals 0 /\
  get_repository_overall_status "owner/repo"
    (set_repository_status "owner/repo" true (initial_globals 0)) = false.
Proof.
  assert (H : _repo_statuses (initial_globals 0) !! "owner/repo" = None)
    by apply lookup_empty.
  destruct (tracker_unknown_repository (initial_globals 0) "owner/repo" true H)
    as (_ & _ & Hip & _ & Hget).
  split; [exact H|]. split; [exact Hip | exact Hget].
Defined.

(** X5 on a freshly tracked repository. *)
Lemma overall_status_reads_last_result_witness :
  let g := initialize_repository_statuses ["owner/repo"] (initial_globals 0) in
  is_Some (_repo_statuses g !! "owner/repo") /\
  get_repository_overall_status "owner/repo" (set_repository_status "owner/repo" true g)
  = true.
Proof.
  intros g.
  assert (H : is_Some (_repo_statuses g !! "owner/repo")).
  { exists (mkRepoStatus false Pending). vm_compute. reflexivity. }
  split; [exact H|].
  destruct (overall_status_reads_last_result g "owner/repo" true H) as [Hget _].
  exact Hget.
Defined.

(** X6 on a collector with the groups [A] and [B]. *)
Lemma log_entries_keep_call_order_witness :
  let g := initialize_log_collector ["A"; "B"] (initial_globals 0) in
  is_Some (_all_group_logs g !! "A") /\
  get_group_log_entries "A"
    (foldl (fun g0 m => add_log_entry (Some "A") m true false g0) g ["m1"; "m2"])
  = get_group_log_entries "A" g ++ ["m1"; "m2"].
Proof.
  intros g.
  assert (H : is_Some (_all_group_logs g !! "A")).
  { exists (mkLogGroup []). vm_compute. reflexivity. }
  split; [exact H|].
  destruct (log_entries_keep_call_order g "A" ["m1"; "m2"] H) as [Hget _].
  exact Hget.
Defined.

(** X7 on a group that holds one message. *)
Lemma clear_group_log_entries_known_witness :
  let g := add_log_entry (Some "A") "m0" true false
             (initialize_log_collector ["A"] (initial_globals 0)) in
  is_Some (_all_group_logs g !! "A") /\
  get_group_log_entries "A" (clear_group_log_entries "A" g) = [] /\
  get_group_log_entries "A"
    (add_log_entry (Some "A") "m1" true false (clear_group_log_entries "A" g)) = ["m1"].
Proof.
  intros g.
  assert (H : is_Some (_all_group_logs g !! "A")).
  { exists (mkLogGroup ["m0"]). vm_compute. reflexivity. }
  split; [exact H|].
  destruct (clear_group_log_entries_known g "A" "m1" H) as (Hempty & _ & _ & Hnext).
  split; [exact Hempty | exact Hnext].
Defined.

(** X8 on the empty collector. *)
Lemma log_unknown_group_witness :
  _all_group_logs (initial_globals 0) !! "A" = None /\
  get_group_log_entries "A" (add_log_entry (Some "A") "m" true false (initial_globals 0))
  = [].
Proof.
  assert (H : _all_group_logs (initial_globals 0) !! "A" = None) by apply lookup_empty.
  split; [exact H|].
  destruct (log_unknown_group (initial_globals 0) "A" "m" H) as (_ & _ & _ & _ & Hget).
  exact Hget.
Defined.

(** X9 on a global message. *)
Lemma add_log_entry_console_witness :
  add_log_entry None "hello" true false (initial_globals 0)
  = stdout_write ("hello" +:+ NL) (initial_globals 0).
Proof.
  destruct (add_log_entry_console (initial_globals 0) None "hello" true false) as [_ H].
  apply H. left. reflexivity.
Defined.

(** X10 where the secret is already gone: the tool answers [HTTP 404]. *)
Lemma delete_result_witness :
  let gone : list string -> bool -> nat -> (PyException + string * string) * nat :=
    fun _ _ w => (inl (CalledProcessError "exit status 1" "HTTP 404: Not Found"), w) in
  let g := initialize_log_collector ["owner/repo"] (initial_globals 0) in
  gone (delete_secret_command "owner/repo" "X") false (world g)
  = (inl (CalledProcessError "exit status 1" "HTTP 404: Not Found"), 0) /\
  fst (delete_github_secret gone "owner/repo" "X" g) = Returned true.
Proof.
  intros gone g.
  assert (H : gone (delete_secret_command "owner/repo" "X") false (world g)
              = (inl (CalledProcessError "exit status 1" "HTTP 404: Not Found"), 0))
    by reflexivity.
  split; [exact H|].
  destruct (delete_result gone "owner/repo" "X" g) as [Hs _].
  exact (Hs _ _ H).
Defined.

(** X11 with [force], where the tool accepts the command. *)
Lemma set_result_witness :
  let g := initialize_log_collector ["owner/repo"] (initial_globals 0) in
  let existing : gset pykey := {[KStr "A"]} in
  (true = true \/ KStr "A" ∉ existing) /\
  sample_subprocess_run (set_secret_command "owner/repo" "A" "v1") false (world g)
  = (inr ("", ""), 0) /\
  fst (set_github_secret sample_subprocess_run "owner/repo" "A" "v1" true existing g)
  = Returned true.
Proof.
  intros g existing.
  assert (H0 : true = true \/ KStr "A" ∉ existing) by (left; reflexivity).
  assert (H : sample_subprocess_run (set_secret_command "owner/repo" "A" "v1") false
                (world g) = (inr ("", ""), 0)) by reflexivity.
  split; [exact H0|]. split; [exact H|].
  destruct (set_result sample_subprocess_run "owner/repo" "A" "v1" true existing g H0)
    as [Hs _].
  exact (Hs _ _ H).
Defined.

(** X12 on an item type the function does not know. *)
Lemma fetch_is_guarded_witness :
  let g := initialize_log_collector ["owner/repo"] (initial_globals 0) in
  "environment" <> "secret" /\ "environment" <> "variable" /\
  fst (_get_existing_items_from_repo sample_subprocess_run sample_json_loads
         "owner/repo" "environment" g) = Returned ∅ /\
  subprocess_calls (snd (_get_existing_items_from_repo sample_subprocess_run
                           sample_json_loads "owner/repo" "environment" g))
  = subprocess_calls g.
Proof.
  intros g.
  assert (H1 : "environment" <> "secret") by discriminate.
  assert (H2 : "environment" <> "variable") by discriminate.
  split; [exact H1|]. split; [exact H2|].
  destruct (fetch_is_guarded sample_subprocess_run sample_json_loads "owner/repo"
              "environment" g) as (_ & Hunknown & _).
  destruct (Hunknown H1 H2) as (Hret & Hcalls & _).
  split; [exact Hret | exact Hcalls].
Defined.

(** X13 where the repository holds the secrets [X] and [Y]. *)
Lemma fetch_returns_witness :
  let g := initialize_log_collector ["owner/repo"] (initial_globals 0) in
  sample_subprocess_run ["gh"; "secret"; "list"; "--repo"; "owner/repo"; "--json"; "name"]
    false (world g) = (inr ("SECRETS", ""), 0) /\
  fst (list_repository_secrets sample_subprocess_run sample_json_loads "owner/repo" g)
  = Returned {[KStr "X"; KStr "Y"]}.
Proof.
  intros g.
  assert (H : sample_subprocess_run
                ["gh"; "secret"; "list"; "--repo"; "owner/repo"; "--json"; "name"]
                false (world g) = (inr ("SECRETS", ""), 0)) by reflexivity.
  split; [exact H|].
  destruct (fetch_returns sample_subprocess_run sample_json_loads "owner/repo" g)
    as [Hs _].
  etransitivity; [exact (Hs _ _ H) | vm_compute; reflexivity].
Defined.

(** X14 on two objects, one of them with a further field and the name [X]
    given twice. *)
Lemma existing_names_of_objects_witness :
  let items := [JObj [("name", JStr "X")];
                JObj [("updatedAt", JStr "2024-01-01"); ("name", JStr "Y")];
                JObj [("name", JStr "X")]] in
  Forall2 (fun item n => exists fields,
             item = JObj fields /\
             snd <$> List.find (fun kv => bool_decide (fst kv = "name")) fields
             = Some (JStr n)) items ["X"; "Y"; "X"] /\
  existing_names (JArr items) = inr (list_to_set (KStr <$> ["X"; "Y"; "X"])).
Proof.
  intros items.
  assert (H : Forall2 (fun item n => exists fields,
                item = JObj fields /\
                snd <$> List.find (fun kv => bool_decide (fst kv = "name")) fields
                = Some (JStr n)) items ["X"; "Y"; "X"]).
  { constructor; [eexists; split; reflexivity|].
    constructor; [eexists; split; reflexivity|].
    constructor; [eexists; split; reflexivity|].
    constructor. }
  split; [exact H|].
  destruct (existing_names_of_objects items ["X"; "Y"; "X"] H) as [Hnames _].
  exact Hnames.
Defined.

(** X22 where the [gh] executable is not installed. *)
Lemma run_gh_command_missing_executable_witness :
  let command := ["gh"; "secret"; "list"; "--repo"; "owner/repo"; "--json"; "name"] in
  fst (missing_gh command false (world (initial_globals 0)))
  = inl (FileNotFoundError "[Errno 2] No such file or directory: 'gh'") /\
  fst (run_gh_command missing_gh command None (initial_globals 0)) = SystemExit 1.
Proof.
  intros command.
  assert (H : fst (missing_gh command false (world (initial_globals 0)))
              = inl (FileNotFoundError "[Errno 2] No such file or directory: 'gh'"))
    by reflexivity.
  split; [exact H|].
  destruct (run_gh_command_missing_executable missing_gh command None (initial_globals 0))
    as (_ & Hexit & _).
  exact (Hexit _ H).
Defined.

(** X17 with a tool that lists the secrets [X] and [Y] until a delete has
    run and only [Y] afterwards: the request deletes [X] and sets [X]
    without [force], and [X], gone by the second fetch, is set. *)
Lemma process_single_repository_call_trace_witness :
  let tool : list string -> bool -> nat -> (PyException + string * string) * nat :=
    fun command _ w =>
      match command with
      | _ :: kind :: verb :: _ =>
          if bool_decide (verb = "list")
          then
            if bool_decide (kind = "secret")
            then (inr (if Nat.eqb w 0 then "BEFORE" else "AFTER", ""), w)
            else (inr ("", ""), w)
          else if bool_decide (verb = "delete")
          then (inr ("", ""), Datatypes.S w)
          else (inr ("", ""), w)
      | _ => (inr ("", ""), w)
      end in
  let loads : string -> JsonResult :=
    fun text =>
      if bool_decide (text = "BEFORE")
      then JsonValue (JArr [JObj [("name", JStr "X")]; JObj [("name", JStr "Y")]])
      else if bool_decide (text = "AFTER")
      then JsonValue (JArr [JObj [("name", JStr "Y")]])
      else JSONDecodeError "Expecting value: line 1 column 1 (char 0)" in
  let g := initialize_log_collector ["owner/repo"] (initial_globals 0) in
  let fetched := _log_and_fetch_existing_repo_items tool loads "owner/repo" g in
  let out := process_single_repository tool loads elements sample_repr_list
               "owner/repo" ["X"] [] [("X", "v1")] [] false g in
  set_order_spec elements /\
  fetched = (Returned ({[KStr "X"; KStr "Y"]}, ∅), snd fetched) /\
  (forall c, fst out <> SystemExit c) /\
  subprocess_calls (snd out)
  = [["gh"; "secret"; "list"; "--repo"; "owner/repo"; "--json"; "name"];
     ["gh"; "variable"; "list"; "--repo"; "owner/repo"; "--json"; "name"];
     ["gh"; "secret"; "delete"; "X"; "--repo"; "owner/repo"];
     ["gh"; "secret"; "list"; "--repo"; "owner/repo"; "--json"; "name"];
     ["gh"; "variable"; "list"; "--repo"; "owner/repo"; "--json"; "name"];
     ["gh"; "secret"; "set"; "X"; "--repo"; "owner/repo"; "--body"; "v1"]].
Proof.
  intros tool loads g fetched out.
  assert (Hord : set_order_spec elements) by (intros X; reflexivity).
  assert (Hfetch : fetched = (Returned ({[KStr "X"; KStr "Y"]}, ∅), snd fetched))
    by (vm_compute; reflexivity).
  assert (Hout : forall c, fst out <> SystemExit c) by (vm_compute; discriminate).
  split; [exact Hord|]. split; [exact Hfetch|]. split; [exact Hout|].
  pose proof (process_single_repository_call_trace tool loads elements sample_repr_list
                "owner/repo" ["X"] [] [("X", "v1")] [] false g (snd fetched)
                {[KStr "X"; KStr "Y"]} ∅ Hord Hfetch Hout) as H.
  cbv zeta in H. destruct H as (_ & _ & H).
  match type of H with match ?second with _ => _ end =>
    assert (Hf2 : second = (Returned ({[KStr "Y"]}, ∅), snd second))
      by (vm_compute; reflexivity);
    rewrite Hf2 in H
  end.
  etransitivity; [exact H | vm_compute; reflexivity].
Defined.

(** X15 on the first turn of a run over one repository. *)
Lemma sequential_turn_records_result_witness :
  let config := mkConfig "owner" [] [] ["X"] [] ["owner/r1"] 1 0 false in
  let f : Processor :=
    process_single_repository sample_subprocess_run sample_json_loads elements
      sample_repr_list in
  let g := sequential_entry nat sample_time config (initial_globals 0) in
  let g1 := snd (stop_event_is_set sample_listener g) in
  keeps_tracker f /\
  is_Some (_repo_statuses g !! "owner/r1") /\
  stop_event_is_set sample_listener g = (Returned false, g1) /\
  fst (f "owner/r1" (delete_secrets config) (delete_variables config)
         (secrets_to_set config) (variables_to_set config) (force config)
         (turn_start "owner/r1" g1)) = Returned true /\
  _repo_statuses (snd (sequential_iteration sample_listener sample_sleep config f 0
                         "owner/r1" g)) !! "owner/r1"
  = Some (mkRepoStatus true Completed).
Proof.
  intros config f g g1.
  assert (Hf : keeps_tracker f).
  { intros repo Ds Dv S V force. apply process_single_repository_same_tracker. }
  assert (Ht : is_Some (_repo_statuses g !! "owner/r1")).
  { exists (mkRepoStatus false Pending). vm_compute. reflexivity. }
  assert (Hstop : stop_event_is_set sample_listener g = (Returned false, g1))
    by (vm_compute; reflexivity).
  assert (Hres : fst (f "owner/r1" (delete_secrets config) (delete_variables config)
                        (secrets_to_set config) (variables_to_set config) (force config)
                        (turn_start "owner/r1" g1)) = Returned true)
    by (vm_compute; reflexivity).
  split; [exact Hf|]. split; [exact Ht|]. split; [exact Hstop|]. split; [exact Hres|].
  pose proof (sequential_turn_records_result sample_listener sample_sleep config f 0
                "owner/r1" g g1 Hf Ht Hstop) as H.
  rewrite Hres in H. destruct H as [_ H]. exact H.
Defined.

(** X16 on a run over two repositories that nobody aborts. *)
Lemma sequential_run_finishes_all_witness :
  let config := mkConfig "owner" [] [] ["X"] [] ["owner/r1"; "owner/r2"] 1 0 false in
  let f : Processor :=
    process_single_repository sample_subprocess_run sample_json_loads elements
      sample_repr_list in
  let silent : nat -> bool * nat := fun w => (false, w) in
  let pooled : GitHubOperationConfig -> Processor -> nat -> M nat unit :=
    fun _ _ _ g => (Returned tt, g) in
  let out := process_repositories silent sample_sleep nat sample_time sample_elapsed
               pooled config f (initial_globals 0) in
  max_workers config = 1%Z /\ keeps_tracker f /\ leaves_event f /\ never_exits f /\
  listener_silent silent /\ stop_event (initial_globals 0) = false /\
  fst out = Returned tt /\
  finished "owner/r2" (snd out) /\
  snd (fst (get_current_progress_summary (snd out))) = size (_repo_statuses (snd out)).
Proof.
  intros config f silent pooled out.
  assert (Hw : max_workers config = 1%Z) by reflexivity.
  assert (Hf : keeps_tracker f).
  { intros repo Ds Dv S V force. apply process_single_repository_same_tracker. }
  assert (Hle : leaves_event f).
  { intros repo Ds Dv S V force. apply process_single_repository_leaves_event. }
  assert (Hgh : gh_found sample_subprocess_run).
  { intros command shell w t. unfold sample_subprocess_run.
    destruct command as [|a [|kind [|verb l]]]; try discriminate.
    destruct (bool_decide (verb = "list") && bool_decide (kind = "secret")); discriminate. }
  assert (Hne : never_exits f).
  { intros repo Ds Dv S V force. apply no_exit_process_single_repository. exact Hgh. }
  assert (Hl : listener_silent silent) by (intros w; reflexivity).
  assert (Hc : stop_event (initial_globals 0) = false) by reflexivity.
  split; [exact Hw|]. split; [exact Hf|]. split; [exact Hle|]. split; [exact Hne|].
  split; [exact Hl|]. split; [exact Hc|].
  destruct (sequential_run_finishes_all silent sample_sleep nat sample_time sample_elapsed
              pooled config f (initial_globals 0) Hw Hf Hle Hne Hl Hc)
    as (Hret & Hfin & _ & Hsum & _).
  split; [exact Hret|]. split; [|exact Hsum].
  apply Hfin. apply elem_of_cons. right. apply elem_of_cons. left. reflexivity.
Defined.

(** X18 on a group that holds two messages. *)
Lemma turn_finally_flushes_witness :
  let g := add_log_entry (Some "A") "m2" true false
             (add_log_entry (Some "A") "m1" true false
                (initialize_log_collector ["A"] (initial_globals 0))) in
  is_Some (_all_group_logs g !! "A") /\
  stdout (snd (turn_finally "A" g))
  = stdout g ++ ((fun m => m +:+ NL) <$> get_group_log_entries "A" g) /\
  get_group_log_entries "A" (snd (turn_finally "A" g)) = [].
Proof.
  intros g.
  assert (H : is_Some (_all_group_logs g !! "A")).
  { exists (mkLogGroup ["m1"; "m2"]). vm_compute. reflexivity. }
  split; [exact H|].
  destruct (turn_finally_flushes "A" g H) as (_ & Hout & Hempty & _).
  split; [exact Hout | exact Hempty].
Defined.

(** X20 on a pending repository, the event clear. *)
Lemma worker_outcome_witness :
  let config := mkConfig "owner" [] [] ["X"] [] ["owner/r1"] 2 0 false in
  let f : Processor :=
    process_single_repository sample_subprocess_run sample_json_loads elements
      sample_repr_list in
  let g := initialize_log_collector ["owner/r1"]
             (initialize_repository_statuses ["owner/r1"] (initial_globals 0)) in
  let g1 := snd (stop_event_is_set sample_listener g) in
  keeps_tracker f /\
  stop_event_is_set sample_listener g = (Returned false, g1) /\
  lifecycle_of "owner/r1" g = Some Pending /\
  lifecycle_of "owner/r1"
    (snd (_process_single_repository_worker sample_listener "owner/r1" config f 0 1 g))
  = Some InProgress.
Proof.
  intros config f g g1.
  assert (Hf : keeps_tracker f).
  { intros repo Ds Dv S V force. apply process_single_repository_same_tracker. }
  assert (Hstop : stop_event_is_set sample_listener g = (Returned false, g1))
    by (vm_compute; reflexivity).
  assert (Hp : lifecycle_of "owner/r1" g = Some Pending) by (vm_compute; reflexivity).
  split; [exact Hf|]. split; [exact Hstop|]. split; [exact Hp|].
  destruct (worker_outcome sample_listener config f "owner/r1" 0 1 g g1 Hf)
    as (_ & Hrun & _).
  destruct (Hrun Hstop) as (_ & _ & Hip).
  exact (Hip Hp).
Defined.

(** X19 for a command line that asks for no worker. *)
Lemma main_rejects_invalid_configuration_witness :
  let args := mkArgs "owner" 0 0 false None None None None None in
  let parse : M nat Args := fun g => (Returned args, g) in
  let validate : string -> string -> M nat (option string) :=
    fun p _ g => (Returned (Some p), g) in
  let read_pairs : string -> string -> M nat (list (string * string)) :=
    fun _ _ g => (Returned [], g) in
  let read_list : string -> string -> M nat (list string) := fun _ _ g => (Returned [], g) in
  let lines : string -> M nat (list string) := fun _ g => (Returned [], g) in
  let fetch_repositories : string -> M nat (list string) :=
    fun _ g => (Returned ["owner/r1"], g) in
  let confirm : list string -> list string -> list (string * string) ->
                list (string * string) -> list string -> Z -> Z -> bool -> M nat unit :=
    fun _ _ _ _ _ _ _ _ g => (Returned tt, g) in
  let pooled : GitHubOperationConfig -> Processor -> nat -> M nat unit :=
    fun _ _ _ g => (Returned tt, g) in
  let g := initial_globals 0 in
  parse g = (Returned args, g) /\
  (args_workers args < 1 \/ args_sleep args < 0)%Z /\
  exists text,
    main sample_subprocess_run sample_json_loads elements sample_repr_list
      sample_listener sample_sleep nat sample_time sample_elapsed pooled parse validate
      read_pairs read_list lines (fun s => s) fetch_repositories confirm g
    = (Raised (ValueError text), g).
Proof.
  intros args parse validate read_pairs read_list lines fetch_repositories confirm pooled g.
  assert (Hparse : parse g = (Returned args, g)) by reflexivity.
  assert (Hbad : (args_workers args < 1 \/ args_sleep args < 0)%Z) by (left; reflexivity).
  split; [exact Hparse|]. split; [exact Hbad|].
  exact (main_rejects_invalid_configuration sample_subprocess_run sample_json_loads
           elements sample_repr_list sample_listener sample_sleep nat sample_time
           sample_elapsed pooled parse validate read_pairs read_list lines (fun s => s)
           fetch_repositories confirm g g args Hparse Hbad).
Defined.

(** X21 for a target file with a comment, a blank line and the names [r1]
    and [other/r2]. *)
Lemma tr_repositories_are_qualified_witness :
  let args := mkArgs "owner" 1 0 false None None None None (Some "repos.txt") in
  let parse : M nat Args := fun g => (Returned args, g) in
  let validate : string -> string -> M nat (option string) :=
    fun p _ g => (Returned (Some p), g) in
  let read_pairs : string -> string -> M nat (list (string * string)) :=
    fun _ _ g => (Returned [], g) in
  let read_list : string -> string -> M nat (list string) := fun _ _ g => (Returned [], g) in
  let file := ["# targets"; "r1"; ""; "other/r2"] in
  let lines : string -> M nat (list string) := fun _ g => (Returned file, g) in
  let fetch_repositories : string -> M nat (list string) := fun _ g => (Returned [], g) in
  let g := initial_globals 0 in
  let out := main_configure parse validate read_pairs read_list lines (fun s => s)
               fetch_repositories g in
  let config := mkConfig "owner" [] [] [] [] ["owner/r1"; "other/r2"] 1 0 false in
  parse g = (Returned args, g) /\
  args_tr args = Some "repos.txt" /\
  (forall g0, fst (lines "repos.txt" g0) = Returned file) /\
  out = (Returned config, snd out) /\
  repositories config = ["owner/r1"; "other/r2"] /\
  contains "/" "owner/r1" = true.
Proof.
  intros args parse validate read_pairs read_list file lines fetch_repositories g out
    config.
  assert (Hparse : parse g = (Returned args, g)) by reflexivity.
  assert (Htr : args_tr args = Some "repos.txt") by reflexivity.
  assert (Hlines : forall g0, fst (lines "repos.txt" g0) = Returned file)
    by (intros g0; reflexivity).
  assert (Hcfg : out = (Returned config, snd out)) by (vm_compute; reflexivity).
  split; [exact Hparse|]. split; [exact Htr|]. split; [exact Hlines|].
  split; [exact Hcfg|].
  destruct (tr_repositories_are_qualified parse validate read_pairs read_list lines
              (fun s => s) fetch_repositories g g (snd out) args "repos.txt" file config
              Hparse Htr Hlines Hcfg) as [Hmap Hall].
  split.
  - etransitivity; [exact Hmap | vm_compute; reflexivity].
  - apply Hall. apply elem_of_cons. left. reflexivity.
Defined.
